(** * QOA ("Quite OK Audio") codec of qoa4R: a shallow embedding of
    [qoa.h], [read.c] and [write.c], and the properties of its
    encoder and decoder.

    Conventions of the embedding.
    - C integers are [Z]; every arithmetic result is wrapped to the width
      and signedness of its C type ([u32], [s32], [u64], [s16]).  Signed
      overflow, undefined in C, is read as two's complement wrap-around.
    - The counters of the [for] loops, and the sample indices computed from
      them, are exact integers: they agree with the C values as long as
      [frame_len * channels] fits an [int], which the frame bounds of the
      format guarantee.
    - A buffer is a list; a pointer into it is the list and an offset.
      Reading outside the list yields 0 and writing outside is dropped
      (both are undefined in C).  [qoa_decode], which allocates the
      buffer it stores into, checks every frame against the bounds of its
      arrays (the input, the sample buffer and the [lms] of the
      descriptor): a run that loads or stores outside them, or through
      the null pointer of a failed allocation, is [OutOfBounds]. *)

From Stdlib Require Import ZArith List Lia Bool.
Import ListNotations.
Local Open Scope Z_scope.

(** ** Machine integers *)

Module Int.

Definition u32 (z : Z) : Z := z mod 2 ^ 32.
Definition s32 (z : Z) : Z := (z + 2 ^ 31) mod 2 ^ 32 - 2 ^ 31.
Definition u64 (z : Z) : Z := z mod 2 ^ 64.
Definition s16 (z : Z) : Z := (z + 2 ^ 15) mod 2 ^ 16 - 2 ^ 15.

Definition INT_MAX : Z := 2 ^ 31 - 1.
Definition INT_MIN : Z := - 2 ^ 31.
Definition U64_MAX : Z := 2 ^ 64 - 1.

Definition is_int (z : Z) : Prop := INT_MIN <= z <= INT_MAX.
Definition is_u32 (z : Z) : Prop := 0 <= z < 2 ^ 32.
Definition is_short (z : Z) : Prop := -32768 <= z <= 32767.
Definition is_byte (z : Z) : Prop := 0 <= z <= 255.

Definition is_shortb (z : Z) : bool := (-32768 <=? z) && (z <=? 32767).
Definition is_byteb (z : Z) : bool := (0 <=? z) && (z <=? 255).

(** [(a > b)] as a C [int]. *)
Definition b2z (b : bool) : Z := if b then 1 else 0.

End Int.
Import Int.

(** ** Arrays and buffers *)

Module Buf.

(** [a[i]] for a list used as a C array. *)
Definition get (l : list Z) (i : Z) : Z :=
  if i <? 0 then 0 else nth (Z.to_nat i) l 0.

Fixpoint set_nat {A} (l : list A) (n : nat) (v : A) : list A :=
  match l, n with
  | [], _ => []
  | _ :: t, O => v :: t
  | h :: t, S m => h :: set_nat t m v
  end.

(** [a[i] = v]. *)
Definition set {A} (l : list A) (i : Z) (v : A) : list A :=
  if i <? 0 then l else set_nat l (Z.to_nat i) v.

End Buf.

(** ** Loops *)

(** [for (i = lo; i < hi; i += step) s = body i s;] with [step > 0]: at most
    [hi - lo] rounds are ever needed, and [for_range_unroll] below shows
    that the function is the loop. *)
Fixpoint for_fuel {St : Type} (fuel : nat) (i hi step : Z)
    (body : Z -> St -> St) (s : St) : St :=
  match fuel with
  | O => s
  | S f => if i <? hi then for_fuel f (i + step) hi step body (body i s) else s
  end.

Definition for_range {St : Type} (lo hi step : Z) (body : Z -> St -> St) (s : St) : St :=
  for_fuel (Z.to_nat (hi - lo)) lo hi step body s.

(** The same loop when the body may [break]: the body returns the new state
    and whether it left the loop. *)
Fixpoint for_fuel_break {St : Type} (fuel : nat) (i hi step : Z)
    (body : Z -> St -> St * bool) (s : St) : St :=
  match fuel with
  | O => s
  | S f =>
      if i <? hi then
        let '(s', brk) := body i s in
        if brk then s' else for_fuel_break f (i + step) hi step body s'
      else s
  end.

Definition for_range_break {St : Type} (lo hi step : Z)
    (body : Z -> St -> St * bool) (s : St) : St :=
  for_fuel_break (Z.to_nat (hi - lo)) lo hi step body s.

(** ** Runs *)

(** How a run of code that allocates, loads and stores ends: with a value;
    with a load or a store outside the arrays it was given or has
    allocated, which is undefined in C; or with a loop that has no rounds
    left in the model. *)
Inductive run (A : Type) : Type :=
| Ok (a : A)
| OutOfBounds
| OutOfFuel.

Arguments Ok {A} a.
Arguments OutOfBounds {A}.
Arguments OutOfFuel {A}.

(** [size_t] has 64 bits; no object is larger than [PTRDIFF_MAX] bytes. *)
Definition PTRDIFF_MAX : Z := 2 ^ 63 - 1.

(** [QOA_MALLOC(size)], that is [malloc], for an array of [short]: [None]
    is [NULL].  A request that no address space can hold is refused; any
    other is taken to be granted.  (For a request of no bytes C leaves it
    to the library whether the answer is [NULL]; it is a block of no cells
    here, and what is proved of a buffer being [NULL] or not is proved for
    requests of at least one cell or of more than [PTRDIFF_MAX] bytes.)
    The block is not initialised in C; its cells start as 0 here. *)
Definition QOA_MALLOC_shorts (size : Z) : option (list Z) :=
  if size >? PTRDIFF_MAX then None
  else Some (repeat 0 (Z.to_nat (size / 2))).

(** The cells behind a pointer: none behind [NULL]. *)
Definition cells (sample_data : option (list Z)) : list Z :=
  match sample_data with
  | Some l => l
  | None => []
  end.

(** ** qoa.h: constants and tables *)

Definition QOA_MIN_FILESIZE : Z := 16.
Definition QOA_MAX_CHANNELS : Z := 8.
Definition QOA_SLICE_LEN : Z := 20.
Definition QOA_SLICES_PER_FRAME : Z := 256.
Definition QOA_FRAME_LEN : Z := QOA_SLICES_PER_FRAME * QOA_SLICE_LEN.
Definition QOA_LMS_LEN : Z := 4.
Definition QOA_MAGIC : Z := 0x716f6166.

Definition QOA_FRAME_SIZE (channels slices : Z) : Z :=
  8 + QOA_LMS_LEN * 4 * channels + 8 * slices * channels.

Definition qoa_quant_tab : list Z :=
  [7; 7; 7; 5; 5; 3; 3; 1;
   0;
   0; 2; 2; 4; 4; 6; 6; 6].

Definition qoa_scalefactor_tab : list Z :=
  [1; 7; 21; 45; 84; 138; 211; 304; 421; 562; 731; 928; 1157; 1419; 1715; 2048].

Definition qoa_reciprocal_tab : list Z :=
  [65536; 9363; 3121; 1457; 781; 475; 311; 216; 156; 117; 90; 71; 57; 47; 39; 32].

Definition qoa_dequant_tab : list (list Z) :=
  [ [   1;    -1;    3;    -3;    5;    -5;     7;     -7];
    [   5;    -5;   18;   -18;   32;   -32;    49;    -49];
    [  16;   -16;   53;   -53;   95;   -95;   147;   -147];
    [  34;   -34;  113;  -113;  203;  -203;   315;   -315];
    [  63;   -63;  210;  -210;  378;  -378;   588;   -588];
    [ 104;  -104;  345;  -345;  621;  -621;   966;   -966];
    [ 158;  -158;  528;  -528;  950;  -950;  1477;  -1477];
    [ 228;  -228;  760;  -760; 1368; -1368;  2128;  -2128];
    [ 316;  -316; 1053; -1053; 1895; -1895;  2947;  -2947];
    [ 422;  -422; 1405; -1405; 2529; -2529;  3934;  -3934];
    [ 548;  -548; 1828; -1828; 3290; -3290;  5117;  -5117];
    [ 696;  -696; 2320; -2320; 4176; -4176;  6496;  -6496];
    [ 868;  -868; 2893; -2893; 5207; -5207;  8099;  -8099];
    [1064; -1064; 3548; -3548; 6386; -6386;  9933;  -9933];
    [1286; -1286; 4288; -4288; 7718; -7718; 12005; -12005];
    [1536; -1536; 5120; -5120; 9216; -9216; 14336; -14336] ].

(** [qoa_dequant_tab[scalefactor][quantized]]. *)
Definition dequant (scalefactor quantized : Z) : Z :=
  if scalefactor <? 0 then 0
  else Buf.get (nth (Z.to_nat scalefactor) qoa_dequant_tab []) quantized.

(** ** qoa.h: the state of the codec *)

(** [int a[QOA_LMS_LEN]]. *)
Record arr4 : Type := Arr4 { a0 : Z; a1 : Z; a2 : Z; a3 : Z }.

Definition get4 (a : arr4) (i : Z) : Z :=
  if i =? 0 then a0 a else if i =? 1 then a1 a
  else if i =? 2 then a2 a else if i =? 3 then a3 a else 0.

Definition set4 (a : arr4) (i : Z) (v : Z) : arr4 :=
  if i =? 0 then Arr4 v (a1 a) (a2 a) (a3 a)
  else if i =? 1 then Arr4 (a0 a) v (a2 a) (a3 a)
  else if i =? 2 then Arr4 (a0 a) (a1 a) v (a3 a)
  else if i =? 3 then Arr4 (a0 a) (a1 a) (a2 a) v
  else a.

Record qoa_lms_t : Type := Lms { history : arr4; weights : arr4 }.

Record qoa_desc : Type := Desc {
  channels : Z;        (* unsigned int *)
  samplerate : Z;      (* unsigned int *)
  samples : Z;         (* unsigned int *)
  lms : list qoa_lms_t (* qoa_lms_t lms[QOA_MAX_CHANNELS] *)
}.

Definition lms_zero : qoa_lms_t := Lms (Arr4 0 0 0 0) (Arr4 0 0 0 0).

(** [qoa->lms[c]] and [qoa->lms[c] = v]. *)
Definition lms_get (qoa : qoa_desc) (c : Z) : qoa_lms_t :=
  if c <? 0 then lms_zero else nth (Z.to_nat c) (lms qoa) lms_zero.

Definition lms_set (qoa : qoa_desc) (c : Z) (v : qoa_lms_t) : qoa_desc :=
  Desc (channels qoa) (samplerate qoa) (samples qoa) (Buf.set (lms qoa) c v).

Definition set_samples (qoa : qoa_desc) (n : Z) : qoa_desc :=
  Desc (channels qoa) (samplerate qoa) n (lms qoa).

Definition set_channels (qoa : qoa_desc) (n : Z) : qoa_desc :=
  Desc n (samplerate qoa) (samples qoa) (lms qoa).

Definition set_samplerate (qoa : qoa_desc) (n : Z) : qoa_desc :=
  Desc (channels qoa) n (samples qoa) (lms qoa).

(** ** qoa.h: the LMS predictor *)

Definition qoa_lms_predict (l : qoa_lms_t) : Z :=
  let prediction :=
    for_range 0 QOA_LMS_LEN 1
      (fun i prediction =>
         s32 (prediction + s32 (get4 (weights l) i * get4 (history l) i)))
      0 in
  Z.shiftr prediction 13.

Definition qoa_lms_update (l : qoa_lms_t) (sample residual : Z) : qoa_lms_t :=
  let delta := Z.shiftr residual 4 in
  let w :=
    for_range 0 QOA_LMS_LEN 1
      (fun i w =>
         set4 w i (s32 (get4 w i
                        + (if get4 (history l) i <? 0 then s32 (- delta) else delta))))
      (weights l) in
  let h :=
    for_range 0 (QOA_LMS_LEN - 1) 1
      (fun i h => set4 h i (get4 h (i + 1)))
      (history l) in
  Lms (set4 h (QOA_LMS_LEN - 1) sample) w.

(** ** qoa.h: fixed-point primitives *)

Definition qoa_div (v scalefactor : Z) : Z :=
  let reciprocal := Buf.get qoa_reciprocal_tab scalefactor in
  let n := Z.shiftr (s32 (s32 (v * reciprocal) + Z.shiftl 1 15)) 16 in
  s32 (s32 (n + (b2z (v >? 0) - b2z (v <? 0))) - (b2z (n >? 0) - b2z (n <? 0))).

Definition qoa_clamp (v min max : Z) : Z :=
  if v <? min then min else if v >? max then max else v.

(** The big-endian word at [bytes[b .. b+7]]. *)
Definition be64_get (bytes : list Z) (b : Z) : Z :=
  Z.lor (Z.lor (Z.lor (Z.lor (Z.lor (Z.lor (Z.lor
    (u64 (Z.shiftl (Buf.get bytes (b + 0)) 56))
    (u64 (Z.shiftl (Buf.get bytes (b + 1)) 48)))
    (u64 (Z.shiftl (Buf.get bytes (b + 2)) 40)))
    (u64 (Z.shiftl (Buf.get bytes (b + 3)) 32)))
    (u64 (Z.shiftl (Buf.get bytes (b + 4)) 24)))
    (u64 (Z.shiftl (Buf.get bytes (b + 5)) 16)))
    (u64 (Z.shiftl (Buf.get bytes (b + 6)) 8)))
    (u64 (Z.shiftl (Buf.get bytes (b + 7)) 0)).

(** [bytes] is the buffer, [base] where the C pointer [bytes] points into it,
    [p] the cursor; the result is the word and the advanced cursor. *)
Definition qoa_read_u64 (bytes : list Z) (base p : Z) : Z * Z :=
  (be64_get bytes (base + p), u32 (p + 8)).

(** [v] stored big-endian in [bytes[b .. b+7]]. *)
Definition be64_put (v : Z) (bytes : list Z) (b : Z) : list Z :=
  let bytes := Buf.set bytes (b + 0) (Z.land (Z.shiftr v 56) 0xff) in
  let bytes := Buf.set bytes (b + 1) (Z.land (Z.shiftr v 48) 0xff) in
  let bytes := Buf.set bytes (b + 2) (Z.land (Z.shiftr v 40) 0xff) in
  let bytes := Buf.set bytes (b + 3) (Z.land (Z.shiftr v 32) 0xff) in
  let bytes := Buf.set bytes (b + 4) (Z.land (Z.shiftr v 24) 0xff) in
  let bytes := Buf.set bytes (b + 5) (Z.land (Z.shiftr v 16) 0xff) in
  let bytes := Buf.set bytes (b + 6) (Z.land (Z.shiftr v 8) 0xff) in
  let bytes := Buf.set bytes (b + 7) (Z.land (Z.shiftr v 0) 0xff) in
  bytes.

Definition qoa_write_u64 (v : Z) (bytes : list Z) (base p : Z) : list Z * Z :=
  (be64_put v bytes (base + p), u32 (p + 8)).

(** ** read.c: the decoder *)

(** The fields of a frame header word. *)
Definition fh_channels (frame_header : Z) : Z := Z.land (Z.shiftr frame_header 56) 0x0000ff.
Definition fh_samplerate (frame_header : Z) : Z := Z.land (Z.shiftr frame_header 32) 0xffffff.
Definition fh_samples (frame_header : Z) : Z := Z.land (Z.shiftr frame_header 16) 0x00ffff.
Definition fh_frame_size (frame_header : Z) : Z := Z.land frame_header 0x00ffff.

Definition qoa_max_frame_size (qoa : qoa_desc) : Z :=
  u32 (QOA_FRAME_SIZE (channels qoa) QOA_SLICES_PER_FRAME).

(** Returns the function's result and the descriptor as it leaves it. *)
Definition qoa_decode_header (bytes : list Z) (size : Z) (qoa : qoa_desc) : Z * qoa_desc :=
  let p := 0 in
  if size <? QOA_MIN_FILESIZE then (0, qoa) else
  let '(file_header, p) := qoa_read_u64 bytes 0 p in
  if negb (Z.shiftr file_header 32 =? QOA_MAGIC) then (0, qoa) else
  let qoa := set_samples qoa (Z.land file_header 0xffffffff) in
  if samples qoa =? 0 then (0, qoa) else
  let '(frame_header, p) := qoa_read_u64 bytes 0 p in
  let qoa := set_channels qoa (Z.land (Z.shiftr frame_header 56) 0x0000ff) in
  let qoa := set_samplerate qoa (Z.land (Z.shiftr frame_header 32) 0xffffff) in
  if (channels qoa =? 0) || (samples qoa =? 0) || (samplerate qoa =? 0)
  then (0, qoa)
  else (8, qoa).

(** The two words of one channel's LMS state, unpacked into [l]. *)
Definition qoa_decode_lms (history_w weights_w : Z) (l : qoa_lms_t) : qoa_lms_t :=
  let '(l, _, _) :=
    for_range 0 QOA_LMS_LEN 1
      (fun i '(l, history_w, weights_w) =>
         let l := Lms (set4 (history l) i (s16 (Z.shiftr history_w 48))) (weights l) in
         let history_w := u64 (Z.shiftl history_w 16) in
         let l := Lms (history l) (set4 (weights l) i (s16 (Z.shiftr weights_w 48))) in
         let weights_w := u64 (Z.shiftl weights_w 16) in
         (l, history_w, weights_w))
      (l, history_w, weights_w) in
  l.

(** The body of the innermost loop of the frame decoder: one residual of
    [slice] is turned into a sample.  Yields the sample, the updated LMS
    state and the shifted slice. *)
Definition qoa_decode_sample (l : qoa_lms_t) (scalefactor slice : Z)
  : Z * qoa_lms_t * Z :=
  let predicted := qoa_lms_predict l in
  let quantized := Z.land (Z.shiftr slice 57) 0x7 in
  let dequantized := dequant scalefactor quantized in
  let reconstructed := qoa_clamp (s32 (predicted + dequantized)) (-32768) 32767 in
  (reconstructed, qoa_lms_update l reconstructed dequantized, u64 (Z.shiftl slice 3)).

(** The loop of the frame decoder that reads the LMS state of every channel;
    the state of the loop is the descriptor and the cursor. *)
Definition qoa_decode_frame_lms (bytes : list Z) (base : Z) (channels_ : Z)
    (st : qoa_desc * Z) : qoa_desc * Z :=
  for_range 0 channels_ 1
    (fun c '(qoa, p) =>
       let '(history_w, p) := qoa_read_u64 bytes base p in
       let '(weights_w, p) := qoa_read_u64 bytes base p in
       (lms_set qoa c (qoa_decode_lms history_w weights_w (lms_get qoa c)), p))
    st.

(** The body of the loop over the channels: the slice of channel [c] that
    starts at sample [sample_index] is read and decoded.  The state is the
    descriptor, the output and the cursor. *)
Definition qoa_decode_slice (bytes : list Z) (base : Z) (channels_ samples_ : Z)
    (sp : Z) (sample_index c : Z) (st : qoa_desc * list Z * Z)
  : qoa_desc * list Z * Z :=
  let '(qoa, sample_data, p) := st in
  let '(slice, p) := qoa_read_u64 bytes base p in
  let scalefactor := Z.land (Z.shiftr slice 60) 0xf in
  let slice_start := sample_index * channels_ + c in
  let slice_end :=
    qoa_clamp (sample_index + QOA_SLICE_LEN) 0 samples_ * channels_ + c in
  let '(qoa, sample_data, _) :=
    for_range slice_start slice_end channels_
      (fun si '(qoa, sample_data, slice) =>
         let '(reconstructed, l, slice) :=
           qoa_decode_sample (lms_get qoa c) scalefactor slice in
         (lms_set qoa c l, Buf.set sample_data (sp + si) reconstructed, slice))
      (qoa, sample_data, slice) in
  (qoa, sample_data, p).

(** The loop over all slices of all channels of a frame. *)
Definition qoa_decode_slices (bytes : list Z) (base : Z) (channels_ samples_ : Z)
    (sp : Z) (st : qoa_desc * list Z * Z) : qoa_desc * list Z * Z :=
  for_range 0 samples_ QOA_SLICE_LEN
    (fun sample_index st =>
       for_range 0 channels_ 1
         (qoa_decode_slice bytes base channels_ samples_ sp sample_index) st)
    st.

(** [bytes], [base]: the input and where the frame starts in it;
    [sample_data], [sp]: the output and where this frame's samples start.
    Result: the return value, [*frame_len], the descriptor and the output. *)
Definition qoa_decode_frame (bytes : list Z) (base : Z) (size : Z) (qoa : qoa_desc)
    (sample_data : list Z) (sp : Z) : Z * Z * qoa_desc * list Z :=
  let p := 0 in
  if size <? u32 (8 + QOA_LMS_LEN * 4 * channels qoa) then (0, 0, qoa, sample_data) else
  let '(frame_header, p) := qoa_read_u64 bytes base p in
  let channels_ := fh_channels frame_header in
  let samplerate_ := fh_samplerate frame_header in
  let samples_ := fh_samples frame_header in
  let frame_size := fh_frame_size frame_header in
  let data_size := frame_size - 8 - QOA_LMS_LEN * 4 * channels_ in
  let num_slices := Z.quot data_size 8 in
  let max_total_samples := num_slices * QOA_SLICE_LEN in
  if negb (channels_ =? channels qoa)
     || negb (samplerate_ =? samplerate qoa)
     || (frame_size >? size)
     || (samples_ * channels_ >? max_total_samples)
  then (0, 0, qoa, sample_data) else
  let '(qoa, p) := qoa_decode_frame_lms bytes base channels_ (qoa, p) in
  let '(qoa, sample_data, p) :=
    qoa_decode_slices bytes base channels_ samples_ sp (qoa, sample_data, p) in
  (p, samples_, qoa, sample_data).

(** [int total_samples = qoa->samples * qoa->channels]. *)
Definition total_samples (qoa : qoa_desc) : Z :=
  s32 (u32 (samples qoa * channels qoa)).

(** Whether [qoa_decode_frame], called for the frame at [bytes[p]] with
    [size] bytes left and [sample_ptr] into [sample_data], stays inside the
    arrays, given what it returns.  A frame that it accepts (a nonzero
    return) has the channels of the descriptor, and its state is stored in
    [lms[0]] to [lms[channels - 1]] of the [QOA_MAX_CHANNELS] entries.  It
    loads nothing when too few bytes are left for its first test, the frame
    header when it then rejects the frame, and the [frame_size] bytes it
    reports as consumed otherwise; it stores the [frame_len * channels]
    samples of the frame from [sample_ptr] on. *)
Definition frame_in_bounds (bytes : list Z) (p size : Z) (qoa : qoa_desc)
    (sample_data : list Z) (sample_ptr frame_size frame_len : Z) : bool :=
  let loaded :=
    if size <? u32 (8 + QOA_LMS_LEN * 4 * channels qoa) then 0
    else Z.max 8 frame_size in
  ((frame_size =? 0) || (channels qoa <=? QOA_MAX_CHANNELS))
  && ((loaded =? 0) || (p + loaded <=? Z.of_nat (length bytes)))
  && ((frame_len * channels qoa <=? 0)
      || (sample_ptr + frame_len * channels qoa <=? Z.of_nat (length sample_data))).

(** The [do ... while] of [qoa_decode] over the cells of [sample_data]. *)
Fixpoint qoa_decode_frames (fuel : nat) (bytes : list Z) (size : Z) (qoa : qoa_desc)
    (sample_data : list Z) (p sample_index : Z) : run (qoa_desc * list Z * Z * Z) :=
  match fuel with
  | O => OutOfFuel
  | S fuel' =>
      let sample_ptr := u32 (sample_index * channels qoa) in
      let '(frame_size, frame_len, qoa', sample_data') :=
        qoa_decode_frame bytes p (u32 (size - p)) qoa sample_data sample_ptr in
      if frame_in_bounds bytes p (u32 (size - p)) qoa sample_data sample_ptr
           frame_size frame_len
      then
        let p := u32 (p + frame_size) in
        let sample_index := u32 (sample_index + frame_len) in
        if negb (frame_size =? 0) && (sample_index <? samples qoa')
        then qoa_decode_frames fuel' bytes size qoa' sample_data' p sample_index
        else Ok (qoa', sample_data', p, sample_index)
      else OutOfBounds
  end.

(** [bytes] is the array of [size] bytes that is passed in.
    [Ok (None, qoa)] is the [NULL] return and [Ok (Some sample_data, qoa)]
    the buffer returned, with the descriptor as it is left.  The result of
    [QOA_MALLOC] is not tested: after a failed allocation the frame loop
    runs on the null pointer, and [NULL] is returned when no frame stores
    a sample.  The loop gets one round more than there are bytes. *)
Definition qoa_decode (bytes : list Z) (size : Z) (qoa : qoa_desc)
  : run (option (list Z) * qoa_desc) :=
  let '(p, qoa) := qoa_decode_header bytes size qoa in
  if p =? 0 then Ok (None, qoa) else
  let sample_data := QOA_MALLOC_shorts (u64 (total_samples qoa * 2)) in
  match qoa_decode_frames (S (length bytes)) bytes size qoa (cells sample_data) p 0 with
  | Ok (qoa, stored, _, sample_index) =>
      Ok (match sample_data with Some _ => Some stored | None => None end,
          set_samples qoa sample_index)
  | OutOfBounds => OutOfBounds
  | OutOfFuel => OutOfFuel
  end.

(** ** write.c: the encoder *)

Definition qoa_encode_header (qoa : qoa_desc) (bytes : list Z) : list Z * Z :=
  let p := 0 in
  qoa_write_u64 (Z.lor (u64 (Z.shiftl QOA_MAGIC 32)) (samples qoa)) bytes 0 p.

(** The frame header word written by [qoa_encode_frame]. *)
Definition frame_header_word (qoa : qoa_desc) (frame_len frame_size : Z) : Z :=
  Z.lor (Z.lor (Z.lor
    (u64 (Z.shiftl (channels qoa) 56))
    (u64 (Z.shiftl (samplerate qoa) 32)))
    (u64 (Z.shiftl frame_len 16)))
    frame_size.

(** The two words that hold the LMS state [l] of one channel. *)
Definition qoa_encode_lms (l : qoa_lms_t) : Z * Z :=
  for_range 0 QOA_LMS_LEN 1
    (fun i '(history_w, weights_w) =>
       (Z.lor (u64 (Z.shiftl history_w 16)) (Z.land (get4 (history l) i) 0xffff),
        Z.lor (u64 (Z.shiftl weights_w 16)) (Z.land (get4 (weights l) i) 0xffff)))
    (0, 0).

(** The body of the loop over the samples of a slice, for a fixed
    [scalefactor]: the sample at [si] is encoded from the state
    [(lms, slice, current_error)]; the flag says that the loop is left
    because the error exceeds [best_error]. *)
Definition qoa_encode_sample (sample_data : list Z) (sbase : Z)
    (scalefactor best_error : Z) (si : Z) (st : qoa_lms_t * Z * Z)
  : qoa_lms_t * Z * Z * bool :=
  let '(l, slice, current_error) := st in
  let sample := Buf.get sample_data (sbase + si) in
  let predicted := qoa_lms_predict l in
  let residual := s32 (sample - predicted) in
  let scaled := qoa_div residual scalefactor in
  let clamped := qoa_clamp scaled (-8) 8 in
  let quantized := Buf.get qoa_quant_tab (clamped + 8) in
  let dequantized := dequant scalefactor quantized in
  let reconstructed := qoa_clamp (s32 (predicted + dequantized)) (-32768) 32767 in
  let error := sample - reconstructed in
  let current_error := u64 (current_error + u64 (error * error)) in
  if current_error >? best_error then ((l, slice, current_error), true)
  else
    ((qoa_lms_update l reconstructed dequantized,
      Z.lor (u64 (Z.shiftl slice 3)) quantized,
      current_error), false).

(** One pass over the samples [slice_start, slice_start + channels, ...] of a
    slice with a fixed [scalefactor], starting from [l]; the pass is left
    as soon as the error exceeds [best_error].  Yields the LMS state, the
    slice word and the error when the pass ends. *)
Definition qoa_encode_slice_pass (sample_data : list Z) (sbase : Z)
    (slice_start slice_end channels_ : Z) (scalefactor best_error : Z)
    (l : qoa_lms_t) : qoa_lms_t * Z * Z :=
  for_range_break slice_start slice_end channels_
    (qoa_encode_sample sample_data sbase scalefactor best_error)
    (l, scalefactor, 0).

(** One round of the scalefactor search on [(best_error, best_slice, best_lms)]. *)
Definition qoa_encode_slice_try (sample_data : list Z) (sbase : Z)
    (slice_start slice_end channels_ : Z) (l : qoa_lms_t)
    (scalefactor : Z) (best : Z * Z * qoa_lms_t) : Z * Z * qoa_lms_t :=
  let '(best_error, best_slice, best_lms) := best in
  let '(l', slice, current_error) :=
    qoa_encode_slice_pass sample_data sbase slice_start slice_end channels_
      scalefactor best_error l in
  if current_error <? best_error then (current_error, slice, l')
  else (best_error, best_slice, best_lms).

(** The brute force search for the best scalefactor of one slice.
    [best_slice] and [best_lms] are not initialised in C; they start here
    as 0 and [l]. *)
Definition qoa_encode_slice_search (sample_data : list Z) (sbase : Z)
    (slice_start slice_end channels_ : Z) (l : qoa_lms_t) : Z * Z * qoa_lms_t :=
  for_range 0 16 1
    (qoa_encode_slice_try sample_data sbase slice_start slice_end channels_ l)
    (U64_MAX, 0, l).

(** The loop of the frame encoder that writes the LMS state of every
    channel; the state of the loop is the output and the cursor. *)
Definition qoa_encode_frame_lms (qoa : qoa_desc) (base : Z) (channels_ : Z)
    (st : list Z * Z) : list Z * Z :=
  for_range 0 channels_ 1
    (fun c '(bytes, p) =>
       let '(history_w, weights_w) := qoa_encode_lms (lms_get qoa c) in
       let '(bytes, p) := qoa_write_u64 history_w bytes base p in
       qoa_write_u64 weights_w bytes base p)
    st.

(** The body of the loop over the channels: the slice of channel [c] that
    starts at sample [sample_index] is encoded and written.  The state is
    the descriptor, the output and the cursor. *)
Definition qoa_encode_slice (sample_data : list Z) (sbase : Z)
    (channels_ frame_len : Z) (base : Z) (sample_index c : Z)
    (st : qoa_desc * list Z * Z) : qoa_desc * list Z * Z :=
  let '(qoa, bytes, p) := st in
  let slice_len := qoa_clamp QOA_SLICE_LEN 0 (frame_len - sample_index) in
  let slice_start := sample_index * channels_ + c in
  let slice_end := (sample_index + slice_len) * channels_ + c in
  let '(best_error, best_slice, best_lms) :=
    qoa_encode_slice_search sample_data sbase slice_start slice_end
      channels_ (lms_get qoa c) in
  let qoa := lms_set qoa c best_lms in
  let best_slice := u64 (Z.shiftl best_slice ((QOA_SLICE_LEN - slice_len) * 3)) in
  let '(bytes, p) := qoa_write_u64 best_slice bytes base p in
  (qoa, bytes, p).

(** The loop over all slices of all channels of a frame. *)
Definition qoa_encode_slices (sample_data : list Z) (sbase : Z)
    (channels_ frame_len : Z) (base : Z) (st : qoa_desc * list Z * Z)
  : qoa_desc * list Z * Z :=
  for_range 0 frame_len QOA_SLICE_LEN
    (fun sample_index st =>
       for_range 0 channels_ 1
         (qoa_encode_slice sample_data sbase channels_ frame_len base sample_index) st)
    st.

(** [sample_data], [sbase]: the input and where this frame's samples start;
    [bytes], [base]: the output and where this frame starts.
    Result: the return value, the descriptor and the output. *)
Definition qoa_encode_frame (sample_data : list Z) (sbase : Z) (qoa : qoa_desc)
    (frame_len : Z) (bytes : list Z) (base : Z) : Z * qoa_desc * list Z :=
  let channels_ := channels qoa in
  let p := 0 in
  let slices := u32 (frame_len + QOA_SLICE_LEN - 1) / QOA_SLICE_LEN in
  let frame_size := u32 (QOA_FRAME_SIZE channels_ slices) in
  let '(bytes, p) :=
    qoa_write_u64 (frame_header_word qoa frame_len frame_size) bytes base p in
  let '(bytes, p) := qoa_encode_frame_lms qoa base channels_ (bytes, p) in
  let '(qoa, bytes, p) :=
    qoa_encode_slices sample_data sbase channels_ frame_len base (qoa, bytes, p) in
  (p, qoa, bytes).

(** The initial LMS state that [qoa_encode] gives to every channel. *)
Definition qoa_encode_init_lms (qoa : qoa_desc) : qoa_desc :=
  for_range 0 (channels qoa) 1
    (fun c qoa =>
       let l := lms_get qoa c in
       let l := Lms (history l) (set4 (weights l) 0 0) in
       let l := Lms (history l) (set4 (weights l) 1 0) in
       let l := Lms (history l) (set4 (weights l) 2 (- (Z.shiftl 1 13))) in
       let l := Lms (history l) (set4 (weights l) 3 (Z.shiftl 1 14)) in
       let l :=
         for_range 0 QOA_LMS_LEN 1
           (fun i l => Lms (set4 (history l) i 0) (weights l)) l in
       lms_set qoa c l)
    qoa.

(** The frame loop of [qoa_encode], with the cursor [p] and the [int]
    counter [sample_index]; every round encodes at least one sample, so
    [samples] rounds always suffice. *)
Fixpoint qoa_encode_frames (fuel : nat) (sample_data : list Z) (qoa : qoa_desc)
    (bytes : list Z) (sample_index p : Z) : Z * qoa_desc * list Z :=
  match fuel with
  | O => (p, qoa, bytes)
  | S fuel' =>
      if u32 sample_index <? samples qoa then
        let frame_len :=
          qoa_clamp QOA_FRAME_LEN 0 (s32 (u32 (samples qoa - sample_index))) in
        let frame_samples := u32 (u32 sample_index * channels qoa) in
        let '(frame_size, qoa, bytes) :=
          qoa_encode_frame sample_data frame_samples qoa (u32 frame_len) bytes p in
        let p := u32 (p + frame_size) in
        qoa_encode_frames fuel' sample_data qoa bytes (s32 (sample_index + frame_len)) p
      else (p, qoa, bytes)
  end.

(** [None] is the [NULL] return; otherwise the output buffer, [*out_len] and
    the descriptor as the encoder leaves it. *)
Definition qoa_encode (sample_data : list Z) (qoa : qoa_desc)
  : option (list Z * Z * qoa_desc) :=
  if (samples qoa =? 0)
     || (samplerate qoa =? 0) || (samplerate qoa >? 0xffffff)
     || (channels qoa =? 0) || (channels qoa >? QOA_MAX_CHANNELS)
  then None else
  let num_frames := u32 (samples qoa + QOA_FRAME_LEN - 1) / QOA_FRAME_LEN in
  let num_slices := u32 (samples qoa + QOA_SLICE_LEN - 1) / QOA_SLICE_LEN in
  let encoded_size :=
    u32 (8 + num_frames * 8
           + num_frames * QOA_LMS_LEN * 4 * channels qoa
           + num_slices * 8 * channels qoa) in
  let bytes := repeat 0 (Z.to_nat encoded_size) in
  let qoa := qoa_encode_init_lms qoa in
  let '(bytes, p) := qoa_encode_header qoa bytes in
  let '(p, qoa, bytes) :=
    qoa_encode_frames (Z.to_nat (samples qoa)) sample_data qoa bytes 0 p in
  Some (bytes, p, qoa).

(** ** read.c and write.c: the samples between R and the codec *)

(** The loop of [qoaRead_] that copies the decoded samples, which follow
    each other channel by channel for every point in time, into the matrix
    handed to R, which holds one column per channel.  The state of the
    loops is [sampleCounter] and the matrix. *)
Definition qoaRead_matrix (qoa : qoa_desc) (sample_data samples_ : list Z) : list Z :=
  snd (for_range 0 (samples qoa) 1
         (fun i st =>
            for_range 0 (channels qoa) 1
              (fun j '(sampleCounter, samples_) =>
                 (s32 (sampleCounter + 1),
                  Buf.set samples_ (u32 (i + u32 (j * samples qoa)))
                    (Buf.get sample_data sampleCounter)))
              st)
         (0, samples_)).

(** The loop of [qoaWrite_] that turns the matrix of R into the stream of
    samples for [qoa_encode], every value converted to [short]. *)
Definition qoaWrite_stream (qoa : qoa_desc) (sample_data sample_values : list Z)
  : list Z :=
  snd (for_range 0 (samples qoa) 1
         (fun i st =>
            for_range 0 (channels qoa) 1
              (fun j '(sampleCounter, sample_values) =>
                 (s32 (sampleCounter + 1),
                  Buf.set sample_values sampleCounter
                    (s16 (Buf.get sample_data (u32 (i + u32 (j * samples qoa)))))))
              st)
         (0, sample_values)).

(** ** Predicates of the statements *)

(** The conditions on which the frame decoder gives up, for a frame that
    starts at [bytes[base]] with [size] bytes left. *)
Definition frame_rejected (bytes : list Z) (base size : Z) (qoa : qoa_desc) : Prop :=
  let frame_header := be64_get bytes base in
  size < 8 + 16 * channels qoa
  \/ fh_channels frame_header <> channels qoa
  \/ fh_samplerate frame_header <> samplerate qoa
  \/ fh_frame_size frame_header > size
  \/ fh_samples frame_header * fh_channels frame_header
     > Z.quot (fh_frame_size frame_header - 8 - 16 * fh_channels frame_header) 8 * 20.

(** Every element of the history of [l] is a 16-bit value. *)
Definition hist_ok (l : qoa_lms_t) : Prop :=
  is_short (a0 (history l)) /\ is_short (a1 (history l)) /\
  is_short (a2 (history l)) /\ is_short (a3 (history l)).

(** The conditions on which [qoa_decode_header] gives up. *)
Definition header_malformed (bytes : list Z) (size : Z) : Prop :=
  size < QOA_MIN_FILESIZE
  \/ Z.shiftr (be64_get bytes 0) 32 <> QOA_MAGIC
  \/ Z.land (be64_get bytes 0) 0xffffffff = 0
  \/ fh_channels (be64_get bytes 8) = 0
  \/ fh_samplerate (be64_get bytes 8) = 0.

(** The states [(qoa, sample_data, p, sample_index)] that the frame loop of
    [qoa_decode] goes through: from a state it moves on when the frame at
    [p] is decoded inside the arrays (a nonzero return) and samples are
    still missing. *)
Inductive decode_reaches (bytes : list Z) (size : Z)
  : qoa_desc * list Z * Z * Z -> qoa_desc * list Z * Z * Z -> Prop :=
| reaches_here : forall s, decode_reaches bytes size s s
| reaches_next : forall qoa sample_data p sample_index
                        frame_size frame_len qoa' sample_data' s,
    qoa_decode_frame bytes p (u32 (size - p)) qoa sample_data
      (u32 (sample_index * channels qoa))
      = (frame_size, frame_len, qoa', sample_data') ->
    frame_in_bounds bytes p (u32 (size - p)) qoa sample_data
      (u32 (sample_index * channels qoa)) frame_size frame_len = true ->
    frame_size <> 0 ->
    u32 (sample_index + frame_len) < samples qoa' ->
    decode_reaches bytes size
      (qoa', sample_data', u32 (p + frame_size), u32 (sample_index + frame_len)) s ->
    decode_reaches bytes size (qoa, sample_data, p, sample_index) s.

(** The pass of the scalefactor search that cannot be left early: its
    threshold is the largest 64-bit value.  Its error is the total squared
    error of the slice encoded with [scalefactor]. *)
Definition full_pass (sample_data : list Z) (sbase : Z)
    (slice_start slice_end channels_ : Z) (l : qoa_lms_t) (scalefactor : Z)
  : qoa_lms_t * Z * Z :=
  qoa_encode_slice_pass sample_data sbase slice_start slice_end channels_
    scalefactor U64_MAX l.

(** [best] is what the full pass of scalefactor [k] yields, where [k] is the
    lowest scalefactor with the least total error among those below [n]. *)
Definition best_upto (sample_data : list Z) (sbase : Z)
    (slice_start slice_end channels_ : Z) (l : qoa_lms_t)
    (n : Z) (best : Z * Z * qoa_lms_t) : Prop :=
  let full := full_pass sample_data sbase slice_start slice_end channels_ l in
  exists k, 0 <= k < n
    /\ best = (snd (full k), snd (fst (full k)), fst (fst (full k)))
    /\ (forall j, 0 <= j < n -> snd (full k) <= snd (full j))
    /\ (forall j, 0 <= j < k -> snd (full k) < snd (full j)).

(** [b'] has the size of [b] and the same content below index [n]. *)
Definition same_below (n : Z) (b b' : list Z) : Prop :=
  length b' = length b /\ forall i, i < n -> Buf.get b' i = Buf.get b i.

(** The bytes that [n] samples per channel take in the frames of a file:
    a header and the LMS states for every frame, and the slices. *)
Definition frames_size (channels_ n : Z) : Z :=
  (n + QOA_FRAME_LEN - 1) / QOA_FRAME_LEN * (8 + 16 * channels_)
  + (n + QOA_SLICE_LEN - 1) / QOA_SLICE_LEN * 8 * channels_.

(** The size of the file as [qoa_encode] computes it, before it is taken
    modulo 2^32. *)
Definition encoded_size (qoa : qoa_desc) : Z :=
  let num_frames := (samples qoa + 5120 - 1) / 5120 in
  let num_slices := (samples qoa + 20 - 1) / 20 in
  8 + num_frames * 8 + num_frames * 16 * channels qoa + num_slices * 8 * channels qoa.

(** The descriptors that [qoa_encode] accepts. *)
Definition valid_desc (qoa : qoa_desc) : Prop :=
  1 <= channels qoa <= 8 /\ 1 <= samplerate qoa <= 16777215 /\
  0 < samples qoa < 2 ^ 32.

(** The history of every channel below [n] is made of 16-bit values. *)
Definition hist_ok_below (n : Z) (qoa : qoa_desc) : Prop :=
  forall c, 0 <= c < n -> hist_ok (lms_get qoa c).

(** [q'] differs from [q] in the LMS states only. *)
Definition same_fields (q q' : qoa_desc) : Prop :=
  channels q' = channels q /\ samplerate q' = samplerate q /\
  samples q' = samples q /\ length (lms q') = length (lms q).

(** Every cell of [sd'] either is as in [sd] or holds a 16-bit value. *)
Definition kept_or_short (sd sd' : list Z) : Prop :=
  length sd' = length sd /\
  forall i, Buf.get sd' i = Buf.get sd i \/ is_short (Buf.get sd' i).

(** The product and the rounding term of [qoa_div] stay within [int]. *)
Definition div_fits (v scalefactor : Z) : Prop :=
  INT_MIN <= v * Buf.get qoa_reciprocal_tab scalefactor /\
  v * Buf.get qoa_reciprocal_tab scalefactor + 2 ^ 15 <= INT_MAX.

(** ** Test data *)

Definition lms0 : qoa_lms_t := Lms (Arr4 0 0 0 0) (Arr4 0 0 (-8192) 16384).
Definition desc0 (ch sr n : Z) : qoa_desc := Desc ch sr n (repeat lms_zero 8).


(** Twenty samples that end in a steep ramp, and a twenty-first far below
    what the predictor expects after them. *)
Definition ramp20 : list Z :=
  [0; 0; 0; 0; 0; 0; 0; 0; 0; 0; 0; 0; 0; 0; 0; 0; 0; 10000; 20000; 30000].
Definition ramp21 : list Z := ramp20 ++ [-28306].

(** Twenty samples of a slow wave. *)
Definition wave20 : list Z :=
  [0; 100; 200; 300; 400; 500; 600; 700; 800; 900;
   1000; 900; 800; 700; 600; 500; 400; 300; 200; 100].

(** A file of 16 bytes: the file header (4 samples) and a frame header
    (1 channel, 8000 Hz, 4 samples, 32 bytes) whose frame is missing. *)
Definition bytes16 : list Z :=
  [0x71; 0x6f; 0x61; 0x66; 0; 0; 0; 4;   1; 0; 0x1f; 0x40; 0; 4; 0; 32].

(** A frame of 40 bytes for one channel and 20 samples: header, LMS state,
    the slice of the samples, and one slice more than the samples need. *)
Definition frame40 : list Z :=
  [1; 0; 0x1f; 0x40; 0; 20; 0; 40;
   0; 0; 0; 0; 0; 0; 0; 0;   0; 0; 0; 0; 0xe0; 0; 0x40; 0;
   0x20; 0x91; 0x20; 0x82; 0x0f; 0xa8; 0x80; 0x09;
   0; 0; 0; 0; 0; 0; 0; 0].

(** A frame of 48 bytes for two channels and one sample: header, the LMS
    states, and a single slice where the two channels need one each. *)
Definition frame48 : list Z :=
  [2; 0; 0x1f; 0x40; 0; 1; 0; 48] ++ repeat 0 40.

(** A file that announces one sample and holds [frame40], a frame of
    twenty. *)
Definition file48 : list Z :=
  [0x71; 0x6f; 0x61; 0x66; 0; 0; 0; 1] ++ frame40.

(** A file that announces forty samples and holds [frame40] alone. *)
Definition file48_of_40 : list Z :=
  [0x71; 0x6f; 0x61; 0x66; 0; 0; 0; 40] ++ frame40.



(** ** Predicates of the further properties *)

(** [b'] has the size of [b] and the same content outside [lo, hi). *)
Definition same_outside (lo hi : Z) (b b' : list Z) : Prop :=
  length b' = length b /\
  forall i, i < lo \/ hi <= i -> Buf.get b' i = Buf.get b i.

(** Every element of the history and of the weights of [l] is a 16-bit
    value. *)
Definition lms_16bit (l : qoa_lms_t) : Prop :=
  hist_ok l /\
  is_short (a0 (weights l)) /\ is_short (a1 (weights l)) /\
  is_short (a2 (weights l)) /\ is_short (a3 (weights l)).

(** [l] with every element converted to [short]. *)
Definition lms_to_short (l : qoa_lms_t) : qoa_lms_t :=
  Lms (Arr4 (s16 (a0 (history l))) (s16 (a1 (history l)))
            (s16 (a2 (history l))) (s16 (a3 (history l))))
      (Arr4 (s16 (a0 (weights l))) (s16 (a1 (weights l)))
            (s16 (a2 (weights l))) (s16 (a3 (weights l)))).

(** Two states of the frame encoder over buffers of [n] bytes: they agree
    on the descriptor, on the cursor, and on the bytes from [base], where
    the frame starts, to the cursor. *)
Definition frames_agree (base : Z) (n : nat)
    (s s' : qoa_desc * list Z * Z) : Prop :=
  fst (fst s') = fst (fst s) /\ snd s' = snd s /\
  length (snd (fst s)) = n /\ length (snd (fst s')) = n /\
  forall j, base <= j < base + snd s ->
    Buf.get (snd (fst s)) j = Buf.get (snd (fst s')) j.

(** The squared differences between [n] cells of [a] and of [b], summed:
    the cells [si], [si + step], ... counted from [abase] in [a] and from
    [bbase] in [b]. *)
Fixpoint squared_error (a : list Z) (abase : Z) (b : list Z) (bbase : Z)
    (si step : Z) (n : nat) : Z :=
  match n with
  | O => 0
  | S n' =>
      let error := Buf.get a (abase + si) - Buf.get b (bbase + si) in
      error * error + squared_error a abase b bbase (si + step) step n'
  end.

(** * Properties *)

(** ** Machine integers *)

Lemma u32_small z : 0 <= z < 2 ^ 32 -> u32 z = z.
Proof. intros; unfold u32; apply Z.mod_small; lia. Qed.

Lemma u64_small z : 0 <= z < 2 ^ 64 -> u64 z = z.
Proof. intros; unfold u64; apply Z.mod_small; lia. Qed.

Lemma s32_small z : - 2 ^ 31 <= z < 2 ^ 31 -> s32 z = z.
Proof. intros; unfold s32; rewrite Z.mod_small; lia. Qed.

Lemma s16_small z : - 2 ^ 15 <= z < 2 ^ 15 -> s16 z = z.
Proof. intros; unfold s16; rewrite Z.mod_small; lia. Qed.

Lemma u32_range z : 0 <= u32 z < 2 ^ 32.
Proof. unfold u32; apply Z.mod_pos_bound; lia. Qed.

Lemma u64_range z : 0 <= u64 z < 2 ^ 64.
Proof. unfold u64; apply Z.mod_pos_bound; lia. Qed.

Lemma s32_range z : - 2 ^ 31 <= s32 z < 2 ^ 31.
Proof. unfold s32; pose proof (Z.mod_pos_bound (z + 2 ^ 31) (2 ^ 32)); lia. Qed.

Lemma s16_range z : is_short (s16 z).
Proof.
  unfold s16, is_short; pose proof (Z.mod_pos_bound (z + 2 ^ 15) (2 ^ 16)); lia.
Qed.

Lemma is_shortb_spec z : is_shortb z = true <-> is_short z.
Proof. unfold is_shortb, is_short; rewrite andb_true_iff; lia. Qed.

Lemma is_byteb_spec z : is_byteb z = true <-> is_byte z.
Proof. unfold is_byteb, is_byte; rewrite andb_true_iff; lia. Qed.

(** ** Loops *)

Lemma for_fuel_more {St} (body : Z -> St -> St) hi step :
  0 < step ->
  forall fuel k i s,
    hi - i <= Z.of_nat fuel ->
    for_fuel (fuel + k) i hi step body s = for_fuel fuel i hi step body s.
Proof.
  intros Hstep; induction fuel as [|fuel IH]; intros k i s Hf.
  - destruct k; simpl; [reflexivity|].
    destruct (Z.ltb_spec i hi); [lia|reflexivity].
  - simpl. destruct (Z.ltb_spec i hi); [|reflexivity].
    apply IH; lia.
Qed.

(** [for_range] is the loop: it runs the body while the counter is below
    [hi], whatever the number of rounds. *)
Lemma for_range_unroll {St} (body : Z -> St -> St) lo hi step s :
  0 < step ->
  for_range lo hi step body s =
  if lo <? hi then for_range (lo + step) hi step body (body lo s) else s.
Proof.
  intros Hstep; unfold for_range.
  destruct (Z.ltb_spec lo hi) as [Hlt|Hge].
  - destruct (Z.to_nat (hi - lo)) as [|n] eqn:E; [lia|].
    simpl. destruct (Z.ltb_spec lo hi); [|lia].
    replace n with (Z.to_nat (hi - (lo + step)) + (n - Z.to_nat (hi - (lo + step))))%nat
      by lia.
    apply for_fuel_more; [assumption|lia].
  - replace (Z.to_nat (hi - lo)) with 0%nat by lia. reflexivity.
Qed.

Lemma for_range_done {St} (body : Z -> St -> St) lo hi step s :
  hi <= lo -> for_range lo hi step body s = s.
Proof.
  intros; unfold for_range. replace (Z.to_nat (hi - lo)) with 0%nat by lia.
  reflexivity.
Qed.

(** The invariant rule of the loop. *)
Lemma for_range_rule {St} (P : Z -> St -> Prop) (Q : St -> Prop)
    (body : Z -> St -> St) lo hi step s :
  0 < step ->
  P lo s ->
  (forall i s, i < hi -> P i s -> P (i + step) (body i s)) ->
  (forall i s, hi <= i -> P i s -> Q s) ->
  Q (for_range lo hi step body s).
Proof.
  intros Hstep H0 Hbody Hexit. unfold for_range.
  remember (Z.to_nat (hi - lo)) as fuel eqn:E.
  assert (Hf : hi - lo <= Z.of_nat fuel) by lia. clear E.
  revert lo s H0 Hf. induction fuel as [|fuel IH]; intros lo s H0 Hf; simpl.
  - apply (Hexit lo); [lia|assumption].
  - destruct (Z.ltb_spec lo hi).
    + apply IH; [apply Hbody; assumption|lia].
    + apply (Hexit lo); assumption.
Qed.

Lemma for_fuel_break_more {St} (body : Z -> St -> St * bool) hi step :
  0 < step ->
  forall fuel k i s,
    hi - i <= Z.of_nat fuel ->
    for_fuel_break (fuel + k) i hi step body s = for_fuel_break fuel i hi step body s.
Proof.
  intros Hstep; induction fuel as [|fuel IH]; intros k i s Hf.
  - destruct k; simpl; [reflexivity|].
    destruct (Z.ltb_spec i hi); [lia|reflexivity].
  - simpl. destruct (Z.ltb_spec i hi); [|reflexivity].
    destruct (body i s) as [s' [|]]; [reflexivity|].
    apply IH; lia.
Qed.

Lemma for_range_break_unroll {St} (body : Z -> St -> St * bool) lo hi step s :
  0 < step ->
  for_range_break lo hi step body s =
  if lo <? hi then
    let '(s', brk) := body lo s in
    if brk then s' else for_range_break (lo + step) hi step body s'
  else s.
Proof.
  intros Hstep; unfold for_range_break.
  destruct (Z.ltb_spec lo hi) as [Hlt|Hge].
  - destruct (Z.to_nat (hi - lo)) as [|n] eqn:E; [lia|].
    simpl. destruct (Z.ltb_spec lo hi); [|lia].
    destruct (body lo s) as [s' [|]]; [reflexivity|].
    replace n with (Z.to_nat (hi - (lo + step)) + (n - Z.to_nat (hi - (lo + step))))%nat
      by lia.
    apply for_fuel_break_more; [assumption|lia].
  - replace (Z.to_nat (hi - lo)) with 0%nat by lia. reflexivity.
Qed.

(** ** Buffers *)

Lemma set_nat_length {A} (l : list A) n v : length (Buf.set_nat l n v) = length l.
Proof.
  revert n; induction l as [|h t IH]; intros [|n]; simpl; auto.
Qed.

Lemma set_length {A} (l : list A) i v : length (Buf.set l i v) = length l.
Proof. unfold Buf.set; destruct (i <? 0); [reflexivity|apply set_nat_length]. Qed.

Lemma nth_set_nat_same {A} (l : list A) n v d :
  (n < length l)%nat -> nth n (Buf.set_nat l n v) d = v.
Proof.
  revert n; induction l as [|h t IH]; intros [|n] H; simpl in *; try lia; auto.
  apply IH; lia.
Qed.

Lemma nth_set_nat_other {A} (l : list A) n m v d :
  n <> m -> nth m (Buf.set_nat l n v) d = nth m l d.
Proof.
  revert n m; induction l as [|h t IH]; intros [|n] [|m] H; simpl; auto; try lia.
Qed.

Lemma get_set_same l i v :
  0 <= i < Z.of_nat (length l) -> Buf.get (Buf.set l i v) i = v.
Proof.
  intros H; unfold Buf.get, Buf.set.
  destruct (Z.ltb_spec i 0); [lia|]. apply nth_set_nat_same; lia.
Qed.

Lemma get_set_other l i j v : i <> j -> Buf.get (Buf.set l i v) j = Buf.get l j.
Proof.
  intros H; unfold Buf.get, Buf.set.
  destruct (Z.ltb_spec j 0); [reflexivity|].
  destruct (Z.ltb_spec i 0); [reflexivity|].
  apply nth_set_nat_other; lia.
Qed.

Lemma get_outside l i : Z.of_nat (length l) <= i -> Buf.get l i = 0.
Proof.
  intros H; unfold Buf.get. destruct (Z.ltb_spec i 0); [reflexivity|].
  apply nth_overflow; lia.
Qed.

Lemma lms_get_set_same qoa c v :
  0 <= c < Z.of_nat (length (lms qoa)) -> lms_get (lms_set qoa c v) c = v.
Proof.
  intros H; unfold lms_get, lms_set, Buf.set; simpl.
  destruct (Z.ltb_spec c 0); [lia|]. apply nth_set_nat_same; lia.
Qed.

Lemma lms_get_set_other qoa c c' v :
  c <> c' -> lms_get (lms_set qoa c v) c' = lms_get qoa c'.
Proof.
  intros H; unfold lms_get, lms_set, Buf.set; simpl.
  destruct (Z.ltb_spec c' 0); [reflexivity|].
  destruct (Z.ltb_spec c 0); [reflexivity|].
  apply nth_set_nat_other; lia.
Qed.

Lemma lms_set_length qoa c v : length (lms (lms_set qoa c v)) = length (lms qoa).
Proof. unfold lms_set; simpl; apply set_length. Qed.

(** ** The clamp *)

Lemma qoa_clamp_range v lo hi : lo <= hi -> lo <= qoa_clamp v lo hi <= hi.
Proof.
  intros; unfold qoa_clamp.
  destruct (Z.ltb_spec v lo); [lia|]. destruct (Z.gtb_spec v hi); lia.
Qed.

Lemma qoa_clamp_min v n : 0 <= n -> 0 <= v -> qoa_clamp v 0 n = Z.min v n.
Proof.
  intros; unfold qoa_clamp.
  destruct (Z.ltb_spec v 0); [lia|]. destruct (Z.gtb_spec v n); lia.
Qed.

(** ** The LMS predictor *)

Lemma qoa_lms_predict_eq l :
  qoa_lms_predict l =
  Z.shiftr
    (s32 (s32 (s32 (s32 (0 + s32 (a0 (weights l) * a0 (history l)))
                    + s32 (a1 (weights l) * a1 (history l)))
               + s32 (a2 (weights l) * a2 (history l)))
          + s32 (a3 (weights l) * a3 (history l)))) 13.
Proof. reflexivity. Qed.

Lemma qoa_lms_update_eq l sample residual :
  qoa_lms_update l sample residual =
  let delta := Z.shiftr residual 4 in
  let adj h := if h <? 0 then s32 (- delta) else delta in
  Lms (Arr4 (a1 (history l)) (a2 (history l)) (a3 (history l)) sample)
      (Arr4 (s32 (a0 (weights l) + adj (a0 (history l))))
            (s32 (a1 (weights l) + adj (a1 (history l))))
            (s32 (a2 (weights l) + adj (a2 (history l))))
            (s32 (a3 (weights l) + adj (a3 (history l))))).
Proof. destruct l as [[h0 h1 h2 h3] [w0 w1 w2 w3]]; reflexivity. Qed.

Lemma qoa_lms_predict_range l : - 2 ^ 18 <= qoa_lms_predict l < 2 ^ 18.
Proof.
  rewrite qoa_lms_predict_eq.
  match goal with |- _ <= Z.shiftr (s32 ?x) _ < _ => pose proof (s32_range x) as H; set (y := s32 x) in * end.
  rewrite Z.shiftr_div_pow2 by lia.
  change (2 ^ 13) with 8192. change (2 ^ 18) with 262144. change (2 ^ 31) with 2147483648 in H.
  split.
  - apply Z.div_le_lower_bound; lia.
  - apply Z.div_lt_upper_bound; lia.
Qed.

Lemma encode_init_lms_body l :
  (let l := Lms (history l) (set4 (weights l) 0 0) in
   let l := Lms (history l) (set4 (weights l) 1 0) in
   let l := Lms (history l) (set4 (weights l) 2 (- (Z.shiftl 1 13))) in
   let l := Lms (history l) (set4 (weights l) 3 (Z.shiftl 1 14)) in
   for_range 0 QOA_LMS_LEN 1
     (fun i l => Lms (set4 (history l) i 0) (weights l)) l) = lms0.
Proof. destruct l as [[h0 h1 h2 h3] [w0 w1 w2 w3]]; reflexivity. Qed.

Lemma encode_init_lms_inv qoa :
  let q := qoa_encode_init_lms qoa in
  channels q = channels qoa /\ samplerate q = samplerate qoa /\
  samples q = samples qoa /\ length (lms q) = length (lms qoa) /\
  forall c, 0 <= c < channels qoa -> c < Z.of_nat (length (lms qoa)) ->
            lms_get q c = lms0.
Proof.
  unfold qoa_encode_init_lms.
  apply (for_range_rule
    (fun i q =>
       0 <= i /\
       channels q = channels qoa /\ samplerate q = samplerate qoa /\
       samples q = samples qoa /\ length (lms q) = length (lms qoa) /\
       forall c, 0 <= c < i -> c < Z.of_nat (length (lms qoa)) -> lms_get q c = lms0)).
  - lia.
  - repeat split; try reflexivity; try lia.
  - intros i q Hi (Hi0 & Hc & Hr & Hs & Hl & Hall).
    rewrite encode_init_lms_body.
    repeat split; try assumption; try lia.
    + rewrite lms_set_length; assumption.
    + intros c Hc1 Hc2. destruct (Z.eq_dec c i) as [->|Hne].
      * apply lms_get_set_same; lia.
      * rewrite lms_get_set_other by lia. apply Hall; lia.
  - intros i q Hi (Hi0 & Hc & Hr & Hs & Hl & Hall).
    repeat split; try assumption.
    intros c Hc1 Hc2. apply Hall; lia.
Qed.

(** C8: at the start of [qoa_encode] every channel of a valid descriptor gets
    the LMS state weights = {0, 0, -8192, 16384}, history = {0, 0, 0, 0},
    and [qoa_lms_predict] yields 0 on that state. *)
Theorem qoa_encode_initial_lms :
  forall qoa c,
    channels qoa <= QOA_MAX_CHANNELS ->
    length (lms qoa) = 8%nat ->
    0 <= c < channels qoa ->
    lms_get (qoa_encode_init_lms qoa) c
      = Lms (Arr4 0 0 0 0) (Arr4 0 0 (-8192) 16384)
    /\ qoa_lms_predict (lms_get (qoa_encode_init_lms qoa) c) = 0.
Proof.
  intros qoa c Hmax Hlen Hc.
  destruct (encode_init_lms_inv qoa) as (_ & _ & _ & _ & Hall).
  assert (E : lms_get (qoa_encode_init_lms qoa) c = lms0).
  { apply Hall; [assumption|]. rewrite Hlen. unfold QOA_MAX_CHANNELS in Hmax. lia. }
  rewrite E. split; reflexivity.
Qed.

Lemma qoa_encode_initial_lms_witness :
  lms_get (qoa_encode_init_lms (desc0 2 44100 100)) 1
    = Lms (Arr4 0 0 0 0) (Arr4 0 0 (-8192) 16384)
  /\ qoa_lms_predict (lms_get (qoa_encode_init_lms (desc0 2 44100 100)) 1) = 0.
Proof.
  apply (qoa_encode_initial_lms (desc0 2 44100 100) 1).
  - unfold QOA_MAX_CHANNELS; simpl; lia.
  - reflexivity.
  - simpl; lia.
Defined.

(** ** The rounding division *)

Lemma qoa_div_eq v s :
  qoa_div v s =
  let n := Z.shiftr (s32 (s32 (v * Buf.get qoa_reciprocal_tab s) + 32768)) 16 in
  s32 (s32 (n + (b2z (v >? 0) - b2z (v <? 0))) - (b2z (n >? 0) - b2z (n <? 0))).
Proof. reflexivity. Qed.

Lemma reciprocal_cases s :
  0 <= s <= 15 ->
  let r := Buf.get qoa_reciprocal_tab s in 32 <= r <= 65536.
Proof.
  intros H.
  assert (C : s = 0 \/ s = 1 \/ s = 2 \/ s = 3 \/ s = 4 \/ s = 5 \/ s = 6 \/ s = 7 \/
              s = 8 \/ s = 9 \/ s = 10 \/ s = 11 \/ s = 12 \/ s = 13 \/ s = 14 \/ s = 15) by lia.
  repeat (destruct C as [->|C]; [vm_compute; split; discriminate|]).
  subst; vm_compute; split; discriminate.
Qed.

Lemma qoa_div_sign v s :
  0 <= s <= 15 -> div_fits v s ->
  (v = 0 -> qoa_div v s = 0) /\ (0 < v -> 0 < qoa_div v s) /\ (v < 0 -> qoa_div v s < 0).
Proof.
  intros Hs [H1 H2]. pose proof (reciprocal_cases s Hs) as Hr. cbv zeta in Hr.
  rewrite qoa_div_eq. set (r := Buf.get qoa_reciprocal_tab s) in *.
  unfold INT_MIN, INT_MAX in *.
  cbv zeta.
  rewrite (s32_small (v * r)) by lia.
  rewrite (s32_small (v * r + 32768)) by lia.
  rewrite Z.shiftr_div_pow2 by lia. change (2 ^ 16) with 65536.
  set (n := (v * r + 32768) / 65536).
  assert (Hn : - 2 ^ 15 <= n <= 2 ^ 15).
  { unfold n; split.
    - apply Z.div_le_lower_bound; lia.
    - apply Z.div_le_upper_bound; lia. }
  assert (Hpos : 0 < v -> 0 <= n).
  { intros; unfold n. apply Z.div_pos; nia. }
  assert (Hneg : v < 0 -> n <= 0).
  { intros; unfold n. assert (v * r + 32768 < 65536) by nia.
    assert ((v * r + 32768) / 65536 < 1) by (apply Z.div_lt_upper_bound; lia). lia. }
  assert (Hz : v = 0 -> n = 0) by (intros ->; reflexivity).
  unfold b2z.
  destruct (Z.gtb_spec v 0), (Z.ltb_spec v 0), (Z.gtb_spec n 0), (Z.ltb_spec n 0);
    try lia; rewrite (s32_small (n + _)) by lia; rewrite s32_small by lia; lia.
Qed.

Lemma div_fits_short v s : 0 <= s <= 15 -> is_short v -> div_fits v s.
Proof.
  intros Hs Hv. pose proof (reciprocal_cases s Hs) as Hr. cbv zeta in Hr.
  unfold div_fits, is_short, INT_MIN, INT_MAX in *.
  set (r := Buf.get qoa_reciprocal_tab s) in *. nia.
Qed.

(** C5 (amended): [qoa_div 0 s] is 0 for every scalefactor index, and for
    every nonzero [v] that is a 16-bit value, or more generally whose
    product with the reciprocal and the rounding term fit an [int],
    [qoa_div v s] is nonzero and has the sign of [v]. *)
Theorem qoa_div_rounds_away_from_zero :
  forall v s,
    0 <= s <= 15 ->
    qoa_div 0 s = 0 /\
    (v <> 0 -> is_short v \/ div_fits v s ->
     qoa_div v s <> 0 /\ (0 < v -> 0 < qoa_div v s) /\ (v < 0 -> qoa_div v s < 0)).
Proof.
  intros v s Hs. split.
  - apply (qoa_div_sign 0 s Hs); [|reflexivity].
    apply div_fits_short; [assumption|unfold is_short; lia].
  - intros Hv Hfit.
    assert (F : div_fits v s).
    { destruct Hfit as [Hsh|F]; [apply div_fits_short|]; assumption. }
    destruct (qoa_div_sign v s Hs F) as (_ & Hp & Hn).
    repeat split; try assumption. lia.
Qed.

Lemma qoa_div_rounds_away_from_zero_witness :
  qoa_div 0 5 = 0 /\
  (qoa_div (-1) 5 <> 0 /\ (0 < -1 -> 0 < qoa_div (-1) 5) /\ (-1 < 0 -> qoa_div (-1) 5 < 0)).
Proof.
  destruct (qoa_div_rounds_away_from_zero (-1) 5) as [H0 H1]; [lia|].
  split; [exact H0|].
  apply H1; [lia|]. left; unfold is_short; lia.
Defined.

(** C5, as stated, fails: encoding [ramp21] on one channel, the search for
    the second slice starts from the LMS state left by the first and, with
    scalefactor 0, forms the residual -65534 for the last sample; the
    product -65534 * 65536 wraps and the quotient is 0. *)
Lemma qoa_div_nonzero_residual_yields_zero :
  let '(_, _, l) := qoa_encode_slice_search ramp21 0 0 20 1 lms0 in
  s32 (Buf.get ramp21 20 - qoa_lms_predict l) = -65534 /\
  -65534 <> 0 /\
  qoa_div (-65534) 0 = 0.
Proof. vm_compute. repeat split; discriminate. Qed.

(** ** The frame decoder *)

Lemma land_mask x n : 0 <= n -> 0 <= Z.land x (Z.ones n) < 2 ^ n.
Proof. intros; rewrite Z.land_ones by assumption. apply Z.mod_pos_bound; lia. Qed.

Lemma fh_channels_range fh : 0 <= fh_channels fh <= 255.
Proof. unfold fh_channels. pose proof (land_mask (Z.shiftr fh 56) 8) as H. change (Z.ones 8) with 255 in H. lia. Qed.

Lemma fh_samplerate_range fh : 0 <= fh_samplerate fh <= 16777215.
Proof. unfold fh_samplerate. pose proof (land_mask (Z.shiftr fh 32) 24) as H. change (Z.ones 24) with 16777215 in H. lia. Qed.

Lemma fh_samples_range fh : 0 <= fh_samples fh <= 65535.
Proof. unfold fh_samples. pose proof (land_mask (Z.shiftr fh 16) 16) as H. change (Z.ones 16) with 65535 in H. lia. Qed.

Lemma fh_frame_size_range fh : 0 <= fh_frame_size fh <= 65535.
Proof. unfold fh_frame_size. pose proof (land_mask fh 16) as H. change (Z.ones 16) with 65535 in H. lia. Qed.

Lemma same_fields_refl q : same_fields q q.
Proof. repeat split. Qed.

Lemma same_fields_trans q1 q2 q3 :
  same_fields q1 q2 -> same_fields q2 q3 -> same_fields q1 q3.
Proof. unfold same_fields; intuition congruence. Qed.

Lemma same_fields_lms_set q c v : same_fields q (lms_set q c v).
Proof. repeat split; simpl. apply set_length. Qed.

Lemma kept_or_short_refl sd : kept_or_short sd sd.
Proof. split; [reflexivity|]. intros; left; reflexivity. Qed.

Lemma kept_or_short_trans sd1 sd2 sd3 :
  kept_or_short sd1 sd2 -> kept_or_short sd2 sd3 -> kept_or_short sd1 sd3.
Proof.
  intros [L1 H1] [L2 H2]; split; [congruence|].
  intros i. destruct (H2 i) as [E|S]; [|right; exact S].
  rewrite E. apply H1.
Qed.

Lemma kept_or_short_set sd i v : is_short v -> kept_or_short sd (Buf.set sd i v).
Proof.
  intros Hv; split; [apply set_length|].
  intros j. destruct (Z.eq_dec i j) as [->|Hne].
  - destruct (Z_lt_dec j 0); [|destruct (Z_lt_dec j (Z.of_nat (length sd)))].
    + left. unfold Buf.set. destruct (Z.ltb_spec j 0); [reflexivity|lia].
    + right. rewrite get_set_same by lia. exact Hv.
    + left. rewrite !get_outside; [reflexivity|lia|rewrite set_length; lia].
  - left. apply get_set_other; assumption.
Qed.

Lemma lms_get_set_cases q c v c' :
  lms_get (lms_set q c v) c' = v \/ lms_get (lms_set q c v) c' = lms_get q c'.
Proof.
  destruct (Z.eq_dec c c') as [->|Hne].
  - destruct (Z_lt_dec c' 0); [|destruct (Z_lt_dec c' (Z.of_nat (length (lms q))))].
    + right. unfold lms_get. destruct (Z.ltb_spec c' 0); [reflexivity|lia].
    + left. apply lms_get_set_same; lia.
    + right. unfold lms_get. destruct (Z.ltb_spec c' 0); [reflexivity|].
      rewrite !nth_overflow; [reflexivity|lia|rewrite lms_set_length; lia].
  - right. apply lms_get_set_other; assumption.
Qed.

Lemma lms_get_outside q c : Z.of_nat (length (lms q)) <= c -> lms_get q c = lms_zero.
Proof.
  intros; unfold lms_get. destruct (Z.ltb_spec c 0); [reflexivity|].
  apply nth_overflow; lia.
Qed.

Lemma hist_ok_zero : hist_ok lms_zero.
Proof. unfold hist_ok, is_short; simpl; lia. Qed.

(** The cell just written either holds the value or lies outside the array. *)
Lemma hist_ok_set_same q c v : hist_ok v -> hist_ok (lms_get (lms_set q c v) c).
Proof.
  intros Hv.
  destruct (Z_lt_dec c 0); [|destruct (Z_lt_dec c (Z.of_nat (length (lms q))))].
  - unfold lms_get. destruct (Z.ltb_spec c 0); [apply hist_ok_zero|lia].
  - rewrite lms_get_set_same by lia. exact Hv.
  - rewrite lms_get_outside; [apply hist_ok_zero|rewrite lms_set_length; lia].
Qed.

Lemma hist_ok_set q c v c' :
  hist_ok v -> hist_ok (lms_get q c') -> hist_ok (lms_get (lms_set q c v) c').
Proof.
  intros Hv Hq. destruct (lms_get_set_cases q c v c') as [E|E]; rewrite E; assumption.
Qed.

Lemma qoa_decode_lms_eq hw ww l :
  qoa_decode_lms hw ww l =
  let hw1 := u64 (Z.shiftl hw 16) in
  let hw2 := u64 (Z.shiftl hw1 16) in
  let hw3 := u64 (Z.shiftl hw2 16) in
  let ww1 := u64 (Z.shiftl ww 16) in
  let ww2 := u64 (Z.shiftl ww1 16) in
  let ww3 := u64 (Z.shiftl ww2 16) in
  Lms (Arr4 (s16 (Z.shiftr hw 48)) (s16 (Z.shiftr hw1 48))
            (s16 (Z.shiftr hw2 48)) (s16 (Z.shiftr hw3 48)))
      (Arr4 (s16 (Z.shiftr ww 48)) (s16 (Z.shiftr ww1 48))
            (s16 (Z.shiftr ww2 48)) (s16 (Z.shiftr ww3 48))).
Proof. destruct l as [[h0 h1 h2 h3] [w0 w1 w2 w3]]; reflexivity. Qed.

Lemma qoa_decode_lms_hist_ok hw ww l : hist_ok (qoa_decode_lms hw ww l).
Proof.
  rewrite qoa_decode_lms_eq. unfold hist_ok; cbv zeta; cbn [history a0 a1 a2 a3].
  auto using s16_range.
Qed.

Lemma qoa_lms_update_hist_ok l sample residual :
  hist_ok l -> is_short sample -> hist_ok (qoa_lms_update l sample residual).
Proof.
  intros (H0 & H1 & H2 & H3) Hs. rewrite qoa_lms_update_eq.
  unfold hist_ok; cbv zeta; cbn [history a0 a1 a2 a3]. auto.
Qed.

(** A reconstructed sample is a 16-bit value whatever the state and the
    slice, and a 16-bit history stays one. *)
Lemma qoa_decode_sample_short l scalefactor slice :
  is_short (fst (fst (qoa_decode_sample l scalefactor slice))) /\
  (hist_ok l -> hist_ok (snd (fst (qoa_decode_sample l scalefactor slice)))).
Proof.
  unfold qoa_decode_sample; cbn [fst snd].
  assert (R : forall v, is_short (qoa_clamp v (-32768) 32767)).
  { intros v. unfold is_short. apply qoa_clamp_range. lia. }
  split; [apply R|]. intros H. apply qoa_lms_update_hist_ok; [assumption|]. apply R.
Qed.

(** The value stored in a [short] cell is the reconstructed value itself. *)
Lemma qoa_decode_sample_fits_short l scalefactor slice :
  s16 (fst (fst (qoa_decode_sample l scalefactor slice)))
  = fst (fst (qoa_decode_sample l scalefactor slice)).
Proof.
  destruct (qoa_decode_sample_short l scalefactor slice) as [H _].
  unfold is_short in H. apply s16_small. lia.
Qed.

Lemma qoa_decode_frame_lms_inv bytes base ch q0 p0 :
  0 <= ch -> 0 <= p0 -> p0 + 16 * ch < 2 ^ 32 ->
  let '(q, p) := qoa_decode_frame_lms bytes base ch (q0, p0) in
  same_fields q0 q /\ p = p0 + 16 * ch /\ hist_ok_below ch q.
Proof.
  intros Hch Hp0 Hlim. unfold qoa_decode_frame_lms.
  apply (for_range_rule
    (fun i '(q, p) =>
       0 <= i <= ch /\ same_fields q0 q /\ p = p0 + 16 * i /\ hist_ok_below i q)
    (fun '(q, p) => same_fields q0 q /\ p = p0 + 16 * ch /\ hist_ok_below ch q)).
  - lia.
  - split; [lia|]. split; [apply same_fields_refl|]. split; [lia|].
    intros c Hc; lia.
  - intros i [q p] Hi (Hi0 & Hsf & Hp & Hh). unfold qoa_read_u64; cbv beta iota zeta.
    split; [lia|]. split; [|split].
    + eapply same_fields_trans; [exact Hsf|apply same_fields_lms_set].
    + rewrite (u32_small (p + 8)) by lia. rewrite u32_small by lia. lia.
    + intros c Hc. destruct (Z.eq_dec c i) as [->|Hne].
      * apply hist_ok_set_same. apply qoa_decode_lms_hist_ok.
      * apply hist_ok_set; [apply qoa_decode_lms_hist_ok|apply Hh; lia].
  - intros i [q p] Hi (Hi0 & Hsf & Hp & Hh).
    assert (i = ch) by lia. subst i. auto.
Qed.

Lemma qoa_decode_slice_inv bytes base ch n_samples sp sample_index c n q0 sd0 p0 :
  0 < ch -> 0 <= p0 -> p0 + 8 < 2 ^ 32 ->
  let '(q, sd, p) :=
    qoa_decode_slice bytes base ch n_samples sp sample_index c (q0, sd0, p0) in
  same_fields q0 q /\ kept_or_short sd0 sd /\ p = p0 + 8 /\
  (hist_ok_below n q0 -> hist_ok_below n q).
Proof.
  intros Hch Hp0 Hlim. unfold qoa_decode_slice, qoa_read_u64.
  cbv beta iota zeta.
  set (slice0 := be64_get bytes (base + p0)).
  set (sf := Z.land (Z.shiftr slice0 60) 15).
  match goal with |- context [for_range ?lo ?hi ?st ?body ?s0] =>
    set (R := for_range lo hi st body s0);
    assert (HR : (fun s => let '(q, sd, _) := s in
                    same_fields q0 q /\ kept_or_short sd0 sd /\
                    (hist_ok_below n q0 -> hist_ok_below n q)) R);
    [unfold R;
     apply (for_range_rule
       (fun (_ : Z) '(q, sd, _) =>
          same_fields q0 q /\ kept_or_short sd0 sd /\
          (hist_ok_below n q0 -> hist_ok_below n q)))|]
  end.
  - exact Hch.
  - split; [apply same_fields_refl|]. split; [apply kept_or_short_refl|]. auto.
  - intros si [[q sd] sl] Hsi (Hsf & Hks & Hh).
    destruct (qoa_decode_sample_short (lms_get q c) sf sl) as [Hr Hl].
    destruct (qoa_decode_sample (lms_get q c) sf sl) as [[r l] sl'].
    cbn [fst snd] in Hr, Hl.
    split; [eapply same_fields_trans; [exact Hsf|apply same_fields_lms_set]|].
    split; [eapply kept_or_short_trans; [exact Hks|apply kept_or_short_set; exact Hr]|].
    intros H0 c' Hc'. specialize (Hh H0).
    destruct (Z.eq_dec c c') as [->|Hne].
    + apply hist_ok_set_same. apply Hl. apply Hh; assumption.
    + rewrite lms_get_set_other by assumption. apply Hh; assumption.
  - intros si [[q sd] sl] Hsi H. exact H.
  - destruct R as [[q sd] sl]. destruct HR as (Hsf & Hks & Hh).
    rewrite u32_small by lia. auto.
Qed.

Lemma qoa_decode_slices_inv bytes base ch n_samples sp n q0 sd0 p0 :
  0 < ch -> 0 <= n_samples -> 0 <= p0 ->
  p0 + 8 * ch * ((n_samples + 19) / 20) < 2 ^ 32 ->
  let '(q, sd, p) :=
    qoa_decode_slices bytes base ch n_samples sp (q0, sd0, p0) in
  same_fields q0 q /\ kept_or_short sd0 sd /\
  p = p0 + 8 * ch * ((n_samples + 19) / 20) /\
  (hist_ok_below n q0 -> hist_ok_below n q).
Proof.
  intros Hch Hn Hp0 Hlim. unfold qoa_decode_slices, QOA_SLICE_LEN.
  apply (for_range_rule
    (fun i '(q, sd, p) =>
       0 <= i < n_samples + 20 /\ i mod 20 = 0 /\
       same_fields q0 q /\ kept_or_short sd0 sd /\
       p = p0 + 8 * ch * (i / 20) /\
       (hist_ok_below n q0 -> hist_ok_below n q))
    (fun s => let '(q, sd, p) := s in
       same_fields q0 q /\ kept_or_short sd0 sd /\
       p = p0 + 8 * ch * ((n_samples + 19) / 20) /\
       (hist_ok_below n q0 -> hist_ok_below n q))).
  - lia.
  - split; [lia|]. split; [reflexivity|].
    split; [apply same_fields_refl|]. split; [apply kept_or_short_refl|].
    split; [change (0 / 20) with 0; lia|auto].
  - intros i [[q sd] p] Hi (Hi0 & Him & Hsf & Hks & Hp & Hh).
    assert (Hdiv : (i + 20) / 20 = i / 20 + 1).
    { replace (i + 20) with (i + 1 * 20) by lia. rewrite Z.div_add by lia. reflexivity. }
    assert (Hle : i / 20 + 1 <= (n_samples + 19) / 20).
    { rewrite <- Hdiv. apply Z.div_le_mono; lia. }
    assert (Hmod : (i + 20) mod 20 = 0).
    { replace (i + 20) with (i + 1 * 20) by lia. rewrite Z.mod_add by lia. exact Him. }
    assert (Hq0 : 0 <= i / 20) by (apply Z.div_pos; lia).
    assert (Hmul : ch * (i / 20 + 1) <= ch * ((n_samples + 19) / 20))
      by (apply Z.mul_le_mono_nonneg_l; lia).
    apply (for_range_rule
      (fun c '(q', sd', p') =>
         0 <= c <= ch /\
         same_fields q0 q' /\ kept_or_short sd0 sd' /\
         p' = p + 8 * c /\
         (hist_ok_below n q0 -> hist_ok_below n q'))
      (fun s => let '(q', sd', p') := s in
         0 <= i + 20 < n_samples + 20 /\ (i + 20) mod 20 = 0 /\
         same_fields q0 q' /\ kept_or_short sd0 sd' /\
         p' = p0 + 8 * ch * ((i + 20) / 20) /\
         (hist_ok_below n q0 -> hist_ok_below n q'))).
    + lia.
    + split; [lia|]. split; [exact Hsf|]. split; [exact Hks|]. split; [lia|exact Hh].
    + intros c [[q' sd'] p'] Hc (Hc0 & Hsf' & Hks' & Hp' & Hh').
      assert (Hb : p' + 8 < 2 ^ 32) by nia.
      assert (Hb0 : 0 <= p') by nia.
      pose proof (qoa_decode_slice_inv bytes base ch n_samples sp i c n q' sd' p'
                    Hch Hb0 Hb) as HS.
      destruct (qoa_decode_slice bytes base ch n_samples sp i c (q', sd', p'))
        as [[q2 sd2] p2].
      destruct HS as (S1 & S2 & S3 & S4).
      split; [lia|]. split; [eapply same_fields_trans; eassumption|].
      split; [eapply kept_or_short_trans; eassumption|].
      split; [lia|auto].
    + intros c [[q' sd'] p'] Hc (Hc0 & Hsf' & Hks' & Hp' & Hh').
      assert (c = ch) by lia. subst c.
      split; [lia|]. split; [exact Hmod|]. split; [exact Hsf'|]. split; [exact Hks'|].
      split; [rewrite Hdiv; lia|exact Hh'].
  - intros i [[q sd] p] Hi (Hi0 & Him & Hsf & Hks & Hp & Hh).
    assert (E : i / 20 = (n_samples + 19) / 20).
    { pose proof (Z.div_mod i 20 ltac:(lia)) as D1.
      pose proof (Z.mod_pos_bound (n_samples + 19) 20 ltac:(lia)) as B2.
      pose proof (Z.div_mod (n_samples + 19) 20 ltac:(lia)) as D2.
      lia. }
    rewrite <- E. auto.
Qed.

Lemma frame_rejected_dec bytes base size qoa :
  frame_rejected bytes base size qoa \/ ~ frame_rejected bytes base size qoa.
Proof. unfold frame_rejected; cbv zeta. lia. Qed.

Lemma qoa_decode_frame_rejects bytes base size qoa sd sp :
  frame_rejected bytes base size qoa ->
  qoa_decode_frame bytes base size qoa sd sp = (0, 0, qoa, sd).
Proof.
  intros H. unfold frame_rejected in H. cbv zeta in H.
  unfold qoa_decode_frame, qoa_read_u64. rewrite Z.add_0_r. cbv beta iota zeta.
  set (fh := be64_get bytes base) in *.
  pose proof (fh_channels_range fh) as Rc.
  unfold QOA_LMS_LEN, QOA_SLICE_LEN.
  destruct (Z.ltb_spec size (u32 (8 + 4 * 4 * channels qoa))) as [L|L]; [reflexivity|].
  destruct (Z.eqb_spec (fh_channels fh) (channels qoa)) as [Ec|Ec]; [|reflexivity].
  rewrite u32_small in L by lia.
  destruct (Z.eqb_spec (fh_samplerate fh) (samplerate qoa)) as [Er|Er]; [|reflexivity].
  destruct (Z.gtb_spec (fh_frame_size fh) size) as [Gs|Gs]; [reflexivity|].
  destruct (Z.gtb_spec (fh_samples fh * fh_channels fh)
              (Z.quot (fh_frame_size fh - 8 - 4 * 4 * fh_channels fh) 8 * 20)) as [Gt|Gt];
    [reflexivity|].
  exfalso.
  replace (4 * 4 * fh_channels fh) with (16 * fh_channels fh) in Gt by lia.
  lia.
Qed.

Lemma qoa_decode_frame_accepts bytes base size qoa sd sp :
  ~ frame_rejected bytes base size qoa ->
  qoa_decode_frame bytes base size qoa sd sp =
  let fh := be64_get bytes base in
  let '(q, p) := qoa_decode_frame_lms bytes base (fh_channels fh) (qoa, 8) in
  let '(q, sd, p) :=
    qoa_decode_slices bytes base (fh_channels fh) (fh_samples fh) sp (q, sd, p) in
  (p, fh_samples fh, q, sd).
Proof.
  intros H. unfold frame_rejected in H. cbv zeta in H.
  unfold qoa_decode_frame, qoa_read_u64. rewrite Z.add_0_r. cbv beta iota zeta.
  set (fh := be64_get bytes base) in *.
  pose proof (fh_channels_range fh) as Rc.
  unfold QOA_LMS_LEN, QOA_SLICE_LEN.
  change (u32 (0 + 8)) with 8.
  destruct (Z.ltb_spec size (u32 (8 + 4 * 4 * channels qoa))) as [L|L].
  { exfalso. rewrite u32_small in L by lia. lia. }
  destruct (Z.eqb_spec (fh_channels fh) (channels qoa)) as [Ec|Ec]; [|exfalso; lia].
  destruct (Z.eqb_spec (fh_samplerate fh) (samplerate qoa)) as [Er|Er]; [|exfalso; lia].
  destruct (Z.gtb_spec (fh_frame_size fh) size) as [Gs|Gs]; [exfalso; lia|].
  destruct (Z.gtb_spec (fh_samples fh * fh_channels fh)
              (Z.quot (fh_frame_size fh - 8 - 4 * 4 * fh_channels fh) 8 * 20)) as [Gt|Gt].
  { exfalso.
    replace (4 * 4 * fh_channels fh) with (16 * fh_channels fh) in Gt by lia. lia. }
  reflexivity.
Qed.

(** What the frame decoder does with a frame it accepts. *)
Lemma qoa_decode_frame_accepted_inv bytes base size qoa sd sp :
  ~ frame_rejected bytes base size qoa ->
  let fh := be64_get bytes base in
  let '(ret, frame_len, q, sd') := qoa_decode_frame bytes base size qoa sd sp in
  ret = 8 + 16 * fh_channels fh + 8 * ((fh_samples fh + 19) / 20) * fh_channels fh /\
  frame_len = fh_samples fh /\
  same_fields qoa q /\ kept_or_short sd sd' /\
  hist_ok_below (fh_channels fh) q.
Proof.
  intros H. rewrite qoa_decode_frame_accepts by assumption. cbv zeta.
  set (fh := be64_get bytes base).
  pose proof (fh_channels_range fh) as Rc.
  pose proof (fh_samples_range fh) as Rs.
  assert (Hk : 0 <= (fh_samples fh + 19) / 20 < 3278).
  { split; [apply Z.div_pos; lia|]. apply Z.div_lt_upper_bound; lia. }
  pose proof (qoa_decode_frame_lms_inv bytes base (fh_channels fh) qoa 8
                ltac:(lia) ltac:(lia) ltac:(lia)) as HL.
  destruct (qoa_decode_frame_lms bytes base (fh_channels fh) (qoa, 8)) as [q1 p1].
  destruct HL as (L1 & L2 & L3).
  destruct (Z.eq_dec (fh_channels fh) 0) as [E0|Hne].
  - (* no channel: the loops over the channels do nothing *)
    assert (HR : qoa_decode_slices bytes base (fh_channels fh) (fh_samples fh) sp
                   (q1, sd, p1) = (q1, sd, p1)).
    { unfold qoa_decode_slices.
      apply (for_range_rule (fun (_ : Z) s => s = (q1, sd, p1))
                            (fun s => s = (q1, sd, p1))).
      - reflexivity.
      - reflexivity.
      - intros i s Hi ->. apply for_range_done. lia.
      - auto. }
    rewrite HR.
    split; [lia|]. split; [reflexivity|]. split; [exact L1|].
    split; [apply kept_or_short_refl|exact L3].
  - pose proof (qoa_decode_slices_inv bytes base (fh_channels fh) (fh_samples fh) sp
                  (fh_channels fh) q1 sd p1
                  ltac:(lia) ltac:(lia) ltac:(lia) ltac:(nia)) as HS.
    destruct (qoa_decode_slices bytes base (fh_channels fh) (fh_samples fh) sp (q1, sd, p1))
      as [[q2 sd2] p2].
    destruct HS as (S1 & S2 & S3 & S4).
    split; [lia|]. split; [reflexivity|].
    split; [eapply same_fields_trans; eassumption|]. split; [exact S2|auto].
Qed.

(** C7: the frame decoder returns 0 and sets [*frame_len] to 0, leaving the
    descriptor and the output as they were, whenever fewer than
    8 + 16*channels bytes are left, or the header's channel count or
    samplerate differ from the descriptor's, or its frame size exceeds the
    bytes left, or samples*channels exceeds 20 times the number of slices
    that fit the frame size. *)
Theorem qoa_decode_frame_rejects_malformed :
  forall bytes base size qoa sample_data sp,
    (let frame_header := fst (qoa_read_u64 bytes base 0) in
     size < 8 + 16 * channels qoa
     \/ fh_channels frame_header <> channels qoa
     \/ fh_samplerate frame_header <> samplerate qoa
     \/ fh_frame_size frame_header > size
     \/ fh_samples frame_header * fh_channels frame_header
        > Z.quot (fh_frame_size frame_header - 8 - 16 * fh_channels frame_header) 8 * 20) ->
    qoa_decode_frame bytes base size qoa sample_data sp = (0, 0, qoa, sample_data).
Proof.
  intros bytes base size qoa sd sp H.
  apply qoa_decode_frame_rejects.
  unfold frame_rejected. unfold qoa_read_u64 in H. cbn [fst] in H.
  rewrite Z.add_0_r in H. exact H.
Qed.

Lemma qoa_decode_frame_rejects_malformed_witness :
  qoa_decode_frame bytes16 8 8 (desc0 1 8000 4) [0; 0; 0; 0] 0
  = (0, 0, desc0 1 8000 4, [0; 0; 0; 0]).
Proof.
  apply (qoa_decode_frame_rejects_malformed bytes16 8 8 (desc0 1 8000 4) [0; 0; 0; 0] 0).
  left. simpl. lia.
Defined.

(** C9: for a frame that passes the checks of the frame decoder, the number
    of bytes it reports as consumed is 8 + 16*channels +
    8*ceil(samples/20)*channels with the header's channels and samples, and
    [*frame_len] is the header's samples; when the header's frame size is
    larger, the rest of the frame is not consumed, and there are such
    frames. *)
Theorem qoa_decode_frame_consumes :
  (forall bytes base size qoa sample_data sp,
     ~ frame_rejected bytes base size qoa ->
     let frame_header := fst (qoa_read_u64 bytes base 0) in
     let consumed :=
       8 + 16 * fh_channels frame_header
       + 8 * ((fh_samples frame_header + 19) / 20) * fh_channels frame_header in
     fst (fst (fst (qoa_decode_frame bytes base size qoa sample_data sp))) = consumed
     /\ snd (fst (fst (qoa_decode_frame bytes base size qoa sample_data sp)))
        = fh_samples frame_header
     /\ (consumed < fh_frame_size frame_header ->
         fst (fst (fst (qoa_decode_frame bytes base size qoa sample_data sp)))
         < fh_frame_size frame_header))
  /\ (exists bytes base size qoa sample_data sp,
        ~ frame_rejected bytes base size qoa /\
        fst (fst (fst (qoa_decode_frame bytes base size qoa sample_data sp)))
        < fh_frame_size (fst (qoa_read_u64 bytes base 0))).
Proof.
  split.
  - intros bytes base size qoa sd sp H.
    pose proof (qoa_decode_frame_accepted_inv bytes base size qoa sd sp H) as I.
    cbv zeta in I. unfold qoa_read_u64. cbn [fst]. rewrite Z.add_0_r. cbv zeta.
    destruct (qoa_decode_frame bytes base size qoa sd sp) as [[[ret fl] q] sd'].
    cbn [fst snd]. destruct I as (I1 & I2 & _). subst ret fl.
    split; [reflexivity|]. split; [reflexivity|]. auto.
  - exists frame40, 0, 40, (desc0 1 8000 20), (repeat 0 20), 0.
    split.
    + unfold frame_rejected. vm_compute. intuition discriminate.
    + vm_compute. reflexivity.
Qed.

Lemma qoa_decode_frame_consumes_witness :
  fst (fst (fst (qoa_decode_frame frame40 0 40 (desc0 1 8000 20) (repeat 0 20) 0))) = 32
  /\ snd (fst (fst (qoa_decode_frame frame40 0 40 (desc0 1 8000 20) (repeat 0 20) 0))) = 20
  /\ 32 < fh_frame_size (fst (qoa_read_u64 frame40 0 0)).
Proof.
  destruct (proj1 qoa_decode_frame_consumes frame40 0 40 (desc0 1 8000 20) (repeat 0 20) 0)
    as (H1 & H2 & H3).
  - unfold frame_rejected. vm_compute. intuition discriminate.
  - split; [exact H1|]. split; [exact H2|]. vm_compute. reflexivity.
Defined.

(** C10: every sample the frame decoder stores is a 16-bit value (a cell
    of the output either keeps its content or holds a value in
    [-32768, 32767], and the value that one decoding step yields is in that
    range, so that its conversion to [short] keeps it), and the history of
    every channel of an accepted frame holds 16-bit values, after each
    single update and when the frame is done. *)
Theorem qoa_decode_frame_samples_are_short :
  forall bytes base size qoa sample_data sp,
    let '(ret, frame_len, qoa', sample_data') :=
      qoa_decode_frame bytes base size qoa sample_data sp in
    length sample_data' = length sample_data
    /\ (forall i, Buf.get sample_data' i = Buf.get sample_data i
                  \/ is_short (Buf.get sample_data' i))
    /\ (forall l scalefactor slice,
          let '(reconstructed, l', _) := qoa_decode_sample l scalefactor slice in
          is_short reconstructed /\ s16 reconstructed = reconstructed
          /\ (hist_ok l -> hist_ok l'))
    /\ (ret <> 0 ->
        forall c, 0 <= c < channels qoa -> hist_ok (lms_get qoa' c)).
Proof.
  intros bytes base size qoa sd sp.
  assert (Step : forall l scalefactor slice,
            let '(reconstructed, l', _) := qoa_decode_sample l scalefactor slice in
            is_short reconstructed /\ s16 reconstructed = reconstructed
            /\ (hist_ok l -> hist_ok l')).
  { intros l sf sl.
    pose proof (qoa_decode_sample_short l sf sl) as [A B].
    pose proof (qoa_decode_sample_fits_short l sf sl) as C.
    destruct (qoa_decode_sample l sf sl) as [[r l'] sl']. cbn [fst snd] in *. auto. }
  destruct (frame_rejected_dec bytes base size qoa) as [R|A].
  - rewrite (qoa_decode_frame_rejects _ _ _ _ _ _ R).
    split; [reflexivity|]. split; [left; reflexivity|]. split; [exact Step|].
    intros F; contradiction F; reflexivity.
  - pose proof (qoa_decode_frame_accepted_inv bytes base size qoa sd sp A) as I.
    cbv zeta in I.
    assert (Ec : fh_channels (be64_get bytes base) = channels qoa).
    { unfold frame_rejected in A; cbv zeta in A. lia. }
    destruct (qoa_decode_frame bytes base size qoa sd sp) as [[[ret fl] q] sd'].
    destruct I as (_ & _ & _ & [KL KS] & HH).
    split; [exact KL|]. split; [exact KS|]. split; [exact Step|].
    intros _ c Hc. apply HH. rewrite Ec. exact Hc.
Qed.

Lemma qoa_decode_frame_samples_are_short_witness :
  hist_ok
    (lms_get (snd (fst (qoa_decode_frame frame40 0 40 (desc0 1 8000 20) (repeat 0 20) 0))) 0).
Proof.
  generalize (qoa_decode_frame_samples_are_short frame40 0 40 (desc0 1 8000 20)
                (repeat 0 20) 0).
  destruct (qoa_decode_frame frame40 0 40 (desc0 1 8000 20) (repeat 0 20) 0)
    as [[[ret fl] q] sd'] eqn:E.
  intros (_ & _ & _ & H). cbn [fst snd]. apply H.
  - vm_compute in E. inversion E. discriminate.
  - simpl. lia.
Defined.

(** ** Words and bytes *)

Lemma land_disjoint a lo k :
  0 <= k -> a mod 2 ^ k = 0 -> 0 <= lo < 2 ^ k -> Z.land a lo = 0.
Proof.
  intros Hk Ha Hlo. apply Z.bits_inj'. intros n Hn.
  rewrite Z.land_spec, Z.bits_0.
  destruct (Z_lt_dec n k) as [Hlt|Hge].
  - assert (E : Z.testbit a n = Z.testbit (a mod 2 ^ k) n)
      by (symmetry; apply Z.mod_pow2_bits_low; lia).
    rewrite E, Ha, Z.bits_0. reflexivity.
  - assert (E : Z.testbit lo n = false).
    { rewrite <- (Z.mod_small lo (2 ^ k)) by lia. apply Z.mod_pow2_bits_high. lia. }
    rewrite E. apply andb_false_r.
Qed.

Lemma lor_disjoint_add a lo k :
  0 <= k -> a mod 2 ^ k = 0 -> 0 <= lo < 2 ^ k -> Z.lor a lo = a + lo.
Proof.
  intros Hk Ha Hlo.
  pose proof (land_disjoint a lo k Hk Ha Hlo) as L.
  rewrite <- Z.lxor_lor by exact L. symmetry. apply Z.add_nocarry_lxor. exact L.
Qed.

Lemma land_ones_mod x n m : m = Z.ones n -> 0 <= n -> Z.land x m = x mod 2 ^ n.
Proof. intros -> H. apply Z.land_ones. exact H. Qed.

Lemma u64_shiftl_byte b k :
  is_byte b -> 0 <= k <= 56 -> u64 (Z.shiftl b k) = b * 2 ^ k.
Proof.
  intros Hb Hk. rewrite Z.shiftl_mul_pow2 by lia. apply u64_small.
  unfold is_byte in Hb.
  assert (0 < 2 ^ k) by (apply Z.pow_pos_nonneg; lia).
  assert (2 ^ k <= 2 ^ 56) by (apply Z.pow_le_mono_r; lia).
  change (2 ^ 64) with (256 * 2 ^ 56). nia.
Qed.

(** The word read is the base-256 number of the eight bytes. *)
Lemma be64_get_sum bytes b :
  (forall k, 0 <= k < 8 -> is_byte (Buf.get bytes (b + k))) ->
  be64_get bytes b =
    Buf.get bytes (b + 0) * 2 ^ 56 + Buf.get bytes (b + 1) * 2 ^ 48
    + Buf.get bytes (b + 2) * 2 ^ 40 + Buf.get bytes (b + 3) * 2 ^ 32
    + Buf.get bytes (b + 4) * 2 ^ 24 + Buf.get bytes (b + 5) * 2 ^ 16
    + Buf.get bytes (b + 6) * 2 ^ 8 + Buf.get bytes (b + 7).
Proof.
  intros H. unfold be64_get.
  pose proof (H 0 ltac:(lia)) as H0. pose proof (H 1 ltac:(lia)) as H1.
  pose proof (H 2 ltac:(lia)) as H2. pose proof (H 3 ltac:(lia)) as H3.
  pose proof (H 4 ltac:(lia)) as H4. pose proof (H 5 ltac:(lia)) as H5.
  pose proof (H 6 ltac:(lia)) as H6. pose proof (H 7 ltac:(lia)) as H7.
  rewrite !u64_shiftl_byte by (assumption || lia).
  set (b0 := Buf.get bytes (b + 0)) in *. set (b1 := Buf.get bytes (b + 1)) in *.
  set (b2 := Buf.get bytes (b + 2)) in *. set (b3 := Buf.get bytes (b + 3)) in *.
  set (b4 := Buf.get bytes (b + 4)) in *. set (b5 := Buf.get bytes (b + 5)) in *.
  set (b6 := Buf.get bytes (b + 6)) in *. set (b7 := Buf.get bytes (b + 7)) in *.
  unfold is_byte in *.
  change (2 ^ 0) with 1. rewrite Z.mul_1_r.
  rewrite (lor_disjoint_add (b0 * 2 ^ 56) (b1 * 2 ^ 48) 56);
    [|lia|apply Z.mod_mul; lia|lia].
  rewrite (lor_disjoint_add _ (b2 * 2 ^ 40) 48);
    [|lia|change (2 ^ 56) with (2 ^ 8 * 2 ^ 48); Z.div_mod_to_equations; lia|lia].
  rewrite (lor_disjoint_add _ (b3 * 2 ^ 32) 40);
    [|lia|change (2 ^ 56) with (2 ^ 16 * 2 ^ 40); change (2 ^ 48) with (2 ^ 8 * 2 ^ 40);
          Z.div_mod_to_equations; lia|lia].
  rewrite (lor_disjoint_add _ (b4 * 2 ^ 24) 32);
    [|lia|change (2 ^ 56) with (2 ^ 24 * 2 ^ 32); change (2 ^ 48) with (2 ^ 16 * 2 ^ 32);
          change (2 ^ 40) with (2 ^ 8 * 2 ^ 32); Z.div_mod_to_equations; lia|lia].
  rewrite (lor_disjoint_add _ (b5 * 2 ^ 16) 24);
    [|lia|Z.div_mod_to_equations; lia|lia].
  rewrite (lor_disjoint_add _ (b6 * 2 ^ 8) 16);
    [|lia|Z.div_mod_to_equations; lia|lia].
  rewrite (lor_disjoint_add _ b7 8);
    [|lia|Z.div_mod_to_equations; lia|lia].
  reflexivity.
Qed.

Lemma be64_get_ext bytes1 bytes2 b :
  (forall k, 0 <= k < 8 -> Buf.get bytes1 (b + k) = Buf.get bytes2 (b + k)) ->
  be64_get bytes1 b = be64_get bytes2 b.
Proof.
  intros H. unfold be64_get.
  rewrite !H by lia. reflexivity.
Qed.

Lemma be64_get_range bytes b :
  (forall k, 0 <= k < 8 -> is_byte (Buf.get bytes (b + k))) ->
  0 <= be64_get bytes b < 2 ^ 64.
Proof.
  intros H. rewrite be64_get_sum by assumption.
  pose proof (H 0 ltac:(lia)) as H0. pose proof (H 1 ltac:(lia)) as H1.
  pose proof (H 2 ltac:(lia)) as H2. pose proof (H 3 ltac:(lia)) as H3.
  pose proof (H 4 ltac:(lia)) as H4. pose proof (H 5 ltac:(lia)) as H5.
  pose proof (H 6 ltac:(lia)) as H6. pose proof (H 7 ltac:(lia)) as H7.
  unfold is_byte in *. lia.
Qed.

(** A list of bytes read anywhere, also outside, yields bytes. *)
Lemma get_is_byte bytes i : Forall is_byte bytes -> is_byte (Buf.get bytes i).
Proof.
  intros H. unfold Buf.get. destruct (i <? 0); [unfold is_byte; lia|].
  destruct (Nat.lt_ge_cases (Z.to_nat i) (length bytes)) as [L|G].
  - rewrite Forall_forall in H. apply H. apply nth_In. exact L.
  - rewrite nth_overflow by exact G. unfold is_byte; lia.
Qed.

Lemma fh_channels_get bytes b :
  Forall is_byte bytes -> fh_channels (be64_get bytes b) = Buf.get bytes b.
Proof.
  intros H. unfold fh_channels.
  rewrite be64_get_sum by (intros; apply get_is_byte; exact H).
  rewrite Z.shiftr_div_pow2 by lia.
  rewrite (land_ones_mod _ 8) by (reflexivity || lia).
  rewrite Z.add_0_r.
  pose proof (get_is_byte bytes b H) as H0. pose proof (get_is_byte bytes (b + 1) H) as H1.
  pose proof (get_is_byte bytes (b + 2) H) as H2. pose proof (get_is_byte bytes (b + 3) H) as H3.
  pose proof (get_is_byte bytes (b + 4) H) as H4. pose proof (get_is_byte bytes (b + 5) H) as H5.
  pose proof (get_is_byte bytes (b + 6) H) as H6. pose proof (get_is_byte bytes (b + 7) H) as H7.
  unfold is_byte in *. Z.div_mod_to_equations. lia.
Qed.

(** ** The file decoder *)

Lemma header_malformed_dec bytes size :
  header_malformed bytes size \/ ~ header_malformed bytes size.
Proof. unfold header_malformed. lia. Qed.

Lemma qoa_decode_header_malformed bytes size qoa :
  header_malformed bytes size -> fst (qoa_decode_header bytes size qoa) = 0.
Proof.
  intros H. unfold header_malformed in H.
  unfold qoa_decode_header, qoa_read_u64. cbv beta iota zeta.
  change (0 + 0) with 0. change (0 + u32 (0 + 8)) with 8.
  destruct (Z.ltb_spec size QOA_MIN_FILESIZE); [reflexivity|].
  destruct (Z.eqb_spec (Z.shiftr (be64_get bytes 0) 32) QOA_MAGIC); [|reflexivity].
  cbn [negb samples set_samples set_channels set_samplerate channels samplerate].
  destruct (Z.eqb_spec (Z.land (be64_get bytes 0) 4294967295) 0); [reflexivity|].
  fold (fh_channels (be64_get bytes 8)). fold (fh_samplerate (be64_get bytes 8)).
  destruct (Z.eqb_spec (fh_channels (be64_get bytes 8)) 0); [reflexivity|].
  destruct (Z.eqb_spec (fh_samplerate (be64_get bytes 8)) 0); [reflexivity|].
  exfalso. lia.
Qed.

Lemma qoa_decode_header_ok bytes size qoa :
  ~ header_malformed bytes size ->
  qoa_decode_header bytes size qoa =
  (8, Desc (fh_channels (be64_get bytes 8)) (fh_samplerate (be64_get bytes 8))
           (Z.land (be64_get bytes 0) 0xffffffff) (lms qoa)).
Proof.
  intros H. unfold header_malformed in H.
  unfold qoa_decode_header, qoa_read_u64. cbv beta iota zeta.
  change (0 + 0) with 0. change (0 + u32 (0 + 8)) with 8.
  destruct (Z.ltb_spec size QOA_MIN_FILESIZE); [exfalso; lia|].
  destruct (Z.eqb_spec (Z.shiftr (be64_get bytes 0) 32) QOA_MAGIC); [|exfalso; lia].
  cbn [negb samples set_samples set_channels set_samplerate channels samplerate].
  destruct (Z.eqb_spec (Z.land (be64_get bytes 0) 4294967295) 0); [exfalso; lia|].
  fold (fh_channels (be64_get bytes 8)). fold (fh_samplerate (be64_get bytes 8)).
  destruct (Z.eqb_spec (fh_channels (be64_get bytes 8)) 0); [exfalso; lia|].
  destruct (Z.eqb_spec (fh_samplerate (be64_get bytes 8)) 0); [exfalso; lia|].
  reflexivity.
Qed.

Lemma qoa_decode_header_cases bytes size qoa :
  (header_malformed bytes size /\ fst (qoa_decode_header bytes size qoa) = 0)
  \/ (~ header_malformed bytes size /\ fst (qoa_decode_header bytes size qoa) = 8).
Proof.
  destruct (header_malformed_dec bytes size) as [H|H].
  - left. split; [exact H|apply qoa_decode_header_malformed; exact H].
  - right. split; [exact H|]. rewrite qoa_decode_header_ok by exact H. reflexivity.
Qed.


(** *** The allocation *)

Lemma total_samples_range q : - 2 ^ 31 <= total_samples q < 2 ^ 31.
Proof. apply s32_range. Qed.

Lemma QOA_MALLOC_shorts_int n :
  - 2 ^ 31 <= n < 2 ^ 31 ->
  QOA_MALLOC_shorts (u64 (n * 2))
  = if n <? 0 then None else Some (repeat 0 (Z.to_nat n)).
Proof.
  intros H. unfold QOA_MALLOC_shorts, PTRDIFF_MAX, u64.
  change (2 ^ 31) with 2147483648 in H.
  change (2 ^ 63) with 9223372036854775808.
  change (2 ^ 64) with 18446744073709551616.
  destruct (Z.ltb_spec n 0) as [N|P].
  - assert (E : (n * 2) mod 18446744073709551616 = 18446744073709551616 + n * 2).
    { symmetry. apply (Z.mod_unique _ _ (-1)); lia. }
    rewrite E. destruct (Z.gtb_spec (18446744073709551616 + n * 2)
                           (9223372036854775808 - 1)); [reflexivity|lia].
  - rewrite Z.mod_small by lia.
    destruct (Z.gtb_spec (n * 2) (9223372036854775808 - 1)); [lia|].
    rewrite Z.div_mul by lia. reflexivity.
Qed.

(** *** The frame loop *)


Lemma frame_in_bounds_accepted bytes p size q sd sp ret fl :
  0 <= channels q <= QOA_MAX_CHANNELS -> 8 + 16 * channels q <= size -> 8 <= ret ->
  p + ret <= Z.of_nat (length bytes) ->
  sp + fl * channels q <= Z.of_nat (length sd) ->
  frame_in_bounds bytes p size q sd sp ret fl = true.
Proof.
  intros Hc Hs Hr Hl Hst. unfold frame_in_bounds, QOA_LMS_LEN. cbv zeta.
  unfold QOA_MAX_CHANNELS in Hc.
  rewrite (u32_small (8 + 4 * 4 * channels q)) by (change (2 ^ 32) with 4294967296; lia).
  destruct (Z.ltb_spec size (8 + 4 * 4 * channels q)) as [L|G]; [lia|].
  rewrite Z.max_r by lia.
  apply andb_true_intro. split; [apply andb_true_intro; split|];
    apply orb_true_intro; right; apply Z.leb_le; unfold QOA_MAX_CHANNELS; lia.
Qed.





Lemma decode_reaches_u32 bytes size s s' :
  decode_reaches bytes size s s' ->
  (let '(_, _, p, si) := s in is_u32 p /\ is_u32 si) ->
  (let '(_, _, p', si') := s' in is_u32 p' /\ is_u32 si').
Proof.
  induction 1 as [[[[q sd] p] si]|q sd p si ret fl q' sd' s'' E B Hret Hlt Hreach IH];
    intros H; [exact H|].
  apply IH. split; apply u32_range.
Qed.


(** *** [qoa_decode] *)

Lemma qoa_decode_null bytes size qoa :
  header_malformed bytes size ->
  qoa_decode bytes size qoa = Ok (None, snd (qoa_decode_header bytes size qoa)).
Proof.
  intros H. unfold qoa_decode.
  pose proof (qoa_decode_header_malformed bytes size qoa H) as E.
  destruct (qoa_decode_header bytes size qoa) as [p q]. cbn [fst snd] in *.
  subst p. reflexivity.
Qed.

Lemma qoa_decode_unfold bytes size qoa :
  ~ header_malformed bytes size ->
  qoa_decode bytes size qoa =
  let q1 := snd (qoa_decode_header bytes size qoa) in
  match qoa_decode_frames (S (length bytes)) bytes size q1
          (if total_samples q1 <? 0 then []
           else repeat 0 (Z.to_nat (total_samples q1))) 8 0 with
  | Ok (q, stored, _, si) =>
      Ok (if total_samples q1 <? 0 then None else Some stored, set_samples q si)
  | OutOfBounds => OutOfBounds
  | OutOfFuel => OutOfFuel
  end.
Proof.
  intros H. unfold qoa_decode. rewrite (qoa_decode_header_ok _ _ _ H).
  cbv zeta. cbn [snd]. change (8 =? 0) with false. cbv iota.
  rewrite QOA_MALLOC_shorts_int by apply total_samples_range.
  destruct (total_samples _ <? 0); reflexivity.
Qed.





Lemma bytes16_header_ok : ~ header_malformed bytes16 16.
Proof. unfold header_malformed. vm_compute. intuition discriminate. Qed.








(** ** The scalefactor search of the encoder *)

Section Search.

Variables (sample_data : list Z) (sbase slice_start slice_end channels_ : Z).
Variable l0 : qoa_lms_t.
Hypothesis samples_short : Forall is_short sample_data.

Lemma get_is_short i : is_short (Buf.get sample_data i).
Proof.
  unfold Buf.get. destruct (i <? 0); [unfold is_short; lia|].
  destruct (Nat.lt_ge_cases (Z.to_nat i) (length sample_data)) as [L|G].
  - rewrite Forall_forall in samples_short. apply samples_short. apply nth_In. exact L.
  - rewrite nth_overflow by exact G. unfold is_short; lia.
Qed.

Lemma squared_error_bound sample v :
  is_short sample ->
  let error := sample - qoa_clamp v (-32768) 32767 in
  0 <= error * error < 2 ^ 32.
Proof.
  intros Hs. pose proof (qoa_clamp_range v (-32768) 32767 ltac:(lia)) as Hc.
  cbv zeta. set (r := qoa_clamp v (-32768) 32767) in *. unfold is_short in Hs.
  set (e := sample - r). assert (He : -65535 <= e <= 65535) by (unfold e; lia).
  change (2 ^ 32) with 4294967296. clearbody e. clear - He. nia.
Qed.

(** One step of a pass: what it yields does not depend on the threshold,
    only whether the pass goes on does. *)
Lemma qoa_encode_sample_eq scalefactor si l slice cur :
  exists l' slice' e2,
    0 <= e2 < 2 ^ 32 /\
    forall best_error,
      qoa_encode_sample sample_data sbase scalefactor best_error si (l, slice, cur)
      = if u64 (cur + e2) >? best_error
        then ((l, slice, u64 (cur + e2)), true)
        else ((l', slice', u64 (cur + e2)), false).
Proof.
  unfold qoa_encode_sample. cbv beta iota zeta.
  set (sample := Buf.get sample_data (sbase + si)).
  set (predicted := qoa_lms_predict l).
  set (quantized := Buf.get qoa_quant_tab _).
  set (dequantized := dequant scalefactor quantized).
  set (reconstructed := qoa_clamp _ (-32768) 32767).
  pose proof (squared_error_bound sample (s32 (predicted + dequantized))
                (get_is_short (sbase + si))) as He.
  cbv zeta in He. fold reconstructed in He.
  exists (qoa_lms_update l reconstructed dequantized),
         (Z.lor (u64 (Z.shiftl slice 3)) quantized),
         ((sample - reconstructed) * (sample - reconstructed)).
  split; [exact He|]. intros B.
  rewrite (u64_small (_ * _)); [reflexivity|].
  change (2 ^ 64) with 18446744073709551616. change (2 ^ 32) with 4294967296 in He. lia.
Qed.

(** A pass that may break against a pass that never does: they agree when
    the full error does not exceed the threshold, and otherwise the one
    that breaks ends with an error above the threshold. *)
Lemma pass_fuel_relation scalefactor best_error :
  forall fuel si l slice cur,
    0 <= cur -> cur + Z.of_nat fuel * 2 ^ 32 < 2 ^ 64 ->
    let r1 := for_fuel_break fuel si slice_end channels_
                (qoa_encode_sample sample_data sbase scalefactor best_error)
                (l, slice, cur) in
    let r2 := for_fuel_break fuel si slice_end channels_
                (qoa_encode_sample sample_data sbase scalefactor U64_MAX)
                (l, slice, cur) in
    cur <= snd r2 <= cur + Z.of_nat fuel * 2 ^ 32
    /\ (snd r2 <= best_error -> r1 = r2)
    /\ (best_error < snd r2 -> best_error < snd r1).
Proof.
  induction fuel as [|fuel IH]; intros si l slice cur Hc Hb; cbv zeta.
  - cbn [for_fuel_break snd]. split; [lia|]. split; [reflexivity|lia].
  - cbn [for_fuel_break]. destruct (Z.ltb_spec si slice_end) as [Hlt|Hge].
    2:{ cbn [snd]. split; [lia|]. split; [reflexivity|lia]. }
    destruct (qoa_encode_sample_eq scalefactor si l slice cur)
      as (l' & slice' & e2 & He & Hstep).
    rewrite !Hstep.
    rewrite Nat2Z.inj_succ in *. unfold Z.succ in *.
    change (2 ^ 32) with 4294967296 in *.
    change (2 ^ 64) with 18446744073709551616 in *.
    assert (Hcur : u64 (cur + e2) = cur + e2).
    { apply u64_small. change (2 ^ 64) with 18446744073709551616. lia. }
    rewrite Hcur.
    assert (Hmax : (cur + e2 >? U64_MAX) = false).
    { destruct (Z.gtb_spec (cur + e2) U64_MAX) as [G|G]; [|reflexivity].
      unfold U64_MAX in G. change (2 ^ 64) with 18446744073709551616 in G. lia. }
    rewrite Hmax.
    specialize (IH (si + channels_) l' slice' (cur + e2) ltac:(lia) ltac:(lia)).
    cbv zeta in IH. destruct IH as (I1 & I2 & I3).
    destruct (Z.gtb_spec (cur + e2) best_error) as [Hbrk|Hcont].
    + split; [lia|]. split; [intros; exfalso; lia|]. intros _. cbn [snd]. lia.
    + split; [lia|]. split; assumption.
Qed.

Hypothesis slice_fits : slice_end - slice_start < 2 ^ 31.

Lemma pass_relation scalefactor best_error :
  let r1 := qoa_encode_slice_pass sample_data sbase slice_start slice_end channels_
              scalefactor best_error l0 in
  0 <= snd (full_pass sample_data sbase slice_start slice_end channels_ l0 scalefactor) < 2 ^ 63
  /\ (snd (full_pass sample_data sbase slice_start slice_end channels_ l0 scalefactor) <= best_error -> r1 = full_pass sample_data sbase slice_start slice_end channels_ l0 scalefactor)
  /\ (best_error < snd (full_pass sample_data sbase slice_start slice_end channels_ l0 scalefactor) -> best_error < snd r1).
Proof.
  cbv zeta. unfold full_pass, qoa_encode_slice_pass, for_range_break.
  pose proof (pass_fuel_relation scalefactor best_error
                (Z.to_nat (slice_end - slice_start)) slice_start l0 scalefactor 0
                ltac:(lia)) as H.
  cbv zeta in H.
  destruct H as (H1 & H2 & H3).
  - change (2 ^ 64) with (2 ^ 32 * 2 ^ 32). change (2 ^ 31) with 2147483648 in slice_fits.
    change (2 ^ 32) with 4294967296. lia.
  - split; [|split; assumption].
    change (2 ^ 63) with (2 ^ 31 * 2 ^ 32).
    change (2 ^ 31) with 2147483648 in *. change (2 ^ 32) with 4294967296 in *. lia.
Qed.

Lemma try_first :
  qoa_encode_slice_try sample_data sbase slice_start slice_end channels_ l0 0
    (U64_MAX, 0, l0)
  = (snd (full_pass sample_data sbase slice_start slice_end channels_ l0 0), snd (fst (full_pass sample_data sbase slice_start slice_end channels_ l0 0)), fst (fst (full_pass sample_data sbase slice_start slice_end channels_ l0 0))).
Proof.
  unfold qoa_encode_slice_try.
  change (qoa_encode_slice_pass sample_data sbase slice_start slice_end channels_
            0 U64_MAX l0) with (full_pass sample_data sbase slice_start slice_end channels_ l0 0).
  destruct (pass_relation 0 U64_MAX) as ((B1 & B2) & _).
  destruct (full_pass sample_data sbase slice_start slice_end channels_ l0 0) as [[l' slice] cur]. cbn [fst snd] in *.
  destruct (Z.ltb_spec cur U64_MAX) as [L|G]; [reflexivity|].
  exfalso. unfold U64_MAX in G. change (2 ^ 63) with 9223372036854775808 in B2.
  change (2 ^ 64) with 18446744073709551616 in G. lia.
Qed.

Lemma try_next n best :
  1 <= n -> (best_upto sample_data sbase slice_start slice_end channels_ l0) n best ->
  (best_upto sample_data sbase slice_start slice_end channels_ l0) (n + 1)
    (qoa_encode_slice_try sample_data sbase slice_start slice_end channels_ l0 n best).
Proof.
  intros Hn (k & Hk & -> & Hmin & Hlow).
  unfold qoa_encode_slice_try.
  destruct (pass_relation n (snd (full_pass sample_data sbase slice_start slice_end channels_ l0 k))) as (B & Heq & Hgt). cbv zeta in Heq, Hgt.
  destruct (Z_le_gt_dec (snd (full_pass sample_data sbase slice_start slice_end channels_ l0 n)) (snd (full_pass sample_data sbase slice_start slice_end channels_ l0 k))) as [Hle|Hg].
  - rewrite (Heq Hle).
    destruct (full_pass sample_data sbase slice_start slice_end channels_ l0 n) as [[ln sn] en] eqn:En. cbn [fst snd] in *.
    destruct (Z.ltb_spec en (snd (full_pass sample_data sbase slice_start slice_end channels_ l0 k))) as [L|G].
    + exists n. rewrite En. cbn [fst snd]. split; [lia|]. split; [reflexivity|].
      split.
      * intros j Hj. destruct (Z.eq_dec j n) as [->|Hne]; [rewrite En; cbn [snd]; lia|].
        specialize (Hmin j ltac:(lia)). lia.
      * intros j Hj. specialize (Hmin j ltac:(lia)). lia.
    + exists k. split; [lia|]. split; [reflexivity|]. split; [|exact Hlow].
      intros j Hj. destruct (Z.eq_dec j n) as [->|Hne]; [rewrite En; cbn [snd]; lia|].
      apply Hmin. lia.
  - specialize (Hgt ltac:(lia)).
    destruct (qoa_encode_slice_pass sample_data sbase slice_start slice_end channels_ n
                (snd (full_pass sample_data sbase slice_start slice_end channels_ l0 k)) l0) as [[l' slice] cur].
    cbn [snd] in Hgt.
    destruct (Z.ltb_spec cur (snd (full_pass sample_data sbase slice_start slice_end channels_ l0 k))) as [L|G]; [lia|].
    exists k. split; [lia|]. split; [reflexivity|]. split; [|exact Hlow].
    intros j Hj. destruct (Z.eq_dec j n) as [->|Hne]; [lia|]. apply Hmin. lia.
Qed.

Lemma search_best :
  (best_upto sample_data sbase slice_start slice_end channels_ l0) 16
    (qoa_encode_slice_search sample_data sbase slice_start slice_end channels_ l0).
Proof.
  unfold qoa_encode_slice_search.
  rewrite for_range_unroll by lia. change (0 <? 16) with true. cbv iota.
  rewrite try_first. change (0 + 1) with 1.
  apply (for_range_rule (fun i best => 1 <= i <= 16 /\ (best_upto sample_data sbase slice_start slice_end channels_ l0) i best)).
  - lia.
  - split; [lia|]. exists 0. split; [lia|]. split; [reflexivity|].
    split; intros j Hj; [assert (j = 0) by lia; subst; lia|lia].
  - intros i best Hi [Hi1 Hb]. split; [lia|]. apply try_next; [lia|exact Hb].
  - intros i best Hi [Hi1 Hb]. assert (i = 16) by lia. subst i. exact Hb.
Qed.

End Search.

(** C6: in the search for the scalefactor of a slice the comparisons are
    strict, so that the result recorded ([best_error], [best_slice],
    [best_lms]) is that of the lowest scalefactor among those with the least
    total squared error; and as [best_error] starts as the largest 64-bit
    value, the first round of the search always records scalefactor 0. *)
Theorem qoa_encode_slice_search_lowest_best :
  forall sample_data sbase slice_start slice_end channels_ l,
    Forall is_short sample_data ->
    slice_end - slice_start < 2 ^ 31 ->
    let full := full_pass sample_data sbase slice_start slice_end channels_ l in
    qoa_encode_slice_try sample_data sbase slice_start slice_end channels_ l 0
      (U64_MAX, 0, l)
    = (snd (full 0), snd (fst (full 0)), fst (fst (full 0)))
    /\ exists k,
         0 <= k < 16
         /\ qoa_encode_slice_search sample_data sbase slice_start slice_end channels_ l
            = (snd (full k), snd (fst (full k)), fst (fst (full k)))
         /\ (forall j, 0 <= j < 16 -> snd (full k) <= snd (full j))
         /\ (forall j, 0 <= j < k -> snd (full k) < snd (full j)).
Proof.
  intros sd sbase ss se ch l Hs Hfit. cbv zeta. split.
  - apply try_first; assumption.
  - exact (search_best sd sbase ss se ch l Hs Hfit).
Qed.

Lemma ramp20_short : Forall is_short ramp20.
Proof. unfold ramp20, is_short. repeat constructor; lia. Qed.

Lemma qoa_encode_slice_search_lowest_best_witness :
  let full := full_pass ramp20 0 0 20 1 lms0 in
  qoa_encode_slice_try ramp20 0 0 20 1 lms0 0 (U64_MAX, 0, lms0)
  = (snd (full 0), snd (fst (full 0)), fst (fst (full 0)))
  /\ exists k,
       0 <= k < 16
       /\ qoa_encode_slice_search ramp20 0 0 20 1 lms0
          = (snd (full k), snd (fst (full k)), fst (fst (full k)))
       /\ (forall j, 0 <= j < 16 -> snd (full k) <= snd (full j))
       /\ (forall j, 0 <= j < k -> snd (full k) < snd (full j)).
Proof.
  apply (qoa_encode_slice_search_lowest_best ramp20 0 0 20 1 lms0).
  - exact ramp20_short.
  - lia.
Defined.

(** ** Writing words *)

Lemma be64_put_length v bytes b : length (be64_put v bytes b) = length bytes.
Proof. unfold be64_put. cbv zeta. rewrite !set_length. reflexivity. Qed.

Lemma be64_put_get_other v bytes b i :
  i < b \/ b + 8 <= i -> Buf.get (be64_put v bytes b) i = Buf.get bytes i.
Proof.
  intros H. unfold be64_put. cbv zeta.
  rewrite !get_set_other by lia. reflexivity.
Qed.

Lemma land_255_byte x : is_byte (Z.land x 255).
Proof.
  pose proof (land_mask x 8 ltac:(lia)) as H. change (Z.ones 8) with 255 in H.
  unfold is_byte. change (2 ^ 8) with 256 in H. lia.
Qed.

Lemma set_nat_Forall {A} (P : A -> Prop) l n v :
  Forall P l -> P v -> Forall P (Buf.set_nat l n v).
Proof.
  intros Hl Hv. revert n. induction Hl as [|h t Hh Ht IH]; intros [|n]; simpl;
    constructor; auto.
Qed.

Lemma set_Forall {A} (P : A -> Prop) l i v :
  Forall P l -> P v -> Forall P (Buf.set l i v).
Proof.
  intros; unfold Buf.set. destruct (i <? 0); [assumption|]. apply set_nat_Forall; assumption.
Qed.

Lemma be64_put_bytes v bytes b :
  Forall is_byte bytes -> Forall is_byte (be64_put v bytes b).
Proof.
  intros H. unfold be64_put. cbv zeta.
  repeat (apply set_Forall; [|apply land_255_byte]). exact H.
Qed.

Lemma be64_put_get_byte v bytes b k :
  0 <= b -> b + 8 <= Z.of_nat (length bytes) -> 0 <= k < 8 ->
  Buf.get (be64_put v bytes b) (b + k) = Z.land (Z.shiftr v (56 - 8 * k)) 255.
Proof.
  intros Hb Hl Hk. unfold be64_put. cbv zeta.
  assert (C : k = 0 \/ k = 1 \/ k = 2 \/ k = 3 \/ k = 4 \/ k = 5 \/ k = 6 \/ k = 7) by lia.
  destruct C as [->|[->|[->|[->|[->|[->|[->| ->]]]]]]];
    repeat (rewrite get_set_other by lia);
    (rewrite get_set_same by (rewrite ?set_length; lia)); reflexivity.
Qed.

Lemma be64_get_put v bytes b :
  0 <= b -> b + 8 <= Z.of_nat (length bytes) -> 0 <= v < 2 ^ 64 ->
  be64_get (be64_put v bytes b) b = v.
Proof.
  intros Hb Hl Hv.
  rewrite be64_get_sum.
  2:{ intros k Hk. rewrite be64_put_get_byte by assumption. apply land_255_byte. }
  rewrite !be64_put_get_byte by (assumption || lia).
  rewrite !(land_ones_mod _ 8) by (reflexivity || lia).
  rewrite !Z.shiftr_div_pow2 by lia.
  change (56 - 8 * 0) with 56. change (56 - 8 * 1) with 48. change (56 - 8 * 2) with 40.
  change (56 - 8 * 3) with 32. change (56 - 8 * 4) with 24. change (56 - 8 * 5) with 16.
  change (56 - 8 * 6) with 8. change (56 - 8 * 7) with 0.
  change (2 ^ 0) with 1. rewrite Z.div_1_r.
  change (2 ^ 64) with 18446744073709551616 in Hv.
  change (2 ^ 56) with 72057594037927936. change (2 ^ 48) with 281474976710656.
  change (2 ^ 40) with 1099511627776. change (2 ^ 32) with 4294967296.
  change (2 ^ 24) with 16777216. change (2 ^ 16) with 65536. change (2 ^ 8) with 256.
  Z.div_mod_to_equations. lia.
Qed.

Lemma same_below_refl n b : same_below n b b.
Proof. split; auto. Qed.

Lemma same_below_trans n m b1 b2 b3 :
  n <= m -> same_below n b1 b2 -> same_below m b2 b3 -> same_below n b1 b3.
Proof.
  intros Hnm [L1 H1] [L2 H2]. split; [congruence|].
  intros i Hi. rewrite H2 by lia. apply H1. exact Hi.
Qed.

Lemma same_below_put n v bytes b : n <= b -> same_below n bytes (be64_put v bytes b).
Proof.
  intros H. split; [apply be64_put_length|].
  intros i Hi. apply be64_put_get_other. lia.
Qed.

Lemma be64_get_same_below n b1 b2 b :
  same_below n b1 b2 -> b + 8 <= n -> be64_get b2 b = be64_get b1 b.
Proof. intros [_ H] Hb. apply be64_get_ext. intros k Hk. apply H. lia. Qed.

(** ** The frame encoder *)

Lemma u64_shiftl_small x k :
  0 <= k -> 0 <= x -> x * 2 ^ k < 2 ^ 64 -> u64 (Z.shiftl x k) = x * 2 ^ k.
Proof.
  intros Hk Hx Hlt. rewrite Z.shiftl_mul_pow2 by lia. apply u64_small.
  assert (0 < 2 ^ k) by (apply Z.pow_pos_nonneg; lia). nia.
Qed.

Lemma frame_header_word_sum q frame_len frame_size :
  0 <= channels q < 2 ^ 8 -> 0 <= samplerate q < 2 ^ 24 ->
  0 <= frame_len < 2 ^ 16 -> 0 <= frame_size < 2 ^ 16 ->
  frame_header_word q frame_len frame_size
  = channels q * 2 ^ 56 + samplerate q * 2 ^ 32 + frame_len * 2 ^ 16 + frame_size.
Proof.
  intros Hc Hr Hl Hs. unfold frame_header_word.
  rewrite !u64_shiftl_small by lia.
  rewrite (lor_disjoint_add (channels q * 2 ^ 56) (samplerate q * 2 ^ 32) 56);
    [|lia|apply Z.mod_mul; lia|lia].
  rewrite (lor_disjoint_add _ (frame_len * 2 ^ 16) 32);
    [|lia|change (2 ^ 56) with (2 ^ 24 * 2 ^ 32); Z.div_mod_to_equations; lia|lia].
  rewrite (lor_disjoint_add _ frame_size 16);
    [|lia|change (2 ^ 56) with (2 ^ 40 * 2 ^ 16); change (2 ^ 32) with (2 ^ 16 * 2 ^ 16);
          Z.div_mod_to_equations; lia|lia].
  reflexivity.
Qed.

Lemma frame_header_word_fields q frame_len frame_size :
  0 <= channels q < 2 ^ 8 -> 0 <= samplerate q < 2 ^ 24 ->
  0 <= frame_len < 2 ^ 16 -> 0 <= frame_size < 2 ^ 16 ->
  let w := frame_header_word q frame_len frame_size in
  0 <= w < 2 ^ 64 /\
  fh_channels w = channels q /\ fh_samplerate w = samplerate q /\
  fh_samples w = frame_len /\ fh_frame_size w = frame_size.
Proof.
  intros Hc Hr Hl Hs. cbv zeta.
  rewrite frame_header_word_sum by assumption.
  unfold fh_channels, fh_samplerate, fh_samples, fh_frame_size.
  rewrite (land_ones_mod _ 8) by (reflexivity || lia).
  rewrite (land_ones_mod _ 24) by (reflexivity || lia).
  rewrite !(land_ones_mod _ 16) by (reflexivity || lia).
  rewrite !Z.shiftr_div_pow2 by lia.
  change (2 ^ 64) with 18446744073709551616.
  change (2 ^ 56) with 72057594037927936. change (2 ^ 32) with 4294967296.
  change (2 ^ 24) with 16777216 in *. change (2 ^ 16) with 65536 in *.
  change (2 ^ 8) with 256 in *.
  repeat split; Z.div_mod_to_equations; lia.
Qed.

Lemma qoa_encode_frame_lms_inv q base ch bytes0 p0 :
  0 <= ch -> 0 <= p0 -> p0 + 16 * ch < 2 ^ 32 ->
  let '(bytes, p) := qoa_encode_frame_lms q base ch (bytes0, p0) in
  p = p0 + 16 * ch /\ same_below (base + p0) bytes0 bytes /\
  (Forall is_byte bytes0 -> Forall is_byte bytes).
Proof.
  intros Hch Hp0 Hlim. unfold qoa_encode_frame_lms.
  apply (for_range_rule
    (fun i '(bytes, p) =>
       0 <= i <= ch /\ p = p0 + 16 * i /\ same_below (base + p0) bytes0 bytes /\
       (Forall is_byte bytes0 -> Forall is_byte bytes))
    (fun '(bytes, p) =>
       p = p0 + 16 * ch /\ same_below (base + p0) bytes0 bytes /\
       (Forall is_byte bytes0 -> Forall is_byte bytes))).
  - lia.
  - split; [lia|]. split; [lia|]. split; [apply same_below_refl|auto].
  - intros i [bytes p] Hi (Hi0 & Hp & Hsb & Hby).
    destruct (qoa_encode_lms (lms_get q i)) as [hw ww].
    unfold qoa_write_u64.
    split; [lia|]. split; [|split].
    + rewrite (u32_small (p + 8)) by lia. rewrite u32_small by lia. lia.
    + apply (same_below_trans (base + p0) (base + p0) _ bytes); [lia|exact Hsb|].
      apply (same_below_trans (base + p0) (base + p0) _ (be64_put hw bytes (base + p)));
        [lia|apply same_below_put; lia|].
      apply same_below_put. rewrite u32_small by lia. lia.
    + intros H0. apply be64_put_bytes. apply be64_put_bytes. auto.
  - intros i [bytes p] Hi (Hi0 & Hp & Hsb & Hby).
    assert (i = ch) by lia. subst i. auto.
Qed.

Lemma qoa_encode_slice_inv sd sbase ch frame_len base sample_index c q0 bytes0 p0 :
  0 <= p0 -> p0 + 8 < 2 ^ 32 ->
  let '(q, bytes, p) :=
    qoa_encode_slice sd sbase ch frame_len base sample_index c (q0, bytes0, p0) in
  same_fields q0 q /\ p = p0 + 8 /\ same_below (base + p0) bytes0 bytes /\
  (Forall is_byte bytes0 -> Forall is_byte bytes).
Proof.
  intros Hp0 Hlim. unfold qoa_encode_slice.
  destruct (qoa_encode_slice_search _ _ _ _ _ _) as [[be bs] bl].
  unfold qoa_write_u64.
  split; [apply same_fields_lms_set|]. split; [apply u32_small; lia|].
  split; [apply same_below_put; lia|]. intros H. apply be64_put_bytes. exact H.
Qed.

Lemma qoa_encode_slices_inv sd sbase ch frame_len base q0 bytes0 p0 :
  0 < ch -> 0 <= frame_len -> 0 <= p0 ->
  p0 + 8 * ch * ((frame_len + 19) / 20) < 2 ^ 32 ->
  let '(q, bytes, p) :=
    qoa_encode_slices sd sbase ch frame_len base (q0, bytes0, p0) in
  same_fields q0 q /\ p = p0 + 8 * ch * ((frame_len + 19) / 20) /\
  same_below (base + p0) bytes0 bytes /\
  (Forall is_byte bytes0 -> Forall is_byte bytes).
Proof.
  intros Hch Hn Hp0 Hlim. unfold qoa_encode_slices, QOA_SLICE_LEN.
  apply (for_range_rule
    (fun i '(q, bytes, p) =>
       0 <= i < frame_len + 20 /\ i mod 20 = 0 /\
       same_fields q0 q /\ p = p0 + 8 * ch * (i / 20) /\
       same_below (base + p0) bytes0 bytes /\
       (Forall is_byte bytes0 -> Forall is_byte bytes))
    (fun s => let '(q, bytes, p) := s in
       same_fields q0 q /\ p = p0 + 8 * ch * ((frame_len + 19) / 20) /\
       same_below (base + p0) bytes0 bytes /\
       (Forall is_byte bytes0 -> Forall is_byte bytes))).
  - lia.
  - split; [lia|]. split; [reflexivity|]. split; [apply same_fields_refl|].
    split; [change (0 / 20) with 0; lia|]. split; [apply same_below_refl|auto].
  - intros i [[q bytes] p] Hi (Hi0 & Him & Hsf & Hp & Hsb & Hby).
    assert (Hdiv : (i + 20) / 20 = i / 20 + 1).
    { replace (i + 20) with (i + 1 * 20) by lia. rewrite Z.div_add by lia. reflexivity. }
    assert (Hle : i / 20 + 1 <= (frame_len + 19) / 20).
    { rewrite <- Hdiv. apply Z.div_le_mono; lia. }
    assert (Hmod : (i + 20) mod 20 = 0).
    { replace (i + 20) with (i + 1 * 20) by lia. rewrite Z.mod_add by lia. exact Him. }
    assert (Hq0 : 0 <= i / 20) by (apply Z.div_pos; lia).
    assert (Hmul : ch * (i / 20 + 1) <= ch * ((frame_len + 19) / 20))
      by (apply Z.mul_le_mono_nonneg_l; lia).
    apply (for_range_rule
      (fun c '(q', bytes', p') =>
         0 <= c <= ch /\ same_fields q0 q' /\ p' = p + 8 * c /\
         same_below (base + p0) bytes0 bytes' /\
         (Forall is_byte bytes0 -> Forall is_byte bytes'))
      (fun s => let '(q', bytes', p') := s in
         0 <= i + 20 < frame_len + 20 /\ (i + 20) mod 20 = 0 /\
         same_fields q0 q' /\ p' = p0 + 8 * ch * ((i + 20) / 20) /\
         same_below (base + p0) bytes0 bytes' /\
         (Forall is_byte bytes0 -> Forall is_byte bytes'))).
    + lia.
    + split; [lia|]. split; [exact Hsf|]. split; [lia|]. split; [exact Hsb|exact Hby].
    + intros c [[q' bytes'] p'] Hc (Hc0 & Hsf' & Hp' & Hsb' & Hby').
      assert (Hb : p' + 8 < 2 ^ 32) by nia.
      assert (Hb0 : 0 <= p') by nia.
      pose proof (qoa_encode_slice_inv sd sbase ch frame_len base i c q' bytes' p'
                    Hb0 Hb) as HS.
      destruct (qoa_encode_slice sd sbase ch frame_len base i c (q', bytes', p'))
        as [[q2 bytes2] p2].
      destruct HS as (S1 & S2 & S3 & S4).
      split; [lia|]. split; [eapply same_fields_trans; eassumption|].
      split; [lia|]. split; [|auto].
      apply (same_below_trans (base + p0) (base + p') _ bytes'); [nia|exact Hsb'|exact S3].
    + intros c [[q' bytes'] p'] Hc (Hc0 & Hsf' & Hp' & Hsb' & Hby').
      assert (c = ch) by lia. subst c.
      split; [lia|]. split; [exact Hmod|]. split; [exact Hsf'|].
      split; [rewrite Hdiv; lia|]. split; [exact Hsb'|exact Hby'].
  - intros i [[q bytes] p] Hi (Hi0 & Him & Hsf & Hp & Hsb & Hby).
    assert (E : i / 20 = (frame_len + 19) / 20).
    { pose proof (Z.div_mod i 20 ltac:(lia)) as D1.
      pose proof (Z.mod_pos_bound (frame_len + 19) 20 ltac:(lia)) as B2.
      pose proof (Z.div_mod (frame_len + 19) 20 ltac:(lia)) as D2.
      lia. }
    rewrite <- E. auto.
Qed.

(** What the frame encoder writes and returns: the frame size, a frame
    header at the start of the frame, nothing before the frame. *)
Lemma qoa_encode_frame_inv sd sbase q frame_len bytes base :
  1 <= channels q <= 8 -> 0 <= frame_len <= 5120 ->
  let frame_size := 8 + 16 * channels q + 8 * channels q * ((frame_len + 19) / 20) in
  let '(ret, q', bytes') := qoa_encode_frame sd sbase q frame_len bytes base in
  ret = frame_size /\ same_fields q q' /\ same_below base bytes bytes' /\
  (Forall is_byte bytes -> Forall is_byte bytes') /\
  (0 <= base -> base + 8 <= Z.of_nat (length bytes) ->
   0 <= samplerate q < 2 ^ 24 ->
   be64_get bytes' base = frame_header_word q frame_len frame_size /\
   fh_channels (be64_get bytes' base) = channels q /\
   fh_samplerate (be64_get bytes' base) = samplerate q /\
   fh_samples (be64_get bytes' base) = frame_len /\
   fh_frame_size (be64_get bytes' base) = frame_size).
Proof.
  intros Hch Hfl. cbv zeta. unfold qoa_encode_frame. cbv zeta.
  assert (Hk : 0 <= (frame_len + 19) / 20 <= 256).
  { split; [apply Z.div_pos; lia|].
    assert ((frame_len + 19) / 20 < 257) by (apply Z.div_lt_upper_bound; lia). lia. }
  unfold QOA_SLICE_LEN, QOA_FRAME_SIZE, QOA_LMS_LEN.
  replace (frame_len + 20 - 1) with (frame_len + 19) by lia.
  rewrite (u32_small (frame_len + 19)) by lia.
  set (k := (frame_len + 19) / 20) in *.
  rewrite (u32_small (8 + 4 * 4 * channels q + 8 * k * channels q)) by nia.
  replace (8 + 4 * 4 * channels q + 8 * k * channels q)
    with (8 + 16 * channels q + 8 * channels q * k) by lia.
  set (fs := 8 + 16 * channels q + 8 * channels q * k).
  assert (Hfs : 24 <= fs <= 16520) by (unfold fs; nia).
  unfold qoa_write_u64 at 1. change (u32 (0 + 8)) with 8. rewrite Z.add_0_r.
  set (w := frame_header_word q frame_len fs).
  set (bytes1 := be64_put w bytes base).
  pose proof (qoa_encode_frame_lms_inv q base (channels q) bytes1 8
                ltac:(lia) ltac:(lia) ltac:(lia)) as HL.
  destruct (qoa_encode_frame_lms q base (channels q) (bytes1, 8)) as [bytes2 p2].
  destruct HL as (L1 & L2 & L3).
  pose proof (qoa_encode_slices_inv sd sbase (channels q) frame_len base q bytes2 p2
                ltac:(lia) ltac:(lia) ltac:(lia) ltac:(fold k; nia)) as HS.
  destruct (qoa_encode_slices sd sbase (channels q) frame_len base (q, bytes2, p2))
    as [[q3 bytes3] p3].
  destruct HS as (S1 & S2 & S3 & S4). fold k in S2.
  assert (SB1 : same_below base bytes bytes1) by (apply same_below_put; lia).
  assert (SB3 : same_below (base + 8) bytes1 bytes3).
  { apply (same_below_trans (base + 8) (base + p2) _ bytes2); [lia|exact L2|exact S3]. }
  split; [unfold fs; lia|]. split; [exact S1|].
  split; [apply (same_below_trans base (base + 8) _ bytes1); [lia|exact SB1|exact SB3]|].
  split; [intros H; apply S4, L3, be64_put_bytes, H|].
  intros Hb0 Hb8 Hsr.
  assert (Ew : be64_get bytes3 base = w).
  { rewrite (be64_get_same_below _ _ _ _ SB3) by lia.
    apply be64_get_put; [assumption|assumption|].
    apply (frame_header_word_fields q frame_len fs); lia. }
  rewrite Ew. split; [reflexivity|].
  apply (frame_header_word_fields q frame_len fs); lia.
Qed.

(** ** The file encoder *)

Lemma frames_size_eq ch n :
  frames_size ch n = (n + 5119) / 5120 * (8 + 16 * ch) + (n + 19) / 20 * 8 * ch.
Proof.
  unfold frames_size, QOA_FRAME_LEN, QOA_SLICES_PER_FRAME, QOA_SLICE_LEN.
  replace (n + 256 * 20 - 1) with (n + 5119) by lia.
  replace (n + 20 - 1) with (n + 19) by lia. reflexivity.
Qed.

Lemma frames_size_0 ch : frames_size ch 0 = 0.
Proof. rewrite frames_size_eq. reflexivity. Qed.

Lemma frames_size_step ch si n :
  si mod 5120 = 0 -> 0 <= si < n ->
  let fl := Z.min 5120 (n - si) in
  frames_size ch (si + fl)
  = frames_size ch si + (8 + 16 * ch + 8 * ch * ((fl + 19) / 20)).
Proof.
  intros Hm Hsi. cbv zeta. rewrite !frames_size_eq.
  set (fl := Z.min 5120 (n - si)). assert (Hfl : 1 <= fl <= 5120) by lia.
  assert (E1 : (si + fl + 5119) / 5120 = (si + 5119) / 5120 + 1).
  { clearbody fl. Z.div_mod_to_equations. lia. }
  assert (E2 : (si + fl + 19) / 20 = (si + 19) / 20 + (fl + 19) / 20).
  { clearbody fl. Z.div_mod_to_equations. lia. }
  rewrite E1, E2. ring.
Qed.

Lemma frames_size_mono ch a b :
  0 <= ch -> 0 <= a <= b -> frames_size ch a <= frames_size ch b.
Proof.
  intros Hch Hab. rewrite !frames_size_eq.
  assert (H1 : (a + 5119) / 5120 <= (b + 5119) / 5120) by (apply Z.div_le_mono; lia).
  assert (H2 : (a + 19) / 20 <= (b + 19) / 20) by (apply Z.div_le_mono; lia).
  assert (0 <= (a + 5119) / 5120) by (apply Z.div_pos; lia).
  assert (0 <= (a + 19) / 20) by (apply Z.div_pos; lia).
  nia.
Qed.

Lemma encoded_size_eq q : encoded_size q = 8 + frames_size (channels q) (samples q).
Proof.
  unfold encoded_size. cbv zeta. rewrite frames_size_eq.
  replace (samples q + 5120 - 1) with (samples q + 5119) by lia.
  replace (samples q + 20 - 1) with (samples q + 19) by lia. ring.
Qed.

Lemma u32_add_l a b : u32 (u32 a + b) = u32 (a + b).
Proof. unfold u32. apply Zplus_mod_idemp_l. Qed.

(** One round of the frame loop of the encoder, when samples are left. *)
Lemma qoa_encode_frames_step fuel sd q bytes si p :
  0 <= si < samples q -> samples q <= INT_MAX ->
  qoa_encode_frames (S fuel) sd q bytes si p =
  let frame_len := Z.min 5120 (samples q - si) in
  let '(frame_size, q', bytes') :=
    qoa_encode_frame sd (u32 (si * channels q)) q frame_len bytes p in
  qoa_encode_frames fuel sd q' bytes' (si + frame_len) (u32 (p + frame_size)).
Proof.
  intros Hsi Hmax. unfold INT_MAX in Hmax. change (2 ^ 31) with 2147483648 in Hmax.
  cbn [qoa_encode_frames].
  rewrite (u32_small si) by (change (2 ^ 32) with 4294967296; lia).
  destruct (Z.ltb_spec si (samples q)) as [_|G]; [|lia].
  rewrite (u32_small (samples q - si)) by (change (2 ^ 32) with 4294967296; lia).
  rewrite (s32_small (samples q - si)) by (change (2 ^ 31) with 2147483648; lia).
  unfold QOA_FRAME_LEN, QOA_SLICES_PER_FRAME, QOA_SLICE_LEN. change (256 * 20) with 5120.
  rewrite (qoa_clamp_min 5120 (samples q - si)) by lia. cbv zeta.
  set (fl := Z.min 5120 (samples q - si)).
  rewrite (u32_small fl) by (change (2 ^ 32) with 4294967296; lia).
  rewrite (s32_small (si + fl)) by (change (2 ^ 31) with 2147483648; lia).
  reflexivity.
Qed.

Lemma qoa_encode_frames_done fuel sd q bytes si p :
  0 <= si -> samples q <= si < 2 ^ 32 ->
  qoa_encode_frames fuel sd q bytes si p = (p, q, bytes).
Proof.
  intros H0 H. destruct fuel; [reflexivity|]. cbn [qoa_encode_frames].
  rewrite (u32_small si) by lia.
  destruct (Z.ltb_spec si (samples q)); [lia|reflexivity].
Qed.

(** The cursor of the frame loop, modulo 2^32. *)
Lemma qoa_encode_frames_len sd :
  forall fuel q bytes si p,
    1 <= channels q <= 8 -> samples q <= INT_MAX ->
    0 <= si <= samples q -> si mod 5120 = 0 \/ si = samples q ->
    samples q - si <= Z.of_nat fuel ->
    0 <= p < 2 ^ 32 ->
    let '(pf, qf, bf) := qoa_encode_frames fuel sd q bytes si p in
    pf = u32 (p + frames_size (channels q) (samples q) - frames_size (channels q) si)
    /\ same_fields q qf /\ length bf = length bytes.
Proof.
  induction fuel as [|fuel IH]; intros q bytes si p Hch Hmax Hsi Hal Hf Hp.
  - assert (si = samples q) by lia. subst si. cbn [qoa_encode_frames].
    replace (p + _ - _) with p by lia. rewrite u32_small by lia.
    split; [reflexivity|]. split; [apply same_fields_refl|reflexivity].
  - destruct (Z.eq_dec si (samples q)) as [->|Hne].
    + rewrite qoa_encode_frames_done; [|lia|].
      2:{ unfold INT_MAX in Hmax. change (2 ^ 31) with 2147483648 in Hmax.
          change (2 ^ 32) with 4294967296. lia. }
      replace (p + _ - _) with p by lia. rewrite u32_small by lia.
      split; [reflexivity|]. split; [apply same_fields_refl|reflexivity].
    + destruct Hal as [Hm|]; [|contradiction].
      rewrite qoa_encode_frames_step by lia. cbv zeta.
      set (fl := Z.min 5120 (samples q - si)).
      pose proof (qoa_encode_frame_inv sd (u32 (si * channels q)) q fl bytes p
                    Hch ltac:(lia)) as HF.
      cbv zeta in HF.
      destruct (qoa_encode_frame sd (u32 (si * channels q)) q fl bytes p)
        as [[fs q1] bytes1].
      destruct HF as (F1 & F2 & [F3 _] & _).
      pose proof F2 as (C1 & C2 & C3 & C4).
      specialize (IH q1 bytes1 (si + fl) (u32 (p + fs))).
      rewrite C1, C3 in IH.
      specialize (IH Hch Hmax ltac:(lia)).
      destruct (qoa_encode_frames fuel sd q1 bytes1 (si + fl) (u32 (p + fs)))
        as [[pf qf] bf].
      destruct IH as (I1 & I2 & I3).
      * destruct (Z.eq_dec fl 5120) as [E|E].
        -- left. rewrite E. replace (si + 5120) with (si + 1 * 5120) by lia.
           rewrite Z.mod_add by lia. exact Hm.
        -- right. lia.
      * lia.
      * apply u32_range.
      * split; [|split; [eapply same_fields_trans; eassumption|congruence]].
        rewrite I1.
        pose proof (frames_size_step (channels q) si (samples q) Hm ltac:(lia)) as ST.
        cbv zeta in ST. fold fl in ST.
        match goal with |- u32 (u32 ?a + ?b - ?c) = _ =>
          replace (u32 a + b - c) with (u32 a + (b - c)) by lia
        end.
        rewrite u32_add_l. f_equal. lia.
Qed.

Lemma magic_word_sum n :
  0 <= n < 2 ^ 32 ->
  Z.lor (u64 (Z.shiftl QOA_MAGIC 32)) n = QOA_MAGIC * 2 ^ 32 + n.
Proof.
  intros H. unfold QOA_MAGIC.
  rewrite u64_shiftl_small by lia.
  apply (lor_disjoint_add _ n 32); [lia|apply Z.mod_mul; lia|exact H].
Qed.

Lemma qoa_encode_unfold sd q :
  valid_desc q -> samples q <= INT_MAX ->
  qoa_encode sd q =
  let bytes0 := repeat 0 (Z.to_nat (u32 (encoded_size q))) in
  let qi := qoa_encode_init_lms q in
  let w0 := QOA_MAGIC * 2 ^ 32 + samples q in
  let '(p, qf, bf) :=
    qoa_encode_frames (Z.to_nat (samples q)) sd qi (be64_put w0 bytes0 0) 0 8 in
  Some (bf, p, qf).
Proof.
  intros (Hc & Hr & Hs) Hmax. unfold INT_MAX in Hmax.
  change (2 ^ 31) with 2147483648 in Hmax. change (2 ^ 32) with 4294967296 in Hs.
  unfold qoa_encode.
  destruct (Z.eqb_spec (samples q) 0); [lia|].
  destruct (Z.eqb_spec (samplerate q) 0); [lia|].
  destruct (Z.gtb_spec (samplerate q) 16777215); [lia|].
  destruct (Z.eqb_spec (channels q) 0); [lia|].
  unfold QOA_MAX_CHANNELS.
  destruct (Z.gtb_spec (channels q) 8); [lia|].
  cbn [orb]. cbv zeta.
  destruct (encode_init_lms_inv q) as (I1 & I2 & I3 & _).
  unfold qoa_encode_header, qoa_write_u64. rewrite I3.
  change (u32 (0 + 8)) with 8. change (0 + 0) with 0.
  rewrite magic_word_sum by (change (2 ^ 32) with 4294967296; lia).
  unfold QOA_FRAME_LEN, QOA_SLICES_PER_FRAME, QOA_SLICE_LEN, QOA_LMS_LEN.
  change (256 * 20) with 5120.
  rewrite (u32_small (samples q + 5120 - 1)) by (change (2 ^ 32) with 4294967296; lia).
  rewrite (u32_small (samples q + 20 - 1)) by (change (2 ^ 32) with 4294967296; lia).
  unfold encoded_size. cbv zeta.
  replace (8 + (samples q + 5120 - 1) / 5120 * 8
           + (samples q + 5120 - 1) / 5120 * 4 * 4 * channels q
           + (samples q + 20 - 1) / 20 * 8 * channels q)
    with (8 + (samples q + 5120 - 1) / 5120 * 8
          + (samples q + 5120 - 1) / 5120 * 16 * channels q
          + (samples q + 20 - 1) / 20 * 8 * channels q) by ring.
  reflexivity.
Qed.

(** The length that [qoa_encode] reports, and the size of its buffer. *)
Lemma qoa_encode_len_mod sd q :
  valid_desc q -> samples q <= INT_MAX ->
  exists bytes q',
    qoa_encode sd q = Some (bytes, u32 (encoded_size q), q')
    /\ length bytes = Z.to_nat (u32 (encoded_size q))
    /\ same_fields q q'.
Proof.
  intros Hv Hmax. rewrite (qoa_encode_unfold sd q Hv Hmax). cbv zeta.
  destruct Hv as (Hc & Hr & Hs).
  destruct (encode_init_lms_inv q) as (I1 & I2 & I3 & I4 & _).
  set (qi := qoa_encode_init_lms q) in *.
  set (b1 := be64_put _ _ 0).
  pose proof (qoa_encode_frames_len sd (Z.to_nat (samples q)) qi b1 0 8) as HL.
  rewrite I1, I3 in HL.
  specialize (HL Hc Hmax ltac:(lia) ltac:(left; reflexivity) ltac:(lia) ltac:(lia)).
  destruct (qoa_encode_frames (Z.to_nat (samples q)) sd qi b1 0 8) as [[pf qf] bf].
  destruct HL as (L1 & L2 & L3).
  exists bf, qf. split; [|split].
  - rewrite L1, frames_size_0, encoded_size_eq, Z.sub_0_r. reflexivity.
  - rewrite L3. unfold b1. rewrite be64_put_length. apply repeat_length.
  - eapply same_fields_trans; [|exact L2]. repeat split; assumption.
Qed.

(** C4 (amended): for every valid descriptor with at most 2^31 - 1
    samples for which the sum
    8 + num_frames*8 + num_frames*16*channels + num_slices*8*channels,
    with num_frames = ceil(samples/5120) and num_slices = ceil(samples/20),
    is below 2^32, [qoa_encode] returns a buffer of that many bytes and
    that sum as the output length. *)
Theorem qoa_encode_length :
  forall sample_data qoa,
    valid_desc qoa -> samples qoa <= INT_MAX -> encoded_size qoa < 2 ^ 32 ->
    exists bytes qoa',
      qoa_encode sample_data qoa = Some (bytes, encoded_size qoa, qoa')
      /\ Z.of_nat (length bytes) = encoded_size qoa.
Proof.
  intros sd q Hv Hmax Hlt.
  destruct (qoa_encode_len_mod sd q Hv Hmax) as (bytes & q' & E & L & _).
  assert (Hu : u32 (encoded_size q) = encoded_size q).
  { apply u32_small. split; [|exact Hlt].
    rewrite encoded_size_eq. destruct Hv as (Hc & _ & Hs).
    pose proof (frames_size_mono (channels q) 0 (samples q) ltac:(lia) ltac:(lia)) as M.
    rewrite frames_size_0 in M. lia. }
  rewrite Hu in E, L. exists bytes, q'. split; [exact E|].
  rewrite L. apply Z2Nat.id. rewrite <- Hu. apply u32_range.
Qed.

Lemma qoa_encode_length_witness :
  exists bytes qoa',
    qoa_encode wave20 (desc0 1 8000 20) = Some (bytes, 40, qoa')
    /\ Z.of_nat (length bytes) = 40.
Proof.
  apply (qoa_encode_length wave20 (desc0 1 8000 20)).
  - unfold valid_desc. simpl. lia.
  - unfold INT_MAX. simpl. lia.
  - vm_compute. reflexivity.
Defined.

(** C4, as stated, fails: for 8 channels and 2^31 - 1 samples, a valid
    descriptor, the sum is 6928990336, and the output length is an
    [unsigned int], which cannot hold it. *)
Lemma qoa_encode_length_exceeds_unsigned_int :
  valid_desc (desc0 8 44100 (2 ^ 31 - 1))
  /\ samples (desc0 8 44100 (2 ^ 31 - 1)) <= INT_MAX
  /\ encoded_size (desc0 8 44100 (2 ^ 31 - 1)) = 6928990336
  /\ (forall out_len,
        is_u32 out_len -> out_len <> encoded_size (desc0 8 44100 (2 ^ 31 - 1)))
  /\ (forall sample_data bytes out_len qoa',
        qoa_encode sample_data (desc0 8 44100 (2 ^ 31 - 1)) = Some (bytes, out_len, qoa') ->
        is_u32 out_len).
Proof.
  assert (Hv : valid_desc (desc0 8 44100 (2 ^ 31 - 1))).
  { unfold valid_desc. simpl. lia. }
  assert (Hm : samples (desc0 8 44100 (2 ^ 31 - 1)) <= INT_MAX).
  { unfold INT_MAX. simpl. lia. }
  split; [exact Hv|]. split; [exact Hm|]. split; [reflexivity|]. split.
  - intros out_len H.
    assert (X : encoded_size (desc0 8 44100 (2 ^ 31 - 1)) = 6928990336) by reflexivity.
    rewrite X. unfold is_u32 in H. change (2 ^ 32) with 4294967296 in H. lia.
  - intros sd bytes out_len q' E.
    destruct (qoa_encode_len_mod sd (desc0 8 44100 (2 ^ 31 - 1)) Hv Hm)
      as (b & q2 & E2 & _).
    assert (Eo : u32 (encoded_size (desc0 8 44100 (2 ^ 31 - 1))) = out_len) by congruence.
    rewrite <- Eo. apply u32_range.
Qed.

(** ** Decoding what the encoder wrote *)

Lemma qoa_decode_frame_samples_short_len bytes base size qd sdd sp :
  length (snd (qoa_decode_frame bytes base size qd sdd sp)) = length sdd.
Proof.
  destruct (frame_rejected_dec bytes base size qd) as [R|A].
  - rewrite (qoa_decode_frame_rejects _ _ _ _ _ _ R). reflexivity.
  - pose proof (qoa_decode_frame_accepted_inv bytes base size qd sdd sp A) as I.
    cbv zeta in I.
    destruct (qoa_decode_frame bytes base size qd sdd sp) as [[[ret fl] q] sd'].
    destruct I as (_ & _ & _ & [L _] & _). exact L.
Qed.

(** A frame whose header is the one the frame encoder writes is accepted. *)
Lemma encoded_frame_accepted bytes base size qd ch sr fl :
  1 <= ch <= 8 -> 0 <= fl <= 5120 ->
  let fs := 8 + 16 * ch + 8 * ch * ((fl + 19) / 20) in
  fh_channels (be64_get bytes base) = ch ->
  fh_samplerate (be64_get bytes base) = sr ->
  fh_samples (be64_get bytes base) = fl ->
  fh_frame_size (be64_get bytes base) = fs ->
  channels qd = ch -> samplerate qd = sr -> fs <= size ->
  ~ frame_rejected bytes base size qd.
Proof.
  intros Hch Hfl fs E1 E2 E3 E4 C1 C2 Hsz. unfold frame_rejected. cbv zeta.
  rewrite E1, E2, E3, E4, C1, C2.
  assert (Hk : 0 <= (fl + 19) / 20) by (apply Z.div_pos; lia).
  assert (Hk2 : fl <= 20 * ((fl + 19) / 20)).
  { pose proof (Z.div_mod (fl + 19) 20 ltac:(lia)).
    pose proof (Z.mod_pos_bound (fl + 19) 20 ltac:(lia)). lia. }
  set (k := (fl + 19) / 20) in *.
  assert (Q : Z.quot (fs - 8 - 16 * ch) 8 = ch * k).
  { unfold fs. replace (8 + 16 * ch + 8 * ch * k - 8 - 16 * ch) with (ch * k * 8) by ring.
    apply Z.quot_mul. lia. }
  rewrite Q. unfold fs. nia.
Qed.

(** The frame loop of the encoder lays the frames out one after the other,
    and the frame loop of the decoder walks through them to the end. *)
Lemma qoa_encode_frames_layout sd ch sr n :
  1 <= ch <= 8 -> 1 <= sr <= 16777215 -> n <= INT_MAX ->
  forall fuel q bytes si p,
    channels q = ch -> samplerate q = sr -> samples q = n ->
    0 <= si <= n -> si mod 5120 = 0 \/ si = n ->
    n - si <= Z.of_nat fuel ->
    p = 8 + frames_size ch si ->
    8 + frames_size ch n <= Z.of_nat (length bytes) ->
    8 + frames_size ch n < 2 ^ 32 ->
    let '(pf, qf, bf) := qoa_encode_frames fuel sd q bytes si p in
    pf = 8 + frames_size ch n /\ same_fields q qf /\ same_below p bytes bf /\
    (Forall is_byte bytes -> Forall is_byte bf) /\
    (si < n ->
     fh_channels (be64_get bf p) = ch /\ fh_samplerate (be64_get bf p) = sr /\
     fh_samples (be64_get bf p) = Z.min 5120 (n - si) /\
     fh_frame_size (be64_get bf p)
     = 8 + 16 * ch + 8 * ch * ((Z.min 5120 (n - si) + 19) / 20)) /\
    (si < n ->
     forall fuel_d qd sdd,
       channels qd = ch -> samplerate qd = sr -> samples qd = n ->
       n * ch <= Z.of_nat (length sdd) -> n * ch < 2 ^ 32 ->
       pf - p < Z.of_nat fuel_d ->
       exists qd' sdd',
         qoa_decode_frames fuel_d bf (8 + frames_size ch n) qd sdd p si
           = Ok (qd', sdd', pf, n)
         /\ same_fields qd qd' /\ length sdd' = length sdd).
Proof.
  intros Hch Hsr Hmax.
  assert (Hmax' : n <= 2147483647) by (unfold INT_MAX in Hmax; lia).
  induction fuel as [|fuel IH]; intros q bytes si p Cc Cr Cs Hsi Hal Hf Hp Hlen Hlim.
  - assert (si = n) by lia. subst si. cbn [qoa_encode_frames].
    split; [exact Hp|]. split; [apply same_fields_refl|].
    split; [apply same_below_refl|]. split; [auto|]. split; lia.
  - destruct (Z.eq_dec si n) as [->|Hne].
    + rewrite qoa_encode_frames_done; [|lia|rewrite Cs; change (2 ^ 32) with 4294967296; lia].
      split; [exact Hp|]. split; [apply same_fields_refl|].
      split; [apply same_below_refl|]. split; [auto|]. split; lia.
    + destruct Hal as [Hm|]; [|contradiction].
      rewrite qoa_encode_frames_step by (rewrite ?Cs; lia). cbv zeta. rewrite Cs, Cc.
      set (fl := Z.min 5120 (n - si)).
      assert (Hfl : 1 <= fl <= 5120) by lia.
      pose proof (frames_size_step ch si n Hm ltac:(lia)) as ST.
      cbv zeta in ST. fold fl in ST.
      pose proof (frames_size_mono ch (si + fl) n ltac:(lia) ltac:(lia)) as MO.
      pose proof (frames_size_mono ch 0 si ltac:(lia) ltac:(lia)) as MO0.
      rewrite frames_size_0 in MO0.
      assert (Hk : 0 <= (fl + 19) / 20) by (apply Z.div_pos; lia).
      pose proof (qoa_encode_frame_inv sd (u32 (si * ch)) q fl bytes p
                    ltac:(rewrite Cc; exact Hch) ltac:(lia)) as HF.
      cbv zeta in HF. rewrite Cc, Cr in HF.
      set (fs := 8 + 16 * ch + 8 * ch * ((fl + 19) / 20)) in *.
      assert (Hfs : 24 <= fs) by (unfold fs; nia).
      destruct (qoa_encode_frame sd (u32 (si * ch)) q fl bytes p) as [[ret q1] bytes1].
      destruct HF as (F1 & F2 & F3 & F4 & F5). subst ret.
      specialize (F5 ltac:(lia) ltac:(lia) ltac:(change (2 ^ 24) with 16777216; lia)).
      destruct F5 as (_ & H1 & H2 & H3 & H4).
      pose proof F2 as (D1 & D2 & D3 & D4).
      rewrite (u32_small (p + fs)) by lia.
      specialize (IH q1 bytes1 (si + fl) (p + fs)
                    ltac:(congruence) ltac:(congruence) ltac:(congruence) ltac:(lia)).
      assert (Hal' : (si + fl) mod 5120 = 0 \/ si + fl = n).
      { destruct (Z.eq_dec fl 5120) as [E|E].
        - left. rewrite E. replace (si + 5120) with (si + 1 * 5120) by lia.
          rewrite Z.mod_add by lia. exact Hm.
        - right. lia. }
      destruct F3 as [F3l F3g].
      specialize (IH Hal' ltac:(lia) ltac:(lia) ltac:(lia) Hlim).
      destruct (qoa_encode_frames fuel sd q1 bytes1 (si + fl) (p + fs)) as [[pf qf] bf].
      destruct IH as (I1 & I2 & I3 & I4 & _ & I5).
      (* the header of this frame is still in the final buffer *)
      assert (Eh : be64_get bf p = be64_get bytes1 p)
        by (apply (be64_get_same_below _ _ _ _ I3); lia).
      rewrite <- Eh in H1, H2, H3, H4.
      split; [exact I1|]. split; [eapply same_fields_trans; eassumption|].
      split; [apply (same_below_trans p (p + fs) _ bytes1); [lia|split; assumption|exact I3]|].
      split; [auto|]. split; [intros _; repeat split; assumption|].
      intros _ fuel_d qd sdd Q1 Q2 Q3 Hsd Hsd32 Hfd.
      destruct fuel_d as [|fuel_d]; [lia|].
      cbn [qoa_decode_frames].
      assert (Hsz : u32 (8 + frames_size ch n - p) = 8 + frames_size ch n - p)
        by (apply u32_small; lia).
      rewrite Hsz.
      assert (A : ~ frame_rejected bf p (8 + frames_size ch n - p) qd).
      { apply (encoded_frame_accepted bf p _ qd ch sr fl Hch ltac:(lia));
          try assumption. fold fs. lia. }
      pose proof (qoa_decode_frame_accepted_inv bf p (8 + frames_size ch n - p) qd sdd
                    (u32 (si * channels qd)) A) as DI.
      cbv zeta in DI. rewrite H1, H3 in DI.
      destruct (qoa_decode_frame bf p (8 + frames_size ch n - p) qd sdd
                  (u32 (si * channels qd))) as [[[ret fl'] qd1] sdd1].
      destruct DI as (R1 & R2 & R3 & [R4 _] & _).
      assert (Er : ret = fs) by (unfold fs; lia). clear R1. subst ret fl'.
      pose proof R3 as (G1 & G2 & G3 & G4).
      assert (Hsp : u32 (si * channels qd) = si * channels qd).
      { apply u32_small. rewrite Q1. nia. }
      rewrite Hsp.
      rewrite frame_in_bounds_accepted;
        [|rewrite Q1; unfold QOA_MAX_CHANNELS; lia
         |rewrite Q1; fold fs; unfold fs; nia|lia| |rewrite Q1; nia].
      2:{ destruct I3 as [I3l _]. rewrite I3l, F3l. lia. }
      destruct (Z.eqb_spec fs 0) as [Z0|_]; [lia|]. cbn [negb andb].
      rewrite (u32_small (p + fs)) by lia.
      rewrite (u32_small (si + fl)) by (change (2 ^ 32) with 4294967296; lia).
      rewrite G3, Q3.
      destruct (Z.ltb_spec (si + fl) n) as [Lt|Ge].
      * destruct (I5 Lt fuel_d qd1 sdd1 ltac:(congruence) ltac:(congruence)
                    ltac:(congruence) ltac:(lia) Hsd32 ltac:(lia))
          as (qd' & sdd' & E & S1 & S2).
        exists qd', sdd'. split; [exact E|].
        split; [eapply same_fields_trans; eassumption|congruence].
      * assert (si + fl = n) by lia.
        assert (pf = p + fs).
        { rewrite I1. replace n with (si + fl) by lia. lia. }
        exists qd1, sdd1. split; [congruence|]. split; assumption.
Qed.


Lemma qoa_decode_frames_length bytes size :
  forall fuel qd sdd p si qd' sdd' p' si',
    qoa_decode_frames fuel bytes size qd sdd p si = Ok (qd', sdd', p', si') ->
    length sdd' = length sdd.
Proof.
  induction fuel as [|fuel IH]; intros qd sdd p si qd' sdd' p' si' E; [discriminate E|].
  cbn [qoa_decode_frames] in E.
  pose proof (qoa_decode_frame_samples_short_len bytes p (u32 (size - p)) qd sdd
                (u32 (si * channels qd))) as L.
  destruct (qoa_decode_frame bytes p (u32 (size - p)) qd sdd (u32 (si * channels qd)))
    as [[[ret fl] q1] sd1].
  cbn [snd] in L.
  destruct (frame_in_bounds _ _ _ _ _ _ _ _); [|discriminate E].
  destruct (negb (ret =? 0) && (u32 (si + fl) <? samples q1)).
  - apply IH in E. congruence.
  - inversion E; subst. exact L.
Qed.

Lemma repeat_zero_bytes n : Forall is_byte (repeat 0 n).
Proof. apply Forall_forall. intros x Hx. apply repeat_spec in Hx. subst. unfold is_byte; lia. Qed.

(** The file that [qoa_encode] writes when the sizes fit 32 bits. *)
Lemma qoa_encode_layout sd q :
  valid_desc q -> samples q <= INT_MAX -> encoded_size q < 2 ^ 32 ->
  exists bf qf,
    qoa_encode sd q = Some (bf, encoded_size q, qf)
    /\ Z.of_nat (length bf) = encoded_size q
    /\ Forall is_byte bf
    /\ same_fields q qf
    /\ be64_get bf 0 = QOA_MAGIC * 2 ^ 32 + samples q
    /\ fh_channels (be64_get bf 8) = channels q
    /\ fh_samplerate (be64_get bf 8) = samplerate q
    /\ fh_samples (be64_get bf 8) = Z.min 5120 (samples q)
    /\ fh_frame_size (be64_get bf 8)
       = 8 + 16 * channels q + 8 * channels q * ((Z.min 5120 (samples q) + 19) / 20)
    /\ (forall fuel_d qd sdd,
          channels qd = channels q -> samplerate qd = samplerate q ->
          samples qd = samples q ->
          samples q * channels q <= Z.of_nat (length sdd) ->
          samples q * channels q < 2 ^ 32 ->
          encoded_size q - 8 < Z.of_nat fuel_d ->
          exists qd' sdd',
            qoa_decode_frames fuel_d bf (encoded_size q) qd sdd 8 0
              = Ok (qd', sdd', encoded_size q, samples q)
            /\ same_fields qd qd' /\ length sdd' = length sdd).
Proof.
  intros Hv Hmax Hlt. rewrite (qoa_encode_unfold sd q Hv Hmax). cbv zeta.
  pose proof Hv as (Hc & Hr & Hs).
  destruct (encode_init_lms_inv q) as (I1 & I2 & I3 & I4 & _).
  set (qi := qoa_encode_init_lms q) in *.
  pose proof (frames_size_mono (channels q) 0 (samples q) ltac:(lia) ltac:(lia)) as M0.
  pose proof (frames_size_mono (channels q) 1 (samples q) ltac:(lia) ltac:(lia)) as M1.
  rewrite frames_size_0 in M0.
  assert (F1 : frames_size (channels q) 1 = 8 + 16 * channels q + 8 * channels q).
  { rewrite frames_size_eq. change ((1 + 5119) / 5120) with 1.
    change ((1 + 19) / 20) with 1. ring. }
  assert (Hsz : u32 (encoded_size q) = encoded_size q).
  { apply u32_small. rewrite encoded_size_eq. rewrite encoded_size_eq in Hlt. lia. }
  rewrite Hsz. rewrite encoded_size_eq in *.
  set (T := 8 + frames_size (channels q) (samples q)) in *.
  set (w0 := QOA_MAGIC * 2 ^ 32 + samples q).
  set (b0 := repeat 0 (Z.to_nat T)).
  assert (Lb0 : Z.of_nat (length b0) = T) by (unfold b0; rewrite repeat_length; lia).
  set (b1 := be64_put w0 b0 0).
  assert (Lb1 : Z.of_nat (length b1) = T) by (unfold b1; rewrite be64_put_length; exact Lb0).
  pose proof (qoa_encode_frames_layout sd (channels q) (samplerate q) (samples q)
                Hc Hr Hmax (Z.to_nat (samples q)) qi b1 0 8
                I1 I2 I3 ltac:(lia) ltac:(left; reflexivity) ltac:(lia)
                ltac:(rewrite frames_size_0; lia) ltac:(fold T; lia) ltac:(fold T; lia))
    as HL.
  destruct (qoa_encode_frames (Z.to_nat (samples q)) sd qi b1 0 8) as [[pf qf] bf].
  destruct HL as (L1 & L2 & L3 & L4 & L5 & L6). fold T in L1, L6. subst pf.
  specialize (L5 ltac:(lia)). rewrite Z.sub_0_r in L5.
  exists bf, qf. split; [reflexivity|].
  split; [destruct L3 as [L3l _]; rewrite L3l; exact Lb1|].
  split; [apply L4; unfold b1; apply be64_put_bytes; apply repeat_zero_bytes|].
  split; [eapply same_fields_trans; [|exact L2]; repeat split; assumption|].
  split.
  { rewrite (be64_get_same_below _ _ _ _ L3) by lia.
    unfold b1. apply be64_get_put; [lia|lia|].
    unfold w0, QOA_MAGIC. change (2 ^ 64) with 18446744073709551616.
    change (2 ^ 32) with 4294967296 in *. lia. }
  destruct L5 as (L5a & L5b & L5c & L5d).
  split; [exact L5a|]. split; [exact L5b|]. split; [exact L5c|]. split; [exact L5d|].
  intros fuel_d qd sdd Q1 Q2 Q3 Hsd Hsd32 Hf.
  apply (L6 ltac:(lia) fuel_d qd sdd Q1 Q2 Q3 Hsd Hsd32). lia.
Qed.







(** * Further properties of the codec *)

(** ** Words in the buffer *)

Lemma byte_of_word_mod v k :
  0 <= k <= 56 ->
  Z.land (Z.shiftr (u64 v) k) 255 = Z.land (Z.shiftr v k) 255.
Proof.
  intros Hk. apply Z.bits_inj'. intros n Hn.
  rewrite !Z.land_spec, !Z.shiftr_spec by lia.
  destruct (Z_lt_dec n 8) as [L|G].
  - unfold u64. rewrite Z.mod_pow2_bits_low by lia. reflexivity.
  - assert (E : Z.testbit 255 n = false).
    { change 255 with (Z.ones 8). apply Z.ones_spec_high. lia. }
    rewrite E, !andb_false_r. reflexivity.
Qed.

Lemma be64_put_u64 v bytes b : be64_put (u64 v) bytes b = be64_put v bytes b.
Proof. unfold be64_put. cbv zeta. rewrite !byte_of_word_mod by lia. reflexivity. Qed.

(** A word written with [qoa_write_u64] is read back by [qoa_read_u64] from
    the same cursor, as its low 64 bits; both move the cursor by 8, and
    the write changes nothing but the eight bytes at the cursor. *)
Theorem qoa_write_read_u64 :
  forall v bytes base p,
    0 <= base + p -> base + p + 8 <= Z.of_nat (length bytes) ->
    let '(bytes', p') := qoa_write_u64 v bytes base p in
    qoa_read_u64 bytes' base p = (u64 v, p')
    /\ p' = u32 (p + 8)
    /\ length bytes' = length bytes
    /\ (forall i, i < base + p \/ base + p + 8 <= i -> Buf.get bytes' i = Buf.get bytes i)
    /\ (Forall is_byte bytes -> Forall is_byte bytes').
Proof.
  intros v bytes base p H0 H8. unfold qoa_write_u64, qoa_read_u64.
  split; [|split; [reflexivity|split; [apply be64_put_length|split]]].
  - f_equal. rewrite <- be64_put_u64.
    apply be64_get_put; [assumption|assumption|apply u64_range].
  - intros i Hi. apply be64_put_get_other. exact Hi.
  - apply be64_put_bytes.
Qed.

Lemma qoa_write_read_u64_witness :
  let '(bytes', p') := qoa_write_u64 (2 ^ 64 + 0x0102030405060708) (repeat 0 16) 4 4 in
  qoa_read_u64 bytes' 4 4 = (u64 (2 ^ 64 + 0x0102030405060708), p')
  /\ p' = u32 (4 + 8)
  /\ length bytes' = length (repeat 0 16)
  /\ (forall i, i < 4 + 4 \/ 4 + 4 + 8 <= i -> Buf.get bytes' i = Buf.get (repeat 0 16) i)
  /\ (Forall is_byte (repeat 0 16) -> Forall is_byte bytes').
Proof.
  apply (qoa_write_read_u64 (2 ^ 64 + 0x0102030405060708) (repeat 0 16) 4 4).
  - lia.
  - simpl. lia.
Defined.

(** ** The file header *)

(** [qoa_decode_header] returns 0 exactly on a malformed header; otherwise
    it returns 8, so that the frame header it looked at is read again, and
    it leaves the descriptor with the sample count of the file header and
    the channels and samplerate of the first frame header, all nonzero and
    within 32, 8 and 24 bits, and with the LMS states it had. *)
Theorem qoa_decode_header_spec :
  forall bytes size qoa,
    (header_malformed bytes size -> fst (qoa_decode_header bytes size qoa) = 0)
    /\ (~ header_malformed bytes size ->
        let '(ret, q) := qoa_decode_header bytes size qoa in
        ret = 8
        /\ samples q = Z.land (be64_get bytes 0) 0xffffffff
        /\ channels q = fh_channels (be64_get bytes 8)
        /\ samplerate q = fh_samplerate (be64_get bytes 8)
        /\ 1 <= samples q < 2 ^ 32
        /\ 1 <= channels q <= 255
        /\ 1 <= samplerate q <= 16777215
        /\ lms q = lms qoa).
Proof.
  intros bytes size qoa. split.
  - apply qoa_decode_header_malformed.
  - intros H. rewrite (qoa_decode_header_ok _ _ _ H).
    cbn [samples channels samplerate lms].
    pose proof (fh_channels_range (be64_get bytes 8)).
    pose proof (fh_samplerate_range (be64_get bytes 8)).
    pose proof (land_mask (be64_get bytes 0) 32 ltac:(lia)) as M.
    change (Z.ones 32) with 4294967295 in M.
    unfold header_malformed in H.
    repeat split; try reflexivity; lia.
Qed.

Lemma qoa_decode_header_spec_witness :
  let '(ret, q) := qoa_decode_header bytes16 16 (desc0 0 0 0) in
  ret = 8
  /\ samples q = Z.land (be64_get bytes16 0) 0xffffffff
  /\ channels q = fh_channels (be64_get bytes16 8)
  /\ samplerate q = fh_samplerate (be64_get bytes16 8)
  /\ 1 <= samples q < 2 ^ 32
  /\ 1 <= channels q <= 255
  /\ 1 <= samplerate q <= 16777215
  /\ lms q = lms (desc0 0 0 0).
Proof.
  apply (proj2 (qoa_decode_header_spec bytes16 16 (desc0 0 0 0))).
  exact bytes16_header_ok.
Defined.

(** ** The descriptors the encoder turns down *)

(** [qoa_encode] returns [NULL] exactly when the sample count is 0, the
    samplerate is 0 or above 0xffffff, or the channel count is 0 or above 8. *)
Theorem qoa_encode_null_iff_invalid :
  forall sample_data qoa,
    qoa_encode sample_data qoa = None
    <-> (samples qoa = 0
         \/ samplerate qoa = 0 \/ samplerate qoa > 0xffffff
         \/ channels qoa = 0 \/ channels qoa > QOA_MAX_CHANNELS).
Proof.
  intros sd q. unfold qoa_encode.
  destruct (Z.eqb_spec (samples q) 0) as [A|A];
  destruct (Z.eqb_spec (samplerate q) 0) as [B|B];
  destruct (Z.gtb_spec (samplerate q) 16777215) as [C|C];
  destruct (Z.eqb_spec (channels q) 0) as [D|D];
  destruct (Z.gtb_spec (channels q) QOA_MAX_CHANNELS) as [E|E];
  cbn [orb]; cbv zeta;
  try (split; [intros _; lia|reflexivity]).
  destruct (qoa_encode_header _ _) as [b p].
  destruct (qoa_encode_frames _ _ _ _ _ _) as [[p' q'] b'].
  split; [discriminate|lia].
Qed.

(** ** The file the encoder writes *)

Lemma be64_get_digits bytes b w :
  Forall is_byte bytes -> be64_get bytes b = w ->
  Buf.get bytes b = (w / 2 ^ 56) mod 256
  /\ Buf.get bytes (b + 1) = (w / 2 ^ 48) mod 256
  /\ Buf.get bytes (b + 2) = (w / 2 ^ 40) mod 256
  /\ Buf.get bytes (b + 3) = (w / 2 ^ 32) mod 256
  /\ Buf.get bytes (b + 4) = (w / 2 ^ 24) mod 256
  /\ Buf.get bytes (b + 5) = (w / 2 ^ 16) mod 256
  /\ Buf.get bytes (b + 6) = (w / 2 ^ 8) mod 256
  /\ Buf.get bytes (b + 7) = w mod 256.
Proof.
  intros Hb <-. rewrite be64_get_sum by (intros; apply get_is_byte; exact Hb).
  rewrite Z.add_0_r.
  pose proof (get_is_byte bytes b Hb) as H0. pose proof (get_is_byte bytes (b + 1) Hb) as H1.
  pose proof (get_is_byte bytes (b + 2) Hb) as H2. pose proof (get_is_byte bytes (b + 3) Hb) as H3.
  pose proof (get_is_byte bytes (b + 4) Hb) as H4. pose proof (get_is_byte bytes (b + 5) Hb) as H5.
  pose proof (get_is_byte bytes (b + 6) Hb) as H6. pose proof (get_is_byte bytes (b + 7) Hb) as H7.
  unfold is_byte in *.
  change (2 ^ 56) with 72057594037927936. change (2 ^ 48) with 281474976710656.
  change (2 ^ 40) with 1099511627776. change (2 ^ 32) with 4294967296.
  change (2 ^ 24) with 16777216. change (2 ^ 16) with 65536. change (2 ^ 8) with 256.
  repeat split; Z.div_mod_to_equations; lia.
Qed.

(** For a valid descriptor whose file fits 32 bits, the buffer that
    [qoa_encode] returns has exactly the length it reports, holds bytes
    only, starts with 'q' 'o' 'a' 'f' and the sample count in big-endian
    order, and goes on with a frame header that carries the channels and the
    samplerate of the descriptor; the descriptor keeps these fields. *)
Theorem qoa_encode_file_layout :
  forall sample_data qoa,
    valid_desc qoa -> samples qoa <= INT_MAX -> encoded_size qoa < 2 ^ 32 ->
    exists bytes qoa',
      qoa_encode sample_data qoa = Some (bytes, encoded_size qoa, qoa')
      /\ Z.of_nat (length bytes) = encoded_size qoa
      /\ Forall is_byte bytes
      /\ firstn 4 bytes = [0x71; 0x6f; 0x61; 0x66]
      /\ Buf.get bytes 4 * 2 ^ 24 + Buf.get bytes 5 * 2 ^ 16
         + Buf.get bytes 6 * 2 ^ 8 + Buf.get bytes 7 = samples qoa
      /\ fh_channels (be64_get bytes 8) = channels qoa
      /\ fh_samplerate (be64_get bytes 8) = samplerate qoa
      /\ channels qoa' = channels qoa /\ samplerate qoa' = samplerate qoa
      /\ samples qoa' = samples qoa.
Proof.
  intros sd q Hv Hmax Hlt.
  destruct (qoa_encode_layout sd q Hv Hmax Hlt)
    as (bf & qf & E & Lb & By & (S1 & S2 & S3 & _) & W0 & Wc & Wr & _).
  exists bf, qf. split; [exact E|]. split; [exact Lb|]. split; [exact By|].
  destruct Hv as (Hc & Hr & Hs).
  destruct (be64_get_digits bf 0 _ By W0) as (D0 & D1 & D2 & D3 & D4 & D5 & D6 & D7).
  cbn [Z.add] in D1, D2, D3, D4, D5, D6, D7.
  assert (L40 : 40 <= Z.of_nat (length bf)).
  { rewrite Lb, encoded_size_eq.
    pose proof (frames_size_mono (channels q) 1 (samples q) ltac:(lia) ltac:(lia)) as M1.
    rewrite (frames_size_eq _ 1) in M1. change ((1 + 5119) / 5120) with 1 in M1.
    change ((1 + 19) / 20) with 1 in M1. lia. }
  unfold QOA_MAGIC in *.
  change (2 ^ 56) with 72057594037927936 in *. change (2 ^ 48) with 281474976710656 in *.
  change (2 ^ 40) with 1099511627776 in *. change (2 ^ 32) with 4294967296 in *.
  change (2 ^ 24) with 16777216 in *. change (2 ^ 16) with 65536 in *.
  change (2 ^ 8) with 256 in *.
  split.
  { destruct bf as [|x0 [|x1 [|x2 [|x3 t]]]]; cbn [length] in L40; try lia.
    change (Buf.get (x0 :: x1 :: x2 :: x3 :: t) 0) with x0 in D0.
    change (Buf.get (x0 :: x1 :: x2 :: x3 :: t) 1) with x1 in D1.
    change (Buf.get (x0 :: x1 :: x2 :: x3 :: t) 2) with x2 in D2.
    change (Buf.get (x0 :: x1 :: x2 :: x3 :: t) 3) with x3 in D3.
    cbn [firstn].
    assert (X0 : x0 = 113) by (rewrite D0; Z.div_mod_to_equations; lia).
    assert (X1 : x1 = 111) by (rewrite D1; Z.div_mod_to_equations; lia).
    assert (X2 : x2 = 97) by (rewrite D2; Z.div_mod_to_equations; lia).
    assert (X3 : x3 = 102) by (rewrite D3; Z.div_mod_to_equations; lia).
    rewrite X0, X1, X2, X3. reflexivity. }
  split.
  { rewrite D4, D5, D6, D7. Z.div_mod_to_equations. lia. }
  auto.
Qed.

Lemma qoa_encode_file_layout_witness :
  exists bytes qoa',
    qoa_encode wave20 (desc0 1 8000 20) = Some (bytes, encoded_size (desc0 1 8000 20), qoa')
    /\ Z.of_nat (length bytes) = encoded_size (desc0 1 8000 20)
    /\ Forall is_byte bytes
    /\ firstn 4 bytes = [0x71; 0x6f; 0x61; 0x66]
    /\ Buf.get bytes 4 * 2 ^ 24 + Buf.get bytes 5 * 2 ^ 16
       + Buf.get bytes 6 * 2 ^ 8 + Buf.get bytes 7 = samples (desc0 1 8000 20)
    /\ fh_channels (be64_get bytes 8) = channels (desc0 1 8000 20)
    /\ fh_samplerate (be64_get bytes 8) = samplerate (desc0 1 8000 20)
    /\ channels qoa' = channels (desc0 1 8000 20)
    /\ samplerate qoa' = samplerate (desc0 1 8000 20)
    /\ samples qoa' = samples (desc0 1 8000 20).
Proof.
  apply (qoa_encode_file_layout wave20 (desc0 1 8000 20)).
  - unfold valid_desc. simpl. lia.
  - unfold INT_MAX. simpl. lia.
  - vm_compute. reflexivity.
Defined.

(** ** The frame the encoder writes *)

Lemma same_outside_refl lo hi b : same_outside lo hi b b.
Proof. split; auto. Qed.

Lemma same_outside_trans lo hi b1 b2 b3 :
  same_outside lo hi b1 b2 -> same_outside lo hi b2 b3 -> same_outside lo hi b1 b3.
Proof.
  intros [L1 H1] [L2 H2]. split; [congruence|].
  intros i Hi. rewrite H2 by exact Hi. apply H1. exact Hi.
Qed.

Lemma same_outside_put lo hi v bytes b :
  lo <= b -> b + 8 <= hi -> same_outside lo hi bytes (be64_put v bytes b).
Proof.
  intros H1 H2. split; [apply be64_put_length|].
  intros i Hi. apply be64_put_get_other. lia.
Qed.

Lemma qoa_encode_frame_lms_outside q base ch bytes0 p0 lo hi :
  0 <= ch -> 0 <= p0 -> p0 + 16 * ch < 2 ^ 32 ->
  lo <= base + p0 -> base + p0 + 16 * ch <= hi ->
  same_outside lo hi bytes0 (fst (qoa_encode_frame_lms q base ch (bytes0, p0))).
Proof.
  intros Hch Hp0 Hlim Hlo Hhi. unfold qoa_encode_frame_lms.
  apply (for_range_rule
    (fun i '(bytes, p) =>
       0 <= i <= ch /\ p = p0 + 16 * i /\ same_outside lo hi bytes0 bytes)
    (fun s => same_outside lo hi bytes0 (fst s))).
  - lia.
  - split; [lia|]. split; [lia|apply same_outside_refl].
  - intros i [bytes p] Hi (Hi0 & Hp & Hso).
    destruct (qoa_encode_lms (lms_get q i)) as [hw ww].
    unfold qoa_write_u64.
    split; [lia|]. split.
    + rewrite (u32_small (p + 8)) by lia. rewrite u32_small by lia. lia.
    + eapply same_outside_trans; [exact Hso|].
      eapply same_outside_trans; apply same_outside_put;
        rewrite ?u32_small by lia; lia.
  - intros i [bytes p] Hi (Hi0 & Hp & Hso). exact Hso.
Qed.

Lemma qoa_encode_slices_outside sd sbase ch frame_len base q0 bytes0 p0 lo hi :
  0 < ch -> 0 <= frame_len -> 0 <= p0 ->
  p0 + 8 * ch * ((frame_len + 19) / 20) < 2 ^ 32 ->
  lo <= base + p0 -> base + p0 + 8 * ch * ((frame_len + 19) / 20) <= hi ->
  same_outside lo hi bytes0
    (snd (fst (qoa_encode_slices sd sbase ch frame_len base (q0, bytes0, p0)))).
Proof.
  intros Hch Hn Hp0 Hlim Hlo Hhi. unfold qoa_encode_slices, QOA_SLICE_LEN.
  apply (for_range_rule
    (fun i '(q, bytes, p) =>
       0 <= i < frame_len + 20 /\ i mod 20 = 0 /\
       p = p0 + 8 * ch * (i / 20) /\ same_outside lo hi bytes0 bytes)
    (fun s => same_outside lo hi bytes0 (snd (fst s)))).
  - lia.
  - split; [lia|]. split; [reflexivity|].
    split; [change (0 / 20) with 0; lia|apply same_outside_refl].
  - intros i [[q bytes] p] Hi (Hi0 & Him & Hp & Hso).
    assert (Hdiv : (i + 20) / 20 = i / 20 + 1).
    { replace (i + 20) with (i + 1 * 20) by lia. rewrite Z.div_add by lia. reflexivity. }
    assert (Hle : i / 20 + 1 <= (frame_len + 19) / 20).
    { rewrite <- Hdiv. apply Z.div_le_mono; lia. }
    assert (Hmod : (i + 20) mod 20 = 0).
    { replace (i + 20) with (i + 1 * 20) by lia. rewrite Z.mod_add by lia. exact Him. }
    assert (Hq0 : 0 <= i / 20) by (apply Z.div_pos; lia).
    assert (Hmul : ch * (i / 20 + 1) <= ch * ((frame_len + 19) / 20))
      by (apply Z.mul_le_mono_nonneg_l; lia).
    apply (for_range_rule
      (fun c '(q', bytes', p') =>
         0 <= c <= ch /\ p' = p + 8 * c /\ same_outside lo hi bytes0 bytes')
      (fun s => let '(q', bytes', p') := s in
         0 <= i + 20 < frame_len + 20 /\ (i + 20) mod 20 = 0 /\
         p' = p0 + 8 * ch * ((i + 20) / 20) /\ same_outside lo hi bytes0 bytes')).
    + lia.
    + split; [lia|]. split; [lia|exact Hso].
    + intros c [[q' bytes'] p'] Hc (Hc0 & Hp' & Hso').
      unfold qoa_encode_slice.
      destruct (qoa_encode_slice_search _ _ _ _ _ _) as [[be bs] bl].
      unfold qoa_write_u64.
      split; [lia|]. split; [rewrite u32_small by nia; lia|].
      eapply same_outside_trans; [exact Hso'|]. apply same_outside_put; nia.
    + intros c [[q' bytes'] p'] Hc (Hc0 & Hp' & Hso').
      assert (c = ch) by lia. subst c.
      split; [lia|]. split; [exact Hmod|]. split; [rewrite Hdiv; lia|exact Hso'].
  - intros i [[q bytes] p] Hi (_ & _ & _ & Hso). exact Hso.
Qed.

Lemma qoa_max_frame_size_eq q :
  0 <= channels q <= 8 -> qoa_max_frame_size q = 8 + 16 * channels q + 2048 * channels q.
Proof.
  intros H. unfold qoa_max_frame_size, QOA_FRAME_SIZE, QOA_LMS_LEN, QOA_SLICES_PER_FRAME.
  rewrite u32_small by lia. lia.
Qed.

(** For a frame of at most 5120 samples and a valid channel count,
    [qoa_encode_frame] returns QOA_FRAME_SIZE(channels, ceil(frame_len/20)),
    which is at most [qoa_max_frame_size]; it changes the output only
    between the start of the frame and that many bytes further, and the
    frame starts with a header that carries the channels, the samplerate,
    [frame_len] and the size returned; the descriptor keeps its channels,
    samplerate and samples. *)
Theorem qoa_encode_frame_spec :
  forall sample_data sbase qoa frame_len bytes base,
    1 <= channels qoa <= 8 -> 0 <= samplerate qoa < 2 ^ 24 ->
    0 <= frame_len <= 5120 ->
    0 <= base -> base + 8 <= Z.of_nat (length bytes) ->
    let '(ret, qoa', bytes') :=
      qoa_encode_frame sample_data sbase qoa frame_len bytes base in
    ret = QOA_FRAME_SIZE (channels qoa) ((frame_len + 19) / 20)
    /\ ret <= qoa_max_frame_size qoa
    /\ same_outside base (base + ret) bytes bytes'
    /\ fh_channels (be64_get bytes' base) = channels qoa
    /\ fh_samplerate (be64_get bytes' base) = samplerate qoa
    /\ fh_samples (be64_get bytes' base) = frame_len
    /\ fh_frame_size (be64_get bytes' base) = ret
    /\ channels qoa' = channels qoa /\ samplerate qoa' = samplerate qoa
    /\ samples qoa' = samples qoa.
Proof.
  intros sd sbase q fl bytes base Hch Hsr Hfl Hb0 Hb8.
  pose proof (qoa_encode_frame_inv sd sbase q fl bytes base Hch Hfl) as I.
  cbv zeta in I.
  assert (Hk : 0 <= (fl + 19) / 20 <= 256).
  { split; [apply Z.div_pos; lia|].
    assert ((fl + 19) / 20 < 257) by (apply Z.div_lt_upper_bound; lia). lia. }
  (* the part of the output that changes *)
  assert (O : same_outside base
                (base + (8 + 16 * channels q + 8 * channels q * ((fl + 19) / 20)))
                bytes (snd (qoa_encode_frame sd sbase q fl bytes base))).
  { unfold qoa_encode_frame. cbv zeta.
    unfold qoa_write_u64 at 1. change (u32 (0 + 8)) with 8. rewrite Z.add_0_r.
    set (bytes1 := be64_put _ bytes base).
    pose proof (qoa_encode_frame_lms_inv q base (channels q) bytes1 8
                  ltac:(lia) ltac:(lia) ltac:(lia)) as HL.
    pose proof (qoa_encode_frame_lms_outside q base (channels q) bytes1 8 base
                  (base + (8 + 16 * channels q + 8 * channels q * ((fl + 19) / 20)))
                  ltac:(lia) ltac:(lia) ltac:(lia) ltac:(lia) ltac:(nia)) as HO.
    destruct (qoa_encode_frame_lms q base (channels q) (bytes1, 8)) as [bytes2 p2].
    destruct HL as (L1 & _). cbn [fst] in HO.
    pose proof (qoa_encode_slices_outside sd sbase (channels q) fl base q bytes2 p2 base
                  (base + (8 + 16 * channels q + 8 * channels q * ((fl + 19) / 20)))
                  ltac:(lia) ltac:(lia) ltac:(lia) ltac:(nia) ltac:(lia) ltac:(nia)) as HS.
    destruct (qoa_encode_slices sd sbase (channels q) fl base (q, bytes2, p2))
      as [[q3 bytes3] p3].
    cbn [fst snd] in *.
    eapply same_outside_trans; [|eapply same_outside_trans; [exact HO|exact HS]].
    unfold bytes1. apply same_outside_put; nia. }
  destruct (qoa_encode_frame sd sbase q fl bytes base) as [[ret q'] bytes'].
  cbn [snd] in O.
  destruct I as (I1 & (S1 & S2 & S3 & _) & _ & _ & I5).
  specialize (I5 Hb0 Hb8 Hsr). destruct I5 as (_ & H1 & H2 & H3 & H4).
  rewrite <- I1 in O, H4.
  split; [rewrite I1; unfold QOA_FRAME_SIZE, QOA_LMS_LEN; ring|].
  split; [rewrite I1, qoa_max_frame_size_eq by lia; nia|].
  split; [exact O|]. auto 10.
Qed.

Lemma qoa_encode_frame_spec_witness :
  let '(ret, qoa', bytes') :=
    qoa_encode_frame wave20 0 (desc0 1 8000 20) 20 (repeat 0 40) 8 in
  ret = QOA_FRAME_SIZE (channels (desc0 1 8000 20)) ((20 + 19) / 20)
  /\ ret <= qoa_max_frame_size (desc0 1 8000 20)
  /\ same_outside 8 (8 + ret) (repeat 0 40) bytes'
  /\ fh_channels (be64_get bytes' 8) = channels (desc0 1 8000 20)
  /\ fh_samplerate (be64_get bytes' 8) = samplerate (desc0 1 8000 20)
  /\ fh_samples (be64_get bytes' 8) = 20
  /\ fh_frame_size (be64_get bytes' 8) = ret
  /\ channels qoa' = channels (desc0 1 8000 20)
  /\ samplerate qoa' = samplerate (desc0 1 8000 20)
  /\ samples qoa' = samples (desc0 1 8000 20).
Proof.
  apply (qoa_encode_frame_spec wave20 0 (desc0 1 8000 20) 20 (repeat 0 40) 8).
  - simpl. lia.
  - simpl. lia.
  - lia.
  - lia.
  - simpl. lia.
Defined.

(** ** Quantization *)

Lemma clamp8_sign v :
  let c := qoa_clamp v (-8) 8 in
  -8 <= c <= 8 /\ (0 < v <-> 0 < c) /\ (v < 0 <-> c < 0).
Proof.
  cbv zeta. unfold qoa_clamp.
  destruct (Z.ltb_spec v (-8)); [lia|]. destruct (Z.gtb_spec v 8); lia.
Qed.

Lemma quantize_sign sf c :
  0 <= sf <= 15 -> -8 <= c <= 8 ->
  let quantized := Buf.get qoa_quant_tab (c + 8) in
  let dequantized := dequant sf quantized in
  0 <= quantized <= 7
  /\ (0 < c -> 0 < dequantized)
  /\ (c < 0 -> dequantized < 0)
  /\ (c = 0 -> dequantized = dequant sf 0 /\ 0 < dequantized).
Proof.
  intros Hsf Hc.
  assert (S : sf = 0 \/ sf = 1 \/ sf = 2 \/ sf = 3 \/ sf = 4 \/ sf = 5 \/ sf = 6 \/ sf = 7 \/
              sf = 8 \/ sf = 9 \/ sf = 10 \/ sf = 11 \/ sf = 12 \/ sf = 13 \/ sf = 14 \/
              sf = 15) by lia.
  assert (C : c = -8 \/ c = -7 \/ c = -6 \/ c = -5 \/ c = -4 \/ c = -3 \/ c = -2 \/ c = -1 \/
              c = 0 \/ c = 1 \/ c = 2 \/ c = 3 \/ c = 4 \/ c = 5 \/ c = 6 \/ c = 7 \/ c = 8)
    by lia.
  clear Hsf Hc.
  destruct S as [S|[S|[S|[S|[S|[S|[S|[S|[S|[S|[S|[S|[S|[S|[S|S]]]]]]]]]]]]]]]; subst sf;
  destruct C as [C|[C|[C|[C|[C|[C|[C|[C|[C|[C|[C|[C|[C|[C|[C|[C|C]]]]]]]]]]]]]]]]; subst c;
  vm_compute; repeat split; intros; try discriminate; reflexivity.
Qed.

Lemma dequant_range scalefactor quantized :
  -14336 <= dequant scalefactor quantized <= 14336.
Proof.
  unfold dequant. destruct (Z.ltb_spec scalefactor 0); [lia|].
  assert (R : forall row, In row qoa_dequant_tab \/ row = [] ->
                          -14336 <= Buf.get row quantized <= 14336).
  { intros row Hrow. unfold Buf.get. destruct (Z.ltb_spec quantized 0); [lia|].
    assert (F : Forall (fun x => -14336 <= x <= 14336) row).
    { destruct Hrow as [Hin| ->]; [|constructor].
      unfold qoa_dequant_tab in Hin. cbn [In] in Hin.
      repeat (destruct Hin as [<-|Hin]; [repeat constructor; lia|]). contradiction. }
    destruct (Nat.lt_ge_cases (Z.to_nat quantized) (length row)) as [L|G].
    - rewrite Forall_forall in F. apply F. apply nth_In. exact L.
    - rewrite nth_overflow by exact G. lia. }
  apply R.
  destruct (Nat.lt_ge_cases (Z.to_nat scalefactor) (length qoa_dequant_tab)) as [L|G].
  - left. apply nth_In. exact L.
  - right. apply nth_overflow. exact G.
Qed.

(** The residual, scaled and clamped, is quantized to an index of three
    bits, and the value it is dequantized to has the sign of the scaled
    residual (a scaled residual of 0 is given the least positive value) and
    a magnitude of at most 14336. *)
Theorem quantization_keeps_sign :
  forall scalefactor scaled,
    0 <= scalefactor <= 15 ->
    let clamped := qoa_clamp scaled (-8) 8 in
    let quantized := Buf.get qoa_quant_tab (clamped + 8) in
    let dequantized := dequant scalefactor quantized in
    0 <= quantized <= 7
    /\ (0 < scaled -> 0 < dequantized)
    /\ (scaled < 0 -> dequantized < 0)
    /\ (scaled = 0 -> dequantized = dequant scalefactor 0 /\ 0 < dequantized)
    /\ -14336 <= dequantized <= 14336.
Proof.
  intros sf scaled Hsf. cbv zeta.
  pose proof (dequant_range sf (Buf.get qoa_quant_tab (qoa_clamp scaled (-8) 8 + 8))) as R.
  pose proof (clamp8_sign scaled) as C. cbv zeta in C. destruct C as (C1 & C2 & C3).
  pose proof (quantize_sign sf (qoa_clamp scaled (-8) 8) Hsf C1) as Q. cbv zeta in Q.
  destruct Q as (Q1 & Q2 & Q3 & Q4).
  split; [exact Q1|]. split; [intros H; apply Q2, C2, H|].
  split; [intros H; apply Q3, C3, H|]. split; [|exact R].
  intros H. apply Q4. subst scaled. reflexivity.
Qed.

Lemma quantization_keeps_sign_witness :
  let clamped := qoa_clamp (-3) (-8) 8 in
  let quantized := Buf.get qoa_quant_tab (clamped + 8) in
  let dequantized := dequant 4 quantized in
  0 <= quantized <= 7
  /\ (0 < -3 -> 0 < dequantized)
  /\ (-3 < 0 -> dequantized < 0)
  /\ (-3 = 0 -> dequantized = dequant 4 0 /\ 0 < dequantized)
  /\ -14336 <= dequantized <= 14336.
Proof. apply (quantization_keeps_sign 4 (-3)). lia. Defined.

(** ** The arithmetic around the prediction *)

(** A prediction is an 19-bit value, so that neither the residual
    [sample - predicted] of a 16-bit sample nor the sum
    [predicted + dequantized] can leave the range of [int]: the values are
    the exact difference and sum. *)
Theorem prediction_arithmetic_exact :
  forall l scalefactor quantized sample,
    is_short sample ->
    - 2 ^ 18 <= qoa_lms_predict l < 2 ^ 18
    /\ s32 (sample - qoa_lms_predict l) = sample - qoa_lms_predict l
    /\ s32 (qoa_lms_predict l + dequant scalefactor quantized)
       = qoa_lms_predict l + dequant scalefactor quantized
    /\ -294911 <= sample - qoa_lms_predict l <= 294911.
Proof.
  intros l sf q sample Hs.
  pose proof (qoa_lms_predict_range l) as P.
  pose proof (dequant_range sf q) as D.
  unfold is_short in Hs. change (2 ^ 18) with 262144 in *.
  split; [exact P|].
  split; [apply s32_small; change (2 ^ 31) with 2147483648; lia|].
  split; [apply s32_small; change (2 ^ 31) with 2147483648; lia|lia].
Qed.

Lemma prediction_arithmetic_exact_witness :
  - 2 ^ 18 <= qoa_lms_predict lms0 < 2 ^ 18
  /\ s32 (-5 - qoa_lms_predict lms0) = -5 - qoa_lms_predict lms0
  /\ s32 (qoa_lms_predict lms0 + dequant 3 2) = qoa_lms_predict lms0 + dequant 3 2
  /\ -294911 <= -5 - qoa_lms_predict lms0 <= 294911.
Proof.
  apply (prediction_arithmetic_exact lms0 3 2 (-5)). unfold is_short. lia.
Defined.

(** ** The LMS state on the wire *)

Lemma qoa_encode_lms_eq l :
  qoa_encode_lms l =
  let pack a b c d :=
    Z.lor (u64 (Z.shiftl
      (Z.lor (u64 (Z.shiftl
        (Z.lor (u64 (Z.shiftl
          (Z.lor (u64 (Z.shiftl 0 16)) (Z.land a 0xffff)) 16)) (Z.land b 0xffff)) 16))
        (Z.land c 0xffff)) 16)) (Z.land d 0xffff) in
  (pack (a0 (history l)) (a1 (history l)) (a2 (history l)) (a3 (history l)),
   pack (a0 (weights l)) (a1 (weights l)) (a2 (weights l)) (a3 (weights l))).
Proof. destruct l as [[h0 h1 h2 h3] [w0 w1 w2 w3]]; reflexivity. Qed.

Lemma pack16_sum a b c d :
  Z.lor (u64 (Z.shiftl
    (Z.lor (u64 (Z.shiftl
      (Z.lor (u64 (Z.shiftl
        (Z.lor (u64 (Z.shiftl 0 16)) (Z.land a 0xffff)) 16)) (Z.land b 0xffff)) 16))
      (Z.land c 0xffff)) 16)) (Z.land d 0xffff)
  = (a mod 2 ^ 16) * 2 ^ 48 + (b mod 2 ^ 16) * 2 ^ 32
    + (c mod 2 ^ 16) * 2 ^ 16 + d mod 2 ^ 16.
Proof.
  rewrite !(land_ones_mod _ 16) by (reflexivity || lia).
  pose proof (Z.mod_pos_bound a (2 ^ 16) ltac:(lia)) as Ha.
  pose proof (Z.mod_pos_bound b (2 ^ 16) ltac:(lia)) as Hb.
  pose proof (Z.mod_pos_bound c (2 ^ 16) ltac:(lia)) as Hc.
  pose proof (Z.mod_pos_bound d (2 ^ 16) ltac:(lia)) as Hd.
  set (x := a mod 2 ^ 16) in *. set (y := b mod 2 ^ 16) in *.
  set (z := c mod 2 ^ 16) in *. set (t := d mod 2 ^ 16) in *.
  clearbody x y z t.
  change (u64 (Z.shiftl 0 16)) with 0. rewrite Z.lor_0_l.
  change (2 ^ 16) with 65536 in *.
  assert (E1 : Z.lor (u64 (Z.shiftl x 16)) y = x * 65536 + y).
  { rewrite (u64_shiftl_small x 16)
      by (change (2 ^ 64) with 18446744073709551616; change (2 ^ 16) with 65536; lia).
    apply (lor_disjoint_add _ y 16); [lia|apply Z.mod_mul; lia|].
    change (2 ^ 16) with 65536; lia. }
  rewrite E1.
  assert (E2 : Z.lor (u64 (Z.shiftl (x * 65536 + y) 16)) z = (x * 65536 + y) * 65536 + z).
  { rewrite (u64_shiftl_small (x * 65536 + y) 16)
      by (change (2 ^ 64) with 18446744073709551616; change (2 ^ 16) with 65536; lia).
    apply (lor_disjoint_add _ z 16); [lia|apply Z.mod_mul; lia|].
    change (2 ^ 16) with 65536; lia. }
  rewrite E2.
  assert (E3 : Z.lor (u64 (Z.shiftl ((x * 65536 + y) * 65536 + z) 16)) t
               = ((x * 65536 + y) * 65536 + z) * 65536 + t).
  { rewrite (u64_shiftl_small ((x * 65536 + y) * 65536 + z) 16)
      by (change (2 ^ 64) with 18446744073709551616; change (2 ^ 16) with 65536; lia).
    apply (lor_disjoint_add _ t 16); [lia|apply Z.mod_mul; lia|].
    change (2 ^ 16) with 65536; lia. }
  rewrite E3.
  change (2 ^ 48) with (65536 * 65536 * 65536). change (2 ^ 32) with (65536 * 65536).
  ring.
Qed.

Lemma unpack16 a b c d :
  let w := (a mod 2 ^ 16) * 2 ^ 48 + (b mod 2 ^ 16) * 2 ^ 32
           + (c mod 2 ^ 16) * 2 ^ 16 + d mod 2 ^ 16 in
  let w1 := u64 (Z.shiftl w 16) in
  let w2 := u64 (Z.shiftl w1 16) in
  let w3 := u64 (Z.shiftl w2 16) in
  s16 (Z.shiftr w 48) = s16 a /\ s16 (Z.shiftr w1 48) = s16 b
  /\ s16 (Z.shiftr w2 48) = s16 c /\ s16 (Z.shiftr w3 48) = s16 d.
Proof.
  cbv zeta. unfold s16, u64.
  rewrite !Z.shiftl_mul_pow2, !Z.shiftr_div_pow2 by lia.
  change (2 ^ 64) with 18446744073709551616. change (2 ^ 48) with 281474976710656.
  change (2 ^ 32) with 4294967296. change (2 ^ 16) with 65536. change (2 ^ 15) with 32768.
  repeat split; Z.div_mod_to_equations; lia.
Qed.

(** The LMS state of a channel that the frame encoder writes is read back
    by the frame decoder with every history and weight element converted to
    [short]: it is the state itself when all its elements are 16-bit
    values, as they are at the start of [qoa_encode]. *)
Theorem lms_state_wire_round_trip :
  forall l l',
    qoa_decode_lms (fst (qoa_encode_lms l)) (snd (qoa_encode_lms l)) l' = lms_to_short l
    /\ (lms_16bit l -> lms_to_short l = l)
    /\ lms_16bit lms0.
Proof.
  intros l l'. split; [|split].
  - rewrite qoa_encode_lms_eq. cbv zeta. cbn [fst snd].
    rewrite qoa_decode_lms_eq. cbv zeta. rewrite !pack16_sum.
    destruct (unpack16 (a0 (history l)) (a1 (history l)) (a2 (history l)) (a3 (history l)))
      as (H0 & H1 & H2 & H3).
    destruct (unpack16 (a0 (weights l)) (a1 (weights l)) (a2 (weights l)) (a3 (weights l)))
      as (W0 & W1 & W2 & W3).
    rewrite H0, H1, H2, H3, W0, W1, W2, W3. reflexivity.
  - intros ((H0 & H1 & H2 & H3) & W0 & W1 & W2 & W3).
    destruct l as [[h0 h1 h2 h3] [w0 w1 w2 w3]]. unfold lms_to_short, is_short in *.
    cbn [history weights a0 a1 a2 a3] in *.
    rewrite !s16_small by (change (2 ^ 15) with 32768; lia). reflexivity.
  - unfold lms_16bit, hist_ok, lms0, is_short. cbn [history weights a0 a1 a2 a3]. lia.
Qed.

Lemma lms_state_wire_round_trip_witness :
  qoa_decode_lms (fst (qoa_encode_lms lms0)) (snd (qoa_encode_lms lms0)) lms_zero = lms0.
Proof.
  destruct (lms_state_wire_round_trip lms0 lms_zero) as (H1 & H2 & H3).
  rewrite H1. apply H2. exact H3.
Defined.

(** ** What the frame decoder reads and writes *)

(** The slices that the samples of an accepted frame need, against the
    slices that its frame size holds. *)
Lemma slices_read_bound s c N :
  1 <= s -> 1 <= c -> s * c <= N * 20 ->
  (s + 19) / 20 * c <= N + c - 1.
Proof.
  intros Hs Hc H.
  pose proof (Z.div_mod (s + 19) 20 ltac:(lia)) as D.
  pose proof (Z.mod_pos_bound (s + 19) 20 ltac:(lia)) as B.
  set (R := (s + 19) / 20) in *. clearbody R.
  set (m := (s + 19) mod 20) in *. clearbody m.
  assert (E : 20 * (R * c) = (s + 19 - m) * c) by nia.
  assert (20 * (R * c) <= N * 20 + 19 * c) by nia.
  nia.
Qed.

Lemma frame48_accepted : ~ frame_rejected frame48 0 48 (desc0 2 8000 1).
Proof. unfold frame_rejected. vm_compute. intuition discriminate. Qed.

(** The bytes an accepted frame consumes exceed the bytes left by at most
    eight for every channel after the first: a frame of one channel is read
    within the bytes left, and there are accepted frames of two channels
    whose last slice lies behind them. *)
Theorem qoa_decode_frame_read_bound :
  (forall bytes base size qoa sample_data sp,
     ~ frame_rejected bytes base size qoa ->
     fst (fst (fst (qoa_decode_frame bytes base size qoa sample_data sp)))
     <= size + 8 * Z.max 0 (channels qoa - 1))
  /\ (exists bytes base size qoa sample_data sp,
        ~ frame_rejected bytes base size qoa /\
        size < fst (fst (fst (qoa_decode_frame bytes base size qoa sample_data sp)))).
Proof.
  split.
  - intros bytes base size qoa sd sp H.
    pose proof (qoa_decode_frame_accepted_inv bytes base size qoa sd sp H) as I.
    cbv zeta in I.
    destruct (qoa_decode_frame bytes base size qoa sd sp) as [[[ret fl] q] sd'].
    cbn [fst]. destruct I as (-> & _).
    unfold frame_rejected in H. cbv zeta in H.
    set (fh := be64_get bytes base) in *.
    pose proof (fh_channels_range fh) as Rc.
    pose proof (fh_samples_range fh) as Rs.
    pose proof (fh_frame_size_range fh) as Rf.
    set (c := fh_channels fh) in *. set (s := fh_samples fh) in *.
    set (fs := fh_frame_size fh) in *. clearbody c s fs.
    assert (Hc : c = channels qoa) by lia.
    assert (Hsz : 8 + 16 * c <= size) by lia.
    assert (Hfs : fs <= size) by lia.
    assert (Hq : s * c <= Z.quot (fs - 8 - 16 * c) 8 * 20) by lia.
    rewrite <- Hc. clear H Hc.
    destruct (Z.eq_dec c 0) as [->|Hc0]; [lia|].
    destruct (Z.eq_dec s 0) as [->|Hs0]; [change ((0 + 19) / 20) with 0; lia|].
    assert (Hpos : 1 <= s * c) by nia.
    assert (Hd : 0 <= fs - 8 - 16 * c).
    { destruct (Z_lt_le_dec (fs - 8 - 16 * c) 0) as [Hn|]; [|assumption].
      pose proof (Z.quot_opp_l (fs - 8 - 16 * c) 8 ltac:(lia)) as Q.
      pose proof (Z.quot_pos (- (fs - 8 - 16 * c)) 8 ltac:(lia) ltac:(lia)).
      lia. }
    rewrite Z.quot_div_nonneg in Hq by lia.
    pose proof (Z.div_mod (fs - 8 - 16 * c) 8 ltac:(lia)) as D.
    pose proof (Z.mod_pos_bound (fs - 8 - 16 * c) 8 ltac:(lia)) as B.
    set (N := (fs - 8 - 16 * c) / 8) in *. clearbody N.
    pose proof (slices_read_bound s c N ltac:(lia) ltac:(lia) Hq) as HR.
    set (R := (s + 19) / 20) in *. clearbody R.
    rewrite Z.max_r by lia. nia.
  - exists frame48, 0, 48, (desc0 2 8000 1), [0; 0], 0.
    split; [exact frame48_accepted|]. vm_compute. reflexivity.
Qed.

Lemma qoa_decode_frame_read_bound_witness :
  fst (fst (fst (qoa_decode_frame frame48 0 48 (desc0 2 8000 1) [0; 0] 0))) <= 48 + 8.
Proof.
  apply (proj1 qoa_decode_frame_read_bound frame48 0 48 (desc0 2 8000 1) [0; 0] 0).
  exact frame48_accepted.
Defined.

(** *** The cells of the output that a frame touches *)

Lemma same_outside_set lo hi b i v :
  lo <= i < hi -> same_outside lo hi b (Buf.set b i v).
Proof.
  intros Hi. split; [apply set_length|].
  intros j Hj. apply get_set_other. lia.
Qed.

Lemma qoa_decode_slice_outside bytes base ch n_samples sp sample_index c q0 sd0 p0 :
  0 < ch -> 0 <= c < ch -> 0 <= sample_index -> 0 <= n_samples ->
  same_outside sp (sp + n_samples * ch) sd0
    (snd (fst (qoa_decode_slice bytes base ch n_samples sp sample_index c (q0, sd0, p0)))).
Proof.
  intros Hch Hc Hi Hn. unfold qoa_decode_slice, qoa_read_u64.
  cbv beta iota zeta.
  set (slice0 := be64_get bytes (base + p0)).
  set (sf := Z.land (Z.shiftr slice0 60) 15).
  set (m := qoa_clamp (sample_index + QOA_SLICE_LEN) 0 n_samples).
  assert (Hm : 0 <= m <= n_samples) by (apply qoa_clamp_range; lia).
  match goal with |- context [for_range ?lo ?hi ?st ?body ?s0] =>
    set (R := for_range lo hi st body s0);
    assert (HR : (fun s => same_outside sp (sp + n_samples * ch) sd0 (snd (fst s))) R);
    [unfold R;
     apply (for_range_rule
       (fun (si : Z) s =>
          (exists k, sample_index <= k /\ si = k * ch + c) /\
          same_outside sp (sp + n_samples * ch) sd0 (snd (fst s))))|]
  end.
  - exact Hch.
  - split; [exists sample_index; lia|apply same_outside_refl].
  - intros si [[q sd] sl] Hsi ((k & Hk & ->) & Hso).
    destruct (qoa_decode_sample (lms_get q c) sf sl) as [[r l] sl'].
    cbn [fst snd] in *. split; [exists (k + 1); lia|].
    eapply same_outside_trans; [exact Hso|]. apply same_outside_set.
    assert (k < m) by nia. nia.
  - intros si s Hsi [_ H]. exact H.
  - destruct R as [[q sd] sl]. cbn [fst snd] in *. exact HR.
Qed.

Lemma qoa_decode_slices_outside bytes base ch n_samples sp q0 sd0 p0 :
  0 < ch -> 0 <= n_samples ->
  same_outside sp (sp + n_samples * ch) sd0
    (snd (fst (qoa_decode_slices bytes base ch n_samples sp (q0, sd0, p0)))).
Proof.
  intros Hch Hn. unfold qoa_decode_slices, QOA_SLICE_LEN.
  apply (for_range_rule
    (fun i s => 0 <= i /\ same_outside sp (sp + n_samples * ch) sd0 (snd (fst s)))
    (fun s => same_outside sp (sp + n_samples * ch) sd0 (snd (fst s)))).
  - lia.
  - split; [lia|apply same_outside_refl].
  - intros i s Hi (Hi0 & Hso). split; [lia|].
    apply (for_range_rule
      (fun c s' => 0 <= c <= ch /\
                   same_outside sp (sp + n_samples * ch) sd0 (snd (fst s')))
      (fun s' => same_outside sp (sp + n_samples * ch) sd0 (snd (fst s')))).
    + lia.
    + split; [lia|exact Hso].
    + intros c [[q' sd'] p'] Hc (Hc0 & Hso'). split; [lia|].
      eapply same_outside_trans; [exact Hso'|].
      apply qoa_decode_slice_outside; lia.
    + intros c s' Hc [_ H]. exact H.
  - intros i s Hi [_ H]. exact H.
Qed.

(** Whatever the input, the frame decoder leaves every cell of the output
    as it was except the [frame_len * channels] cells from where the frame's
    samples start, with the frame length it reports; the output keeps its
    size. *)
Theorem qoa_decode_frame_writes_its_samples :
  forall bytes base size qoa sample_data sp,
    same_outside sp
      (sp + snd (fst (fst (qoa_decode_frame bytes base size qoa sample_data sp)))
            * channels qoa)
      sample_data
      (snd (qoa_decode_frame bytes base size qoa sample_data sp)).
Proof.
  intros bytes base size qoa sd sp.
  destruct (frame_rejected_dec bytes base size qoa) as [H|H].
  - rewrite qoa_decode_frame_rejects by exact H. cbn [fst snd].
    apply same_outside_refl.
  - rewrite qoa_decode_frame_accepts by exact H. cbv zeta.
    unfold frame_rejected in H. cbv zeta in H.
    set (fh := be64_get bytes base) in *.
    pose proof (fh_channels_range fh) as Rc.
    pose proof (fh_samples_range fh) as Rs.
    assert (Hc : fh_channels fh = channels qoa) by lia.
    destruct (qoa_decode_frame_lms bytes base (fh_channels fh) (qoa, 8)) as [q1 p1].
    destruct (Z.eq_dec (fh_channels fh) 0) as [E0|Hne].
    + assert (HR : qoa_decode_slices bytes base (fh_channels fh) (fh_samples fh) sp
                     (q1, sd, p1) = (q1, sd, p1)).
      { unfold qoa_decode_slices.
        apply (for_range_rule (fun (_ : Z) s => s = (q1, sd, p1))
                              (fun s => s = (q1, sd, p1))).
        - reflexivity.
        - reflexivity.
        - intros i s Hi ->. apply for_range_done. lia.
        - auto. }
      rewrite HR. cbn [fst snd]. apply same_outside_refl.
    + pose proof (qoa_decode_slices_outside bytes base (fh_channels fh) (fh_samples fh)
                    sp q1 sd p1 ltac:(lia) ltac:(lia)) as HS.
      destruct (qoa_decode_slices bytes base (fh_channels fh) (fh_samples fh) sp
                  (q1, sd, p1)) as [[q2 sd2] p2].
      cbn [fst snd] in *. rewrite <- Hc. exact HS.
Qed.

(** ** A slice, encoded and decoded *)

Lemma quant_range c : 0 <= Buf.get qoa_quant_tab (c + 8) <= 7.
Proof.
  set (i := c + 8). clearbody i.
  destruct (Z_lt_le_dec i 0) as [N|N].
  { unfold Buf.get. destruct (Z.ltb_spec i 0); lia. }
  destruct (Z_lt_le_dec i 17) as [L|G].
  2:{ rewrite get_outside; [lia|]. change (Z.of_nat (length qoa_quant_tab)) with 17. lia. }
  assert (C : i = 0 \/ i = 1 \/ i = 2 \/ i = 3 \/ i = 4 \/ i = 5 \/ i = 6 \/ i = 7 \/ i = 8 \/
              i = 9 \/ i = 10 \/ i = 11 \/ i = 12 \/ i = 13 \/ i = 14 \/ i = 15 \/ i = 16)
    by lia.
  destruct C as [C|[C|[C|[C|[C|[C|[C|[C|[C|[C|[C|[C|[C|[C|[C|[C|C]]]]]]]]]]]]]]]]; subst i;
    vm_compute; split; discriminate.
Qed.

Lemma pow8_pos m : 0 < 8 ^ Z.of_nat m.
Proof. apply Z.pow_pos_nonneg; lia. Qed.

Lemma pow8_succ m : 8 ^ Z.of_nat (S m) = 8 * 8 ^ Z.of_nat m.
Proof. rewrite Nat2Z.inj_succ. apply Z.pow_succ_r. lia. Qed.

Lemma pow8_split m :
  (m <= 20)%nat -> 8 ^ Z.of_nat m * 2 ^ (60 - 3 * Z.of_nat m) = 2 ^ 60.
Proof.
  intros H. change 8 with (2 ^ 3). rewrite <- Z.pow_mul_r by lia.
  rewrite <- Z.pow_add_r by lia. f_equal. lia.
Qed.

Lemma pow2_rest_succ m :
  (S m <= 20)%nat ->
  2 ^ (60 - 3 * Z.of_nat m) = 8 * 2 ^ (60 - 3 * Z.of_nat (S m)).
Proof.
  intros H. change 8 with (2 ^ 3). rewrite <- Z.pow_add_r by lia. f_equal. lia.
Qed.

(** The residual that the decoder takes from the top of a slice, and the
    slice it goes on with. *)
Lemma decode_digit D H q T' R A B :
  0 <= H < 16 -> 0 <= q <= 7 -> 0 <= T' < A -> 0 <= R < B ->
  A * B = 2 ^ 57 ->
  D = H * 2 ^ 60 + (q * A + T') * B + R ->
  Z.land (Z.shiftr D 57) 7 = q /\
  u64 (Z.shiftl D 3) = (8 * (H mod 2) + q) * 2 ^ 60 + T' * (8 * B) + 8 * R.
Proof.
  intros HH Hq HT HR HAB HD.
  assert (HX : 0 <= T' * B + R < 2 ^ 57) by nia.
  assert (ED : D = (8 * H + q) * 2 ^ 57 + (T' * B + R)).
  { rewrite HD. change (2 ^ 60) with (8 * 2 ^ 57). rewrite <- HAB. ring. }
  replace ((8 * (H mod 2) + q) * 2 ^ 60 + T' * (8 * B) + 8 * R)
    with ((8 * (H mod 2) + q) * 2 ^ 60 + 8 * (T' * B + R)) by ring.
  set (X := T' * B + R) in *. clearbody X. clear HD HAB HT HR.
  rewrite (land_ones_mod _ 3) by (reflexivity || lia).
  rewrite Z.shiftr_div_pow2, Z.shiftl_mul_pow2 by lia. unfold u64.
  pose proof (Z.div_mod H 2 ltac:(lia)) as DH.
  pose proof (Z.mod_pos_bound H 2 ltac:(lia)) as BH.
  set (h1 := H / 2) in *. set (h0 := H mod 2) in *. clearbody h1 h0.
  change (2 ^ 57) with 144115188075855872 in *.
  change (2 ^ 60) with 1152921504606846976.
  change (2 ^ 64) with 18446744073709551616. change (2 ^ 3) with 8.
  split.
  - assert (E : D / 144115188075855872 = 8 * H + q).
    { symmetry. apply (Z.div_unique _ _ _ X); lia. }
    rewrite E. symmetry. apply (Z.mod_unique _ _ H); lia.
  - symmetry. apply (Z.mod_unique _ _ h1); lia.
Qed.

Section SliceRoundTrip.

Variables (sample_data : list Z) (sbase scalefactor : Z).
Hypothesis samples_short : Forall is_short sample_data.

(** One step of a pass that cannot be left early, and the step of the
    decoder that takes the residual it has written. *)
Lemma full_pass_step si l slice cur :
  0 <= cur -> cur + 2 ^ 32 < 2 ^ 64 -> 0 <= slice -> 8 * (slice + 1) <= 2 ^ 64 ->
  exists q r,
    0 <= q <= 7 /\
    0 <= (Buf.get sample_data (sbase + si) - r) * (Buf.get sample_data (sbase + si) - r)
      < 2 ^ 32 /\
    qoa_encode_sample sample_data sbase scalefactor U64_MAX si (l, slice, cur)
    = ((qoa_lms_update l r (dequant scalefactor q), 8 * slice + q,
        cur + (Buf.get sample_data (sbase + si) - r)
              * (Buf.get sample_data (sbase + si) - r)), false)
    /\ forall D, Z.land (Z.shiftr D 57) 7 = q ->
         qoa_decode_sample l scalefactor D
         = (r, qoa_lms_update l r (dequant scalefactor q), u64 (Z.shiftl D 3)).
Proof.
  intros Hc Hc2 Hs Hs2.
  unfold qoa_encode_sample. cbv beta iota zeta.
  set (sample := Buf.get sample_data (sbase + si)).
  set (predicted := qoa_lms_predict l).
  set (quantized := Buf.get qoa_quant_tab _).
  set (dequantized := dequant scalefactor quantized).
  set (reconstructed := qoa_clamp _ (-32768) 32767).
  pose proof (squared_error_bound sample (s32 (predicted + dequantized))
                (get_is_short sample_data samples_short (sbase + si))) as He.
  cbv zeta in He. fold reconstructed in He.
  pose proof (quant_range (qoa_clamp (qoa_div (s32 (sample - predicted)) scalefactor)
                             (-8) 8)) as Hq.
  fold quantized in Hq.
  exists quantized, reconstructed.
  split; [exact Hq|]. split; [exact He|]. split.
  - set (e2 := (sample - reconstructed) * (sample - reconstructed)) in *. clearbody e2.
    change (2 ^ 32) with 4294967296 in *.
    change (2 ^ 64) with 18446744073709551616 in *.
    rewrite (u64_small e2) by (change (2 ^ 64) with 18446744073709551616; lia).
    rewrite (u64_small (cur + e2)) by (change (2 ^ 64) with 18446744073709551616; lia).
    assert (Hmax : (cur + e2 >? U64_MAX) = false).
    { destruct (Z.gtb_spec (cur + e2) U64_MAX) as [G|G]; [|reflexivity].
      unfold U64_MAX in G. change (2 ^ 64) with 18446744073709551616 in G. lia. }
    rewrite Hmax.
    assert (Hsh : u64 (Z.shiftl slice 3) = slice * 2 ^ 3).
    { apply u64_shiftl_small; [lia|lia|].
      change (2 ^ 3) with 8. change (2 ^ 64) with 18446744073709551616. lia. }
    rewrite Hsh.
    rewrite (lor_disjoint_add (slice * 2 ^ 3) quantized 3).
    + change (2 ^ 3) with 8.
      replace (slice * 8 + quantized) with (8 * slice + quantized) by lia. reflexivity.
    + lia.
    + apply Z.mod_mul. change (2 ^ 3) with 8. lia.
    + change (2 ^ 3) with 8. lia.
  - intros D HD. unfold qoa_decode_sample. cbv zeta.
    fold predicted. rewrite HD. reflexivity.
Qed.

Variables (ch c sp slice_end : Z).
Hypothesis ch_pos : 0 < ch.

(** The pass of the encoder over the last [m] samples of a slice against
    the loop of the decoder over them: what the pass appends to the slice
    are [m] residuals of three bits, and a decoder that finds them in the
    bits below the four at the top, and starts from the same LMS state,
    ends with the LMS state of the pass, and the squared differences from
    the samples it stores add up to the error of the pass. *)
Lemma slice_pass_decoded :
  forall (m fuel : nat) si l slice cur,
    (m <= fuel)%nat -> (m <= 20)%nat ->
    slice_end = si + Z.of_nat m * ch ->
    0 <= cur -> cur + Z.of_nat m * 2 ^ 32 < 2 ^ 64 ->
    0 <= slice -> (slice + 1) * 8 ^ Z.of_nat m <= 2 ^ 64 ->
    exists l' T err,
      for_fuel_break fuel si slice_end ch
        (qoa_encode_sample sample_data sbase scalefactor U64_MAX) (l, slice, cur)
      = (l', slice * 8 ^ Z.of_nat m + T, err)
      /\ 0 <= T < 8 ^ Z.of_nat m
      /\ forall D H R qd out,
           0 <= H < 16 -> 0 <= R < 2 ^ (60 - 3 * Z.of_nat m) ->
           D = H * 2 ^ 60 + T * 2 ^ (60 - 3 * Z.of_nat m) + R ->
           lms_get qd c = l -> 0 <= c < Z.of_nat (length (lms qd)) ->
           exists qd' out' D',
             for_fuel fuel si slice_end ch
               (fun si '(qoa, sample_data, slice) =>
                  let '(reconstructed, l, slice) :=
                    qoa_decode_sample (lms_get qoa c) scalefactor slice in
                  (lms_set qoa c l, Buf.set sample_data (sp + si) reconstructed, slice))
               (qd, out, D)
             = (qd', out', D')
             /\ lms_get qd' c = l'
             /\ same_fields qd qd'
             /\ (forall c', c' <> c -> lms_get qd' c' = lms_get qd c')
             /\ length out' = length out
             /\ (forall j, j < sp + si -> Buf.get out' j = Buf.get out j)
             /\ (0 <= sp + si -> sp + slice_end - ch < Z.of_nat (length out) ->
                 err = cur + squared_error sample_data sbase out' sp si ch m).
Proof.
  induction m as [|m IH]; intros fuel si l slice cur Hf Hm He Hc Hc2 Hs Hs2.
  - exists l, 0, cur.
    assert (E1 : forall St (body : Z -> St -> St * bool) s,
               for_fuel_break fuel si slice_end ch body s = s).
    { intros St body s. destruct fuel as [|f]; [reflexivity|].
      cbn [for_fuel_break]. destruct (Z.ltb_spec si slice_end); [lia|reflexivity]. }
    assert (E2 : forall St (body : Z -> St -> St) s,
               for_fuel fuel si slice_end ch body s = s).
    { intros St body s. destruct fuel as [|f]; [reflexivity|].
      cbn [for_fuel]. destruct (Z.ltb_spec si slice_end); [lia|reflexivity]. }
    rewrite E1. change (8 ^ Z.of_nat 0) with 1.
    split; [f_equal; f_equal; lia|]. split; [lia|].
    intros D H R qd out HH HR HD Hl Hcr.
    exists qd, out, D. rewrite E2.
    split; [reflexivity|]. split; [exact Hl|]. split; [apply same_fields_refl|].
    split; [reflexivity|]. split; [reflexivity|]. split; [reflexivity|].
    intros _ _. cbn [squared_error]. lia.
  - destruct fuel as [|fuel]; [lia|].
    assert (Hlt : si < slice_end) by nia.
    pose proof (pow8_pos m) as Hp8. pose proof (pow8_succ m) as Hp8s.
    rewrite Nat2Z.inj_succ in He, Hc2. unfold Z.succ in He, Hc2.
    assert (Hs3 : 8 * (slice + 1) <= 2 ^ 64) by nia.
    destruct (full_pass_step si l slice cur Hc ltac:(nia) Hs Hs3)
      as (q & r & Hq & He2 & Henc & Hdec).
    set (e2 := (Buf.get sample_data (sbase + si) - r)
               * (Buf.get sample_data (sbase + si) - r)) in *.
    destruct (IH fuel (si + ch) (qoa_lms_update l r (dequant scalefactor q))
                (8 * slice + q) (cur + e2)
                ltac:(lia) ltac:(lia) ltac:(lia) ltac:(lia) ltac:(nia) ltac:(lia)
                ltac:(nia))
      as (l' & T' & err & Hrun & HT' & Hsync).
    exists l', (q * 8 ^ Z.of_nat m + T'), err.
    split; [|split].
    + cbn [for_fuel_break]. destruct (Z.ltb_spec si slice_end) as [_|]; [|lia].
      rewrite Henc. rewrite Hrun. rewrite Hp8s. f_equal. f_equal. ring.
    + rewrite Hp8s. nia.
    + intros D H R qd out HH HR HD Hl Hcr.
      pose proof (pow8_split (S m) Hm) as Hsplit. rewrite Hp8s in Hsplit.
      pose proof (pow2_rest_succ m Hm) as Hrest.
      set (B := 2 ^ (60 - 3 * Z.of_nat (S m))) in *.
      assert (HB : 0 < B) by (apply Z.pow_pos_nonneg; lia).
      assert (HAB : 8 ^ Z.of_nat m * B = 2 ^ 57).
      { change (2 ^ 60) with (8 * 2 ^ 57) in Hsplit. lia. }
      destruct (decode_digit D H q T' R (8 ^ Z.of_nat m) B HH Hq HT' HR HAB HD)
        as (Hdig & Hnext).
      specialize (Hdec D Hdig).
      destruct (Hsync (u64 (Z.shiftl D 3)) (8 * (H mod 2) + q) (8 * R)
                  (lms_set qd c (qoa_lms_update l r (dequant scalefactor q)))
                  (Buf.set out (sp + si) r))
        as (qd' & out' & D' & Hdrun & Hl' & Hsf & Hoth & Hlen & Hbelow & Herr).
      * pose proof (Z.mod_pos_bound H 2 ltac:(lia)). lia.
      * rewrite Hrest. lia.
      * rewrite Hnext. rewrite Hrest. reflexivity.
      * apply lms_get_set_same. exact Hcr.
      * rewrite lms_set_length. exact Hcr.
      * exists qd', out', D'.
        split; [|split; [|split; [|split; [|split; [|split]]]]].
        -- cbn [for_fuel]. destruct (Z.ltb_spec si slice_end) as [_|]; [|lia].
           rewrite Hl. rewrite Hdec. exact Hdrun.
        -- exact Hl'.
        -- eapply same_fields_trans; [apply same_fields_lms_set|exact Hsf].
        -- intros c' Hc'. rewrite Hoth by exact Hc'.
           apply lms_get_set_other. congruence.
        -- rewrite Hlen. apply set_length.
        -- intros j Hj. rewrite Hbelow by lia. apply get_set_other. lia.
        -- intros H0 H1. rewrite set_length in Herr.
           rewrite (Herr ltac:(lia) H1).
           cbn [squared_error]. cbv zeta.
           rewrite (Hbelow (sp + si)) by lia.
           rewrite get_set_same by nia. fold e2. lia.
Qed.

End SliceRoundTrip.

Lemma slice_len_range frame_len sample_index :
  0 <= sample_index < frame_len ->
  let slice_len := qoa_clamp QOA_SLICE_LEN 0 (frame_len - sample_index) in
  1 <= slice_len <= 20
  /\ qoa_clamp (sample_index + QOA_SLICE_LEN) 0 frame_len = sample_index + slice_len.
Proof.
  intros H. cbv zeta. unfold QOA_SLICE_LEN.
  rewrite !qoa_clamp_min by lia. lia.
Qed.

(** The slice word that the file holds, by its parts. *)
Lemma slice_word_parts k T m :
  (m <= 20)%nat -> 0 <= k < 16 -> 0 <= T < 8 ^ Z.of_nat m ->
  let W := u64 (Z.shiftl (k * 8 ^ Z.of_nat m + T) ((QOA_SLICE_LEN - Z.of_nat m) * 3)) in
  W = k * 2 ^ 60 + T * 2 ^ (60 - 3 * Z.of_nat m) + 0
  /\ Z.land (Z.shiftr W 60) 15 = k.
Proof.
  intros Hm Hk HT. cbv zeta. unfold QOA_SLICE_LEN.
  pose proof (pow8_split m Hm) as HS.
  replace ((20 - Z.of_nat m) * 3) with (60 - 3 * Z.of_nat m) by lia.
  set (B := 2 ^ (60 - 3 * Z.of_nat m)) in *.
  assert (HB : 0 < B) by (apply Z.pow_pos_nonneg; lia).
  set (A := 8 ^ Z.of_nat m) in *. clearbody A.
  assert (HX : 0 <= T * B < 2 ^ 60) by nia.
  assert (E : u64 (Z.shiftl (k * A + T) (60 - 3 * Z.of_nat m)) = k * 2 ^ 60 + T * B).
  { rewrite u64_shiftl_small.
    - fold B. rewrite <- HS. ring.
    - lia.
    - nia.
    - fold B. change (2 ^ 64) with (16 * 2 ^ 60). nia. }
  rewrite E. split; [lia|].
  rewrite (land_ones_mod _ 4) by (reflexivity || lia).
  rewrite Z.shiftr_div_pow2 by lia.
  set (X := T * B) in *. clearbody X.
  change (2 ^ 60) with 1152921504606846976 in *. change (2 ^ 4) with 16.
  assert (E1 : (k * 1152921504606846976 + X) / 1152921504606846976 = k).
  { symmetry. apply (Z.div_unique _ _ _ X); lia. }
  rewrite E1. apply Z.mod_small. lia.
Qed.

(** The slice of channel [c] as the decoder sees it when it reads the
    word that the search of the encoder has settled on. *)
Lemma slice_round_trip_gen sd sbase ch frame_len sample_index c qd out sp p bytesD baseD :
  Forall is_short sd ->
  0 < ch <= 255 -> 0 <= c < Z.of_nat (length (lms qd)) ->
  0 <= sample_index < frame_len ->
  0 <= p -> p + 8 < 2 ^ 32 ->
  let slice_len := qoa_clamp QOA_SLICE_LEN 0 (frame_len - sample_index) in
  let slice_start := sample_index * ch + c in
  let slice_end := (sample_index + slice_len) * ch + c in
  let best := qoa_encode_slice_search sd sbase slice_start slice_end ch (lms_get qd c) in
  be64_get bytesD (baseD + p)
  = u64 (Z.shiftl (snd (fst best)) ((QOA_SLICE_LEN - slice_len) * 3)) ->
  let '(qd', out', pd') :=
    qoa_decode_slice bytesD baseD ch frame_len sp sample_index c (qd, out, p) in
  pd' = p + 8 /\ lms_get qd' c = snd best /\ same_fields qd qd' /\
  (forall c', c' <> c -> lms_get qd' c' = lms_get qd c') /\
  length out' = length out /\
  (0 <= sp + slice_start -> sp + slice_end - ch < Z.of_nat (length out) ->
   fst (fst best) = squared_error sd sbase out' sp slice_start ch (Z.to_nat slice_len)).
Proof.
  intros Hs Hch Hc Hi Hp Hp2.
  destruct (slice_len_range frame_len sample_index Hi) as (Hlen & Hclamp).
  cbv zeta in Hlen, Hclamp. cbv zeta.
  set (slice_len := qoa_clamp QOA_SLICE_LEN 0 (frame_len - sample_index)) in *.
  set (ss := sample_index * ch + c).
  set (se := (sample_index + slice_len) * ch + c).
  assert (Hfit : se - ss < 2 ^ 31).
  { unfold se, ss. change (2 ^ 31) with 2147483648. nia. }
  destruct (search_best sd sbase ss se ch (lms_get qd c) Hs Hfit)
    as (k & Hk & Hbest & _).
  rewrite Hbest. cbn [fst snd].
  assert (Hm : (Z.to_nat slice_len <= 20)%nat) by lia.
  assert (Hpow : 8 ^ Z.of_nat (Z.to_nat slice_len) <= 2 ^ 60).
  { change (2 ^ 60) with (8 ^ 20). apply Z.pow_le_mono_r; lia. }
  destruct (slice_pass_decoded sd sbase k Hs ch c sp se ltac:(lia)
              (Z.to_nat slice_len) (Z.to_nat (se - ss)) ss (lms_get qd c) k 0)
    as (l' & T & err & Hrun & HT & Hsync).
  { unfold se, ss. nia. }
  { exact Hm. }
  { unfold se, ss. rewrite Z2Nat.id by lia. ring. }
  { lia. }
  { rewrite Z2Nat.id by lia. change (2 ^ 32) with 4294967296.
    change (2 ^ 64) with 18446744073709551616. lia. }
  { lia. }
  { change (2 ^ 64) with (16 * 2 ^ 60). nia. }
  destruct (slice_word_parts k T (Z.to_nat slice_len) Hm Hk HT) as (HW & Hsf).
  cbv zeta in HW, Hsf.
  rewrite Z2Nat.id in Hrun, HT, Hsync, HW, Hsf by lia.
  unfold full_pass, qoa_encode_slice_pass, for_range_break.
  rewrite Hrun. cbn [fst snd].
  intros Hword.
  unfold qoa_decode_slice, qoa_read_u64. cbv beta iota zeta.
  rewrite Hword, Hsf, Hclamp. fold ss se.
  destruct (Hsync _ k 0 qd out ltac:(lia)
              ltac:(split; [lia|apply Z.pow_pos_nonneg; lia])
              HW eq_refl Hc)
    as (qd' & out' & D' & Hdrun & Hl' & Hsame & Hoth & Hlen' & _ & Herr).
  unfold for_range. rewrite Hdrun.
  split; [apply u32_small; lia|]. split; [exact Hl'|]. split; [exact Hsame|].
  split; [exact Hoth|]. split; [exact Hlen'|].
  intros H0 H1. rewrite (Herr H0 H1). lia.
Qed.

(** A slice that [qoa_encode_frame] writes, read by the loop body of
    [qoa_decode_frame] from a channel state equal to the encoder's: both
    move the cursor alike, the decoder ends with the LMS state that the
    encoder keeps for the channel, and the error that the search of the
    encoder has found least is the sum of the squared differences between
    the samples and what the decoder stores for them. *)
Theorem qoa_slice_round_trip :
  forall sd sbase ch frame_len base sample_index c qe bytes p qd out sp,
    Forall is_short sd ->
    0 < ch <= 255 ->
    0 <= c < Z.of_nat (length (lms qe)) -> 0 <= c < Z.of_nat (length (lms qd)) ->
    0 <= sample_index < frame_len ->
    0 <= p -> p + 8 < 2 ^ 32 ->
    0 <= base + p -> base + p + 8 <= Z.of_nat (length bytes) ->
    lms_get qd c = lms_get qe c ->
    let slice_len := qoa_clamp QOA_SLICE_LEN 0 (frame_len - sample_index) in
    let slice_start := sample_index * ch + c in
    let slice_end := (sample_index + slice_len) * ch + c in
    let '(qe', bytes', pe') :=
      qoa_encode_slice sd sbase ch frame_len base sample_index c (qe, bytes, p) in
    let '(qd', out', pd') :=
      qoa_decode_slice bytes' base ch frame_len sp sample_index c (qd, out, p) in
    pd' = pe' /\ lms_get qd' c = lms_get qe' c /\
    (0 <= sp + slice_start -> sp + slice_end - ch < Z.of_nat (length out) ->
     fst (fst (qoa_encode_slice_search sd sbase slice_start slice_end ch (lms_get qe c)))
     = squared_error sd sbase out' sp slice_start ch (Z.to_nat slice_len)).
Proof.
  intros sd sbase ch frame_len base sample_index c qe bytes p qd out sp
         Hs Hch Hce Hcd Hi Hp Hp2 Hb Hb2 Hl.
  cbv zeta. unfold qoa_encode_slice. cbv zeta.
  set (slice_len := qoa_clamp QOA_SLICE_LEN 0 (frame_len - sample_index)).
  set (ss := sample_index * ch + c).
  set (se := (sample_index + slice_len) * ch + c).
  rewrite <- Hl.
  pose proof (slice_round_trip_gen sd sbase ch frame_len sample_index c qd out sp p
                (be64_put
                   (u64 (Z.shiftl
                      (snd (fst (qoa_encode_slice_search sd sbase ss se ch (lms_get qd c))))
                      ((QOA_SLICE_LEN - slice_len) * 3)))
                   bytes (base + p))
                base Hs Hch Hcd Hi Hp Hp2) as G.
  cbv zeta in G. fold slice_len ss se in G.
  specialize (G (be64_get_put _ bytes (base + p) Hb Hb2 (u64_range _))).
  destruct (qoa_encode_slice_search sd sbase ss se ch (lms_get qd c))
    as [[best_error best_slice] best_lms].
  cbn [fst snd] in G. unfold qoa_write_u64.
  destruct (qoa_decode_slice _ base ch frame_len sp sample_index c (qd, out, p))
    as [[qd' out'] pd'].
  destruct G as (G1 & G2 & _ & _ & _ & G3).
  split; [rewrite u32_small by lia; exact G1|].
  split; [rewrite lms_get_set_same by exact Hce; exact G2|exact G3].
Qed.

Lemma qoa_slice_round_trip_witness :
  let '(qe', bytes', pe') :=
    qoa_encode_slice ramp20 0 1 20 0 0 0 (desc0 1 8000 20, repeat 0 8, 0) in
  let '(qd', out', pd') :=
    qoa_decode_slice bytes' 0 1 20 0 0 0 (desc0 1 8000 20, repeat 0 20, 0) in
  pd' = pe' /\ lms_get qd' 0 = lms_get qe' 0 /\
  (0 <= 0 + (0 * 1 + 0) ->
   0 + ((0 + qoa_clamp QOA_SLICE_LEN 0 (20 - 0)) * 1 + 0) - 1
   < Z.of_nat (length (repeat 0 20)) ->
   fst (fst (qoa_encode_slice_search ramp20 0 (0 * 1 + 0)
               ((0 + qoa_clamp QOA_SLICE_LEN 0 (20 - 0)) * 1 + 0) 1
               (lms_get (desc0 1 8000 20) 0)))
   = squared_error ramp20 0 out' 0 (0 * 1 + 0) 1
       (Z.to_nat (qoa_clamp QOA_SLICE_LEN 0 (20 - 0)))).
Proof.
  apply (qoa_slice_round_trip ramp20 0 1 20 0 0 0 (desc0 1 8000 20) (repeat 0 8) 0
           (desc0 1 8000 20) (repeat 0 20) 0).
  - exact ramp20_short.
  - lia.
  - cbn. lia.
  - cbn. lia.
  - lia.
  - lia.
  - change (2 ^ 32) with 4294967296. lia.
  - lia.
  - cbn. lia.
  - reflexivity.
Defined.

(** ** A frame, encoded and decoded *)

(** A loop that writes at a cursor moving upwards, and a loop over the
    same range that reads what the first has written: the reader is given
    the bytes as they are when the writer is done. *)
Section LoopSync.

Variables SE SD : Type.
Variable bodyE : Z -> SE -> SE.
Variable bodyD : list Z -> Z -> SD -> SD.
Variable bytes_of : SE -> list Z.
Variable cursor : SE -> Z.
Variable G : Z -> SE -> Prop.
Variable R : Z -> SE -> SD -> Prop.
Variables hi step : Z.
Hypothesis step_pos : 0 < step.
Hypothesis stepE :
  forall i s, i < hi -> G i s ->
    G (i + step) (bodyE i s) /\ cursor s <= cursor (bodyE i s) /\
    same_below (cursor s) (bytes_of s) (bytes_of (bodyE i s)).
Hypothesis stepD :
  forall bytesD i s t, i < hi -> G i s -> R i s t ->
    (forall j, cursor s <= j < cursor (bodyE i s) ->
               Buf.get bytesD j = Buf.get (bytes_of (bodyE i s)) j) ->
    R (i + step) (bodyE i s) (bodyD bytesD i t).

Lemma for_fuel_sync :
  forall fuel i s, G i s ->
    cursor s <= cursor (for_fuel fuel i hi step bodyE s) /\
    same_below (cursor s) (bytes_of s) (bytes_of (for_fuel fuel i hi step bodyE s)) /\
    exists i',
      (hi - i <= Z.of_nat fuel -> hi <= i') /\ i <= i' /\
      G i' (for_fuel fuel i hi step bodyE s) /\
      forall bytesD t,
        R i s t ->
        (forall j, cursor s <= j < cursor (for_fuel fuel i hi step bodyE s) ->
           Buf.get bytesD j = Buf.get (bytes_of (for_fuel fuel i hi step bodyE s)) j) ->
        R i' (for_fuel fuel i hi step bodyE s) (for_fuel fuel i hi step (bodyD bytesD) t).
Proof.
  induction fuel as [|fuel IH]; intros i s HG.
  - cbn [for_fuel]. split; [lia|]. split; [apply same_below_refl|].
    exists i. split; [cbn; lia|]. split; [lia|]. split; [exact HG|]. intros; assumption.
  - cbn [for_fuel]. destruct (Z.ltb_spec i hi) as [Hlt|Hge].
    + destruct (stepE i s Hlt HG) as (HG1 & Hc1 & Hsb1).
      destruct (IH (i + step) (bodyE i s) HG1) as (Hc2 & Hsb2 & i' & Hi' & Hle & HG2 & Hrel).
      split; [lia|].
      split; [apply (same_below_trans _ (cursor (bodyE i s)) _ (bytes_of (bodyE i s)));
              [lia|exact Hsb1|exact Hsb2]|].
      exists i'. split; [lia|]. split; [lia|]. split; [exact HG2|].
      intros bytesD t HR Hag. apply Hrel.
      * apply stepD; [assumption|assumption|assumption|].
        intros j Hj. rewrite Hag by lia. apply (proj2 Hsb2). lia.
      * intros j Hj. apply Hag. lia.
    + split; [lia|]. split; [apply same_below_refl|].
      exists i. split; [lia|]. split; [lia|]. split; [exact HG|]. intros; assumption.
Qed.

End LoopSync.

(** *** The LMS states *)

Lemma lms_words_range l :
  0 <= fst (qoa_encode_lms l) < 2 ^ 64 /\ 0 <= snd (qoa_encode_lms l) < 2 ^ 64.
Proof.
  rewrite qoa_encode_lms_eq. cbv zeta. cbn [fst snd]. rewrite !pack16_sum.
  pose proof (Z.mod_pos_bound (a0 (history l)) (2 ^ 16) ltac:(lia)).
  pose proof (Z.mod_pos_bound (a1 (history l)) (2 ^ 16) ltac:(lia)).
  pose proof (Z.mod_pos_bound (a2 (history l)) (2 ^ 16) ltac:(lia)).
  pose proof (Z.mod_pos_bound (a3 (history l)) (2 ^ 16) ltac:(lia)).
  pose proof (Z.mod_pos_bound (a0 (weights l)) (2 ^ 16) ltac:(lia)).
  pose proof (Z.mod_pos_bound (a1 (weights l)) (2 ^ 16) ltac:(lia)).
  pose proof (Z.mod_pos_bound (a2 (weights l)) (2 ^ 16) ltac:(lia)).
  pose proof (Z.mod_pos_bound (a3 (weights l)) (2 ^ 16) ltac:(lia)).
  change (2 ^ 64) with 18446744073709551616. change (2 ^ 48) with 281474976710656.
  change (2 ^ 32) with 4294967296. change (2 ^ 16) with 65536 in *. lia.
Qed.

Lemma lms_words_decoded l l' :
  qoa_decode_lms (fst (qoa_encode_lms l)) (snd (qoa_encode_lms l)) l' = lms_to_short l.
Proof.
  rewrite qoa_encode_lms_eq. cbv zeta. cbn [fst snd].
  rewrite qoa_decode_lms_eq. cbv zeta. rewrite !pack16_sum.
  destruct (unpack16 (a0 (history l)) (a1 (history l)) (a2 (history l)) (a3 (history l)))
    as (H0 & H1 & H2 & H3).
  destruct (unpack16 (a0 (weights l)) (a1 (weights l)) (a2 (weights l)) (a3 (weights l)))
    as (W0 & W1 & W2 & W3).
  rewrite H0, H1, H2, H3, W0, W1, W2, W3. reflexivity.
Qed.

Lemma lms_to_short_16bit l : lms_16bit l -> lms_to_short l = l.
Proof.
  intros ((H0 & H1 & H2 & H3) & W0 & W1 & W2 & W3).
  destruct l as [[h0 h1 h2 h3] [w0 w1 w2 w3]]. unfold lms_to_short, is_short in *.
  cbn [history weights a0 a1 a2 a3] in *.
  rewrite !s16_small by (change (2 ^ 15) with 32768; lia). reflexivity.
Qed.

(** The word at [b] of a buffer that agrees there with one into which the
    word has been put. *)
Lemma be64_get_agree bytesD v bytes b :
  0 <= b -> b + 8 <= Z.of_nat (length bytes) -> 0 <= v < 2 ^ 64 ->
  (forall j, b <= j < b + 8 -> Buf.get bytesD j = Buf.get (be64_put v bytes b) j) ->
  be64_get bytesD b = v.
Proof.
  intros Hb Hl Hv Hag.
  rewrite (be64_get_ext bytesD (be64_put v bytes b)).
  - apply be64_get_put; assumption.
  - intros k Hk. apply Hag. lia.
Qed.

Lemma qoa_frame_lms_round_trip qe base ch bytes0 :
  0 <= ch <= 255 -> 0 <= base ->
  base + 8 + 16 * ch <= Z.of_nat (length bytes0) ->
  forall bytesD qd,
    ch <= Z.of_nat (length (lms qd)) ->
    (forall j, base + 8 <= j < base + 8 + 16 * ch ->
       Buf.get bytesD j = Buf.get (fst (qoa_encode_frame_lms qe base ch (bytes0, 8))) j) ->
    let '(q1, p1) := qoa_decode_frame_lms bytesD base ch (qd, 8) in
    p1 = 8 + 16 * ch /\ same_fields qd q1 /\
    forall c, 0 <= c < ch -> lms_get q1 c = lms_to_short (lms_get qe c).
Proof.
  intros Hch Hb HL bytesD qd Hlen Hag.
  pose proof (for_fuel_sync (list Z * Z) (qoa_desc * Z)
    (fun c '(bytes, p) =>
       let '(history_w, weights_w) := qoa_encode_lms (lms_get qe c) in
       let '(bytes, p) := qoa_write_u64 history_w bytes base p in
       qoa_write_u64 weights_w bytes base p)
    (fun bytesD c '(qoa, p) =>
       let '(history_w, p) := qoa_read_u64 bytesD base p in
       let '(weights_w, p) := qoa_read_u64 bytesD base p in
       (lms_set qoa c (qoa_decode_lms history_w weights_w (lms_get qoa c)), p))
    fst (fun s => base + snd s)
    (fun c s => 0 <= c <= ch /\ snd s = 8 + 16 * c /\ length (fst s) = length bytes0)
    (fun c s t => snd t = snd s /\ same_fields qd (fst t) /\
                  forall c', 0 <= c' < c -> lms_get (fst t) c' = lms_to_short (lms_get qe c'))
    ch 1 ltac:(lia)) as S.
  cbn beta in S.
  specialize (S
    ltac:(intros i [bytes p] Hi (Hi0 & Hp & Hl); cbn [fst snd] in *;
          destruct (qoa_encode_lms (lms_get qe i)) as [hw ww];
          unfold qoa_write_u64; cbn [fst snd];
          rewrite (u32_small (p + 8)) by lia; rewrite u32_small by lia;
          rewrite !be64_put_length;
          split; [lia|]; split; [lia|];
          apply (same_below_trans _ (base + p) _ (be64_put hw bytes (base + p)));
            [lia|apply same_below_put; lia|apply same_below_put; lia])).
  specialize (S
    ltac:(intros bD i [bytes p] [q pd] Hi (Hi0 & Hp & Hl) (Hpd & Hsf & Hlms) Hagr;
          cbn [fst snd] in *; subst pd;
          pose proof (lms_words_range (lms_get qe i)) as [Rh Rw];
          pose proof (lms_words_decoded (lms_get qe i) (lms_get q i)) as Hdec;
          destruct (qoa_encode_lms (lms_get qe i)) as [hw ww];
          unfold qoa_write_u64, qoa_read_u64 in *; cbn [fst snd] in *;
          rewrite (u32_small (p + 8)) in * by lia; rewrite u32_small in Hagr by lia;
          rewrite u32_small by lia;
          assert (E1 : be64_get bD (base + p) = hw)
            by (apply (be64_get_agree bD hw bytes (base + p)); [lia|lia|exact Rh|];
                intros j Hj; rewrite Hagr by lia;
                apply be64_put_get_other; lia);
          assert (E2 : be64_get bD (base + (p + 8)) = ww)
            by (apply (be64_get_agree bD ww (be64_put hw bytes (base + p)) (base + (p + 8)));
                [lia|rewrite be64_put_length; lia|exact Rw|];
                intros j Hj; apply Hagr; lia);
          rewrite E1, E2, Hdec;
          split; [reflexivity|];
          split; [eapply same_fields_trans; [exact Hsf|apply same_fields_lms_set]|];
          intros c' Hc'; destruct (Z.eq_dec c' i) as [->|Hne];
            [apply lms_get_set_same; destruct Hsf as (_ & _ & _ & Hsl); rewrite Hsl; lia
            |rewrite lms_get_set_other by congruence; apply Hlms; lia])).
  destruct (S (Z.to_nat (ch - 0)) 0 (bytes0, 8)) as (_ & _ & i' & Hi' & _ & HG & Hrel).
  { cbn [fst snd]. lia. }
  unfold qoa_encode_frame_lms, qoa_decode_frame_lms, for_range in *.
  specialize (Hrel bytesD (qd, 8)).
  destruct HG as (Hi0 & Hp & _).
  destruct (for_fuel (Z.to_nat (ch - 0)) 0 ch 1 _ (bytes0, 8)) as [bytes2 p2] eqn:EE.
  cbn [fst snd] in *.
  assert (Ei : i' = ch) by lia. subst i'.
  destruct Hrel as (Hpd & Hsf & Hlms).
  - split; [reflexivity|]. split; [apply same_fields_refl|]. intros c' Hc'. lia.
  - intros j Hj. apply Hag. lia.
  - destruct (for_fuel (Z.to_nat (ch - 0)) 0 ch 1 _ (qd, 8)) as [q1 p1].
    cbn [fst snd] in *. split; [lia|]. split; [exact Hsf|exact Hlms].
Qed.

(** *** The slices *)

Lemma qoa_encode_slice_eq sd sbase ch frame_len base i c q b p :
  0 <= p -> p + 8 < 2 ^ 32 ->
  qoa_encode_slice sd sbase ch frame_len base i c (q, b, p) =
  let slice_len := qoa_clamp QOA_SLICE_LEN 0 (frame_len - i) in
  let best :=
    qoa_encode_slice_search sd sbase (i * ch + c) ((i + slice_len) * ch + c) ch
      (lms_get q c) in
  (lms_set q c (snd best),
   be64_put (u64 (Z.shiftl (snd (fst best)) ((QOA_SLICE_LEN - slice_len) * 3))) b (base + p),
   p + 8).
Proof.
  intros Hp Hp2. unfold qoa_encode_slice. cbv zeta.
  destruct (qoa_encode_slice_search sd sbase _ _ ch (lms_get q c)) as [[be bs] bl].
  unfold qoa_write_u64. cbn [fst snd]. rewrite u32_small by lia. reflexivity.
Qed.

(** The loop over the channels, for the slices that start at sample [i]. *)
Lemma channel_loop_sync sd sbase ch frame_len base sp i (nbytes : nat) p0 :
  Forall is_short sd -> 0 < ch <= 255 -> 0 <= base -> 0 <= i < frame_len ->
  0 <= p0 -> p0 + 8 * ch < 2 ^ 32 -> base + p0 + 8 * ch <= Z.of_nat nbytes ->
  forall qe bytes,
    length bytes = nbytes -> ch <= Z.of_nat (length (lms qe)) ->
    let se' :=
      for_range 0 ch 1 (qoa_encode_slice sd sbase ch frame_len base i) (qe, bytes, p0) in
    snd se' = p0 + 8 * ch /\ length (snd (fst se')) = nbytes /\
    ch <= Z.of_nat (length (lms (fst (fst se')))) /\
    same_below (base + p0) bytes (snd (fst se')) /\
    forall bytesD qd out,
      ch <= Z.of_nat (length (lms qd)) ->
      (forall c, 0 <= c < ch -> lms_get qd c = lms_get qe c) ->
      (forall j, base + p0 <= j < base + p0 + 8 * ch ->
         Buf.get bytesD j = Buf.get (snd (fst se')) j) ->
      let sd' :=
        for_range 0 ch 1 (qoa_decode_slice bytesD base ch frame_len sp i) (qd, out, p0) in
      snd sd' = p0 + 8 * ch /\ ch <= Z.of_nat (length (lms (fst (fst sd')))) /\
      forall c, 0 <= c < ch -> lms_get (fst (fst sd')) c = lms_get (fst (fst se')) c.
Proof.
  intros Hs Hch Hb Hi Hp0 Hp1 Hp2 qe bytes Hlen Hlms.
  pose proof (for_fuel_sync (qoa_desc * list Z * Z) (qoa_desc * list Z * Z)
    (qoa_encode_slice sd sbase ch frame_len base i)
    (fun bytesD => qoa_decode_slice bytesD base ch frame_len sp i)
    (fun s => snd (fst s)) (fun s => base + snd s)
    (fun c s => 0 <= c <= ch /\ snd s = p0 + 8 * c /\ length (snd (fst s)) = nbytes /\
                ch <= Z.of_nat (length (lms (fst (fst s)))))
    (fun c s t => snd t = snd s /\ ch <= Z.of_nat (length (lms (fst (fst t)))) /\
                  forall c', 0 <= c' < ch ->
                    lms_get (fst (fst t)) c' = lms_get (fst (fst s)) c')
    ch 1 ltac:(lia)) as S.
  cbn beta in S.
  match type of S with (?A -> _) => assert (HE : A) end.
  { intros c [[q b] p] Hc (Hc0 & Hp & Hl & Hq). cbn [fst snd] in *.
    rewrite qoa_encode_slice_eq by lia. cbv zeta. cbn [fst snd].
    rewrite be64_put_length, lms_set_length.
    split; [lia|]. split; [lia|]. apply same_below_put. lia. }
  specialize (S HE).
  match type of S with (?A -> _) => assert (HD : A) end.
  { intros bD c [[q b] p] [[qd out] pd] Hc (Hc0 & Hp & Hl & Hq) (Hpd & Hqd & Hsync) Hag.
    cbn [fst snd] in *. subst pd.
    rewrite qoa_encode_slice_eq in * by lia. cbv zeta in *. cbn [fst snd] in *.
    pose proof (slice_round_trip_gen sd sbase ch frame_len i c qd out sp p bD base
                  Hs Hch ltac:(lia) Hi ltac:(lia) ltac:(lia)) as RT.
    cbv zeta in RT. rewrite (Hsync c ltac:(lia)) in RT.
    set (W := u64 (Z.shiftl _ _)) in *.
    specialize (RT (be64_get_agree bD W b (base + p) ltac:(lia) ltac:(lia)
                      (u64_range _) (fun j Hj => Hag j ltac:(lia)))).
    destruct (qoa_decode_slice bD base ch frame_len sp i c (qd, out, p))
      as [[qd' out'] pd'].
    cbn [fst snd]. destruct RT as (E1 & E2 & E3 & E4 & _).
    split; [exact E1|].
    split; [destruct E3 as (_ & _ & _ & E3); rewrite E3; exact Hqd|].
    intros c' Hc'. destruct (Z.eq_dec c' c) as [->|Hne].
    - rewrite E2. symmetry. apply lms_get_set_same. lia.
    - rewrite (E4 c' Hne). rewrite lms_get_set_other by congruence. apply Hsync. exact Hc'. }
  specialize (S HD). clear HE HD.
  destruct (S (Z.to_nat (ch - 0)) 0 (qe, bytes, p0))
    as (_ & Hsb & i' & Hi' & _ & (Hi0 & Hp & Hl & Hq) & Hrel).
  { cbn [fst snd]. lia. }
  cbv zeta. unfold for_range.
  set (se' := for_fuel (Z.to_nat (ch - 0)) 0 ch 1
                (qoa_encode_slice sd sbase ch frame_len base i) (qe, bytes, p0)) in *.
  cbn [fst snd] in *.
  assert (Ei : i' = ch) by lia. subst i'.
  split; [lia|]. split; [exact Hl|]. split; [exact Hq|]. split; [exact Hsb|].
  intros bytesD qd out Hqd Hsync Hag.
  destruct (Hrel bytesD (qd, out, p0)) as (E1 & E2 & E3).
  - cbn [fst snd]. split; [reflexivity|]. split; [exact Hqd|exact Hsync].
  - intros j Hj. apply Hag. lia.
  - split; [lia|]. split; [exact E2|exact E3].
Qed.

(** The loop over the slices of a frame. *)
Lemma slices_loop_sync sd sbase ch frame_len base sp (nbytes : nat) p0 :
  Forall is_short sd -> 0 < ch <= 255 -> 0 <= base -> 0 <= frame_len ->
  0 <= p0 -> p0 + 8 * ch * ((frame_len + 19) / 20) < 2 ^ 32 ->
  base + p0 + 8 * ch * ((frame_len + 19) / 20) <= Z.of_nat nbytes ->
  forall qe bytes,
    length bytes = nbytes -> ch <= Z.of_nat (length (lms qe)) ->
    let se' := qoa_encode_slices sd sbase ch frame_len base (qe, bytes, p0) in
    snd se' = p0 + 8 * ch * ((frame_len + 19) / 20) /\
    same_below (base + p0) bytes (snd (fst se')) /\
    forall bytesD qd out,
      ch <= Z.of_nat (length (lms qd)) ->
      (forall c, 0 <= c < ch -> lms_get qd c = lms_get qe c) ->
      (forall j, base + p0 <= j < base + p0 + 8 * ch * ((frame_len + 19) / 20) ->
         Buf.get bytesD j = Buf.get (snd (fst se')) j) ->
      let sd' := qoa_decode_slices bytesD base ch frame_len sp (qd, out, p0) in
      snd sd' = snd se' /\
      forall c, 0 <= c < ch -> lms_get (fst (fst sd')) c = lms_get (fst (fst se')) c.
Proof.
  intros Hs Hch Hb Hfl Hp0 Hp1 Hp2 qe bytes Hlen Hlms.
  pose proof (for_fuel_sync (qoa_desc * list Z * Z) (qoa_desc * list Z * Z)
    (fun sample_index st =>
       for_range 0 ch 1 (qoa_encode_slice sd sbase ch frame_len base sample_index) st)
    (fun bytesD sample_index st =>
       for_range 0 ch 1 (qoa_decode_slice bytesD base ch frame_len sp sample_index) st)
    (fun s => snd (fst s)) (fun s => base + snd s)
    (fun i s => 0 <= i < frame_len + 20 /\ i mod 20 = 0 /\
                snd s = p0 + 8 * ch * (i / 20) /\ length (snd (fst s)) = nbytes /\
                ch <= Z.of_nat (length (lms (fst (fst s)))))
    (fun i s t => snd t = snd s /\ ch <= Z.of_nat (length (lms (fst (fst t)))) /\
                  forall c', 0 <= c' < ch ->
                    lms_get (fst (fst t)) c' = lms_get (fst (fst s)) c')
    frame_len 20 ltac:(lia)) as S.
  cbn beta in S.
  assert (Hstep : forall i, 0 <= i < frame_len -> i mod 20 = 0 ->
            (i + 20) / 20 = i / 20 + 1 /\ i / 20 + 1 <= (frame_len + 19) / 20 /\
            (i + 20) mod 20 = 0 /\ 0 <= i / 20).
  { intros i Hi Him.
    assert (Hdiv : (i + 20) / 20 = i / 20 + 1).
    { replace (i + 20) with (i + 1 * 20) by lia. rewrite Z.div_add by lia. reflexivity. }
    split; [exact Hdiv|]. split; [rewrite <- Hdiv; apply Z.div_le_mono; lia|].
    split; [|apply Z.div_pos; lia].
    replace (i + 20) with (i + 1 * 20) by lia. rewrite Z.mod_add by lia. exact Him. }
  match type of S with (?A -> _) => assert (HE : A) end.
  { intros i [[q b] p] Hi (Hi0 & Him & Hp & Hl & Hq). cbn [fst snd] in *.
    destruct (Hstep i ltac:(lia) Him) as (Hdiv & Hle & Hmod & Hq0).
    assert (Hmul : ch * (i / 20 + 1) <= ch * ((frame_len + 19) / 20))
      by (apply Z.mul_le_mono_nonneg_l; lia).
    destruct (channel_loop_sync sd sbase ch frame_len base sp i nbytes p
                Hs Hch Hb ltac:(lia) ltac:(nia) ltac:(nia) ltac:(nia) q b Hl Hq)
      as (E1 & E2 & E3 & E4 & _).
    rewrite E1, E2, Hdiv. split; [|split; [lia|exact E4]].
    split; [lia|]. split; [exact Hmod|]. split; [lia|]. split; [reflexivity|exact E3]. }
  specialize (S HE).
  match type of S with (?A -> _) => assert (HD : A) end.
  { intros bD i [[q b] p] [[qd out] pd] Hi (Hi0 & Him & Hp & Hl & Hq) (Hpd & Hqd & Hsync) Hag.
    cbn [fst snd] in *. subst pd.
    destruct (Hstep i ltac:(lia) Him) as (Hdiv & Hle & Hmod & Hq0).
    assert (Hmul : ch * (i / 20 + 1) <= ch * ((frame_len + 19) / 20))
      by (apply Z.mul_le_mono_nonneg_l; lia).
    destruct (channel_loop_sync sd sbase ch frame_len base sp i nbytes p
                Hs Hch Hb ltac:(lia) ltac:(nia) ltac:(nia) ltac:(nia) q b Hl Hq)
      as (E1 & E2 & E3 & E4 & E5).
    destruct (E5 bD qd out Hqd Hsync) as (F1 & F2 & F3).
    - intros j Hj. apply Hag. rewrite E1. lia.
    - rewrite F1, E1. split; [reflexivity|]. split; [exact F2|exact F3]. }
  specialize (S HD). clear HE HD.
  destruct (S (Z.to_nat (frame_len - 0)) 0 (qe, bytes, p0))
    as (_ & Hsb & i' & Hi' & _ & (Hi0 & Him & Hp & Hl & Hq) & Hrel).
  { cbn [fst snd]. change (0 / 20) with 0. split; [lia|]. split; [reflexivity|]. lia. }
  cbv zeta. unfold qoa_encode_slices, qoa_decode_slices, for_range, QOA_SLICE_LEN.
  set (se' := for_fuel (Z.to_nat (frame_len - 0)) 0 frame_len 20 _ (qe, bytes, p0)) in *.
  cbn [fst snd] in *.
  assert (E : i' / 20 = (frame_len + 19) / 20).
  { specialize (Hi' ltac:(lia)).
    pose proof (Z.div_mod i' 20 ltac:(lia)) as D1.
    pose proof (Z.mod_pos_bound (frame_len + 19) 20 ltac:(lia)) as B2.
    pose proof (Z.div_mod (frame_len + 19) 20 ltac:(lia)) as D2.
    lia. }
  rewrite E in Hp.
  split; [exact Hp|]. split; [exact Hsb|].
  intros bytesD qd out Hqd Hsync Hag.
  destruct (Hrel bytesD (qd, out, p0)) as (E1 & E2 & E3).
  - cbn [fst snd]. split; [reflexivity|]. split; [exact Hqd|exact Hsync].
  - intros j Hj. apply Hag. lia.
  - split; [exact E1|exact E3].
Qed.

(** A frame that [qoa_encode_frame] writes from channel states of 16-bit
    values is accepted by [qoa_decode_frame], which consumes the bytes the
    encoder has written, reports the frame length the encoder was given,
    and ends with the LMS state of every channel equal to the one the
    encoder ends with: the decoder follows the predictor of the encoder
    through the frame. *)
Theorem qoa_frame_round_trip :
  forall sd sbase qe frame_len bytes base qd out sp size,
    Forall is_short sd ->
    1 <= channels qe <= 8 -> 1 <= samplerate qe <= 16777215 ->
    0 <= frame_len <= 5120 ->
    channels qe <= Z.of_nat (length (lms qe)) ->
    channels qe <= Z.of_nat (length (lms qd)) ->
    (forall c, 0 <= c < channels qe -> lms_16bit (lms_get qe c)) ->
    channels qd = channels qe -> samplerate qd = samplerate qe ->
    0 <= base ->
    let frame_size :=
      8 + 16 * channels qe + 8 * channels qe * ((frame_len + 19) / 20) in
    base + frame_size <= Z.of_nat (length bytes) ->
    frame_size <= size ->
    let '(ret, qe', bytes') := qoa_encode_frame sd sbase qe frame_len bytes base in
    let '(retd, frame_len_d, qd', out') :=
      qoa_decode_frame bytes' base size qd out sp in
    retd = ret /\ ret = frame_size /\ frame_len_d = frame_len /\
    forall c, 0 <= c < channels qe -> lms_get qd' c = lms_get qe' c.
Proof.
  intros sd sbase qe frame_len bytes base qd out sp size
         Hs Hch Hsr Hfl Hle Hld H16 Hcd Hsd Hb fs Hlen Hsz.
  pose proof (qoa_encode_frame_inv sd sbase qe frame_len bytes base Hch Hfl) as INV.
  cbv zeta in INV. fold fs in INV.
  unfold qoa_encode_frame in *. cbv zeta in *.
  assert (Hk : 0 <= (frame_len + 19) / 20 <= 256).
  { split; [apply Z.div_pos; lia|].
    assert ((frame_len + 19) / 20 < 257) by (apply Z.div_lt_upper_bound; lia). lia. }
  unfold QOA_SLICE_LEN, QOA_FRAME_SIZE, QOA_LMS_LEN in *.
  replace (frame_len + 20 - 1) with (frame_len + 19) in * by lia.
  rewrite (u32_small (frame_len + 19)) in * by lia.
  set (k := (frame_len + 19) / 20) in *.
  rewrite (u32_small (8 + 4 * 4 * channels qe + 8 * k * channels qe)) in * by nia.
  replace (8 + 4 * 4 * channels qe + 8 * k * channels qe) with fs in * by (unfold fs; lia).
  assert (Hfs : 24 <= fs <= 16520) by (unfold fs; nia).
  unfold qoa_write_u64 at 1 in INV. unfold qoa_write_u64 at 1.
  change (u32 (0 + 8)) with 8 in *. rewrite Z.add_0_r in *.
  set (bytes1 := be64_put (frame_header_word qe frame_len fs) bytes base) in *.
  assert (Hl1 : length bytes1 = length bytes) by apply be64_put_length.
  pose proof (qoa_encode_frame_lms_inv qe base (channels qe) bytes1 8
                ltac:(lia) ltac:(lia) ltac:(lia)) as HL.
  pose proof (qoa_frame_lms_round_trip qe base (channels qe) bytes1
                ltac:(lia) Hb ltac:(unfold fs in *; nia)) as HLR.
  destruct (qoa_encode_frame_lms qe base (channels qe) (bytes1, 8)) as [bytes2 p2].
  destruct HL as (L1 & L2 & _). cbn [fst] in HLR. subst p2.
  assert (Hl2 : length bytes2 = length bytes) by (destruct L2 as [L2 _]; lia).
  pose proof (slices_loop_sync sd sbase (channels qe) frame_len base sp (length bytes2)
                (8 + 16 * channels qe) Hs ltac:(lia) Hb ltac:(lia) ltac:(lia)
                ltac:(fold k; nia) ltac:(fold k; unfold fs in *; nia)
                qe bytes2 eq_refl Hle) as HSL.
  cbv zeta in HSL. fold k in HSL.
  destruct (qoa_encode_slices sd sbase (channels qe) frame_len base
              (qe, bytes2, 8 + 16 * channels qe)) as [[q3 bytes3] p3].
  cbn [fst snd] in HSL. destruct HSL as (S1 & S2 & S3).
  destruct INV as (I1 & _ & _ & _ & I5).
  destruct (I5 Hb ltac:(lia) ltac:(change (2 ^ 24) with 16777216; lia))
    as (_ & F1 & F2 & F3 & F4).
  assert (ACC : ~ frame_rejected bytes3 base size qd).
  { apply (encoded_frame_accepted bytes3 base size qd (channels qe) (samplerate qe)
             frame_len Hch Hfl F1 F2 F3); [|exact Hcd|exact Hsd|].
    - rewrite F4. unfold fs. fold k. reflexivity.
    - fold k. fold fs. exact Hsz. }
  rewrite (qoa_decode_frame_accepts bytes3 base size qd out sp ACC). cbv zeta.
  rewrite F1, F3.
  specialize (HLR bytes3 qd Hld
                ltac:(intros j Hj; apply (proj2 S2); lia)).
  destruct (qoa_decode_frame_lms bytes3 base (channels qe) (qd, 8)) as [q1 p1].
  destruct HLR as (-> & Hsf1 & Hlms1).
  specialize (S3 bytes3 q1 out).
  destruct (qoa_decode_slices bytes3 base (channels qe) frame_len sp
              (q1, out, 8 + 16 * channels qe)) as [[q2 out2] pd].
  cbn [fst snd] in S3.
  destruct S3 as (E1 & E2).
  - destruct Hsf1 as (_ & _ & _ & Hsl). rewrite Hsl. exact Hld.
  - intros c Hc. rewrite Hlms1 by exact Hc. apply lms_to_short_16bit. apply H16. exact Hc.
  - intros; reflexivity.
  - split; [exact E1|]. split; [exact I1|]. split; [reflexivity|exact E2].
Qed.

Lemma qoa_frame_round_trip_witness :
  let '(ret, qe', bytes') :=
    qoa_encode_frame ramp20 0 (desc0 1 8000 20) 20 (repeat 0 32) 0 in
  let '(retd, frame_len_d, qd', out') :=
    qoa_decode_frame bytes' 0 32 (desc0 1 8000 20) (repeat 0 20) 0 in
  retd = ret /\ ret = 8 + 16 * 1 + 8 * 1 * ((20 + 19) / 20) /\ frame_len_d = 20 /\
  forall c, 0 <= c < 1 -> lms_get qd' c = lms_get qe' c.
Proof.
  apply (qoa_frame_round_trip ramp20 0 (desc0 1 8000 20) 20 (repeat 0 32) 0
           (desc0 1 8000 20) (repeat 0 20) 0 32).
  - exact ramp20_short.
  - cbn. lia.
  - cbn. lia.
  - lia.
  - cbn. lia.
  - cbn. lia.
  - intros c Hc. assert (c = 0) by (cbn in Hc; lia). subst c.
    unfold lms_16bit, hist_ok, is_short. cbn. lia.
  - reflexivity.
  - reflexivity.
  - lia.
  - cbn. lia.
  - cbn. lia.
Defined.

(** ** The history of the encoder *)

Lemma qoa_encode_sample_hist_ok sd sbase scalefactor best_error si l slice cur :
  hist_ok l ->
  hist_ok (fst (fst (fst
    (qoa_encode_sample sd sbase scalefactor best_error si (l, slice, cur))))).
Proof.
  intros H. unfold qoa_encode_sample. cbv beta iota zeta.
  match goal with |- context [if ?b then _ else _] => destruct b end; cbn [fst].
  - exact H.
  - apply qoa_lms_update_hist_ok; [exact H|].
    unfold is_short. apply qoa_clamp_range. lia.
Qed.

Lemma qoa_encode_slice_pass_hist_ok sd sbase slice_end ch scalefactor best_error :
  forall fuel si l slice cur,
    hist_ok l ->
    hist_ok (fst (fst
      (for_fuel_break fuel si slice_end ch
         (qoa_encode_sample sd sbase scalefactor best_error) (l, slice, cur)))).
Proof.
  induction fuel as [|fuel IH]; intros si l slice cur H; cbn [for_fuel_break].
  - exact H.
  - destruct (si <? slice_end); [|exact H].
    pose proof (qoa_encode_sample_hist_ok sd sbase scalefactor best_error si l slice cur H)
      as H1.
    destruct (qoa_encode_sample sd sbase scalefactor best_error si (l, slice, cur))
      as [[[l1 slice1] cur1] brk].
    cbn [fst] in H1. destruct brk; [exact H1|]. apply IH. exact H1.
Qed.

Lemma qoa_encode_slice_search_hist_ok sd sbase slice_start slice_end ch l :
  hist_ok l ->
  hist_ok (snd (qoa_encode_slice_search sd sbase slice_start slice_end ch l)).
Proof.
  intros H. unfold qoa_encode_slice_search.
  apply (for_range_rule (fun (_ : Z) best => hist_ok (snd best))
                        (fun best => hist_ok (snd best))).
  - lia.
  - exact H.
  - intros i [[be bs] bl] _ Hb. cbn [snd] in Hb. unfold qoa_encode_slice_try.
    pose proof (qoa_encode_slice_pass_hist_ok sd sbase slice_end ch i be
                  (Z.to_nat (slice_end - slice_start)) slice_start l i 0 H) as HP.
    unfold qoa_encode_slice_pass, for_range_break.
    destruct (for_fuel_break _ slice_start slice_end ch _ (l, i, 0)) as [[l' sl] ce].
    cbn [fst] in HP. destruct (ce <? be); cbn [snd]; assumption.
  - intros i best _ Hb. exact Hb.
Qed.

Lemma qoa_encode_slice_hist_ok sd sbase ch frame_len base sample_index c n st :
  hist_ok_below n (fst (fst st)) ->
  hist_ok_below n
    (fst (fst (qoa_encode_slice sd sbase ch frame_len base sample_index c st))).
Proof.
  destruct st as [[q b] p]. cbn [fst]. intros H. unfold qoa_encode_slice. cbv zeta.
  pose proof (fun l => qoa_encode_slice_search_hist_ok sd sbase
                (sample_index * ch + c)
                ((sample_index + qoa_clamp QOA_SLICE_LEN 0 (frame_len - sample_index)) * ch + c)
                ch l) as HS.
  destruct (Z_lt_le_dec c 0) as [Hneg|Hpos];
    [|destruct (Z_lt_le_dec c n) as [Hin|Hout]].
  - (* no such channel: the state of the search is the zero state *)
    specialize (HS (lms_get q c)).
    destruct (qoa_encode_slice_search sd sbase _ _ ch (lms_get q c)) as [[be bs] bl].
    unfold qoa_write_u64. cbn [fst snd] in *.
    intros c' Hc'. rewrite lms_get_set_other by lia. apply H. exact Hc'.
  - specialize (HS (lms_get q c) (H c ltac:(lia))).
    destruct (qoa_encode_slice_search sd sbase _ _ ch (lms_get q c)) as [[be bs] bl].
    unfold qoa_write_u64. cbn [fst snd] in *.
    intros c' Hc'. apply hist_ok_set; [exact HS|apply H; exact Hc'].
  - specialize (HS (lms_get q c)).
    destruct (qoa_encode_slice_search sd sbase _ _ ch (lms_get q c)) as [[be bs] bl].
    unfold qoa_write_u64. cbn [fst snd] in *.
    intros c' Hc'. rewrite lms_get_set_other by lia. apply H. exact Hc'.
Qed.

Lemma qoa_encode_frame_hist_ok sd sbase q frame_len bytes base n :
  hist_ok_below n q ->
  hist_ok_below n (snd (fst (qoa_encode_frame sd sbase q frame_len bytes base))).
Proof.
  intros H. unfold qoa_encode_frame. cbv zeta.
  destruct (qoa_write_u64 _ bytes base 0) as [bytes1 p1].
  destruct (qoa_encode_frame_lms q base (channels q) (bytes1, p1)) as [bytes2 p2].
  assert (HS : hist_ok_below n
                 (fst (fst (qoa_encode_slices sd sbase (channels q) frame_len base
                              (q, bytes2, p2))))).
  { unfold qoa_encode_slices, QOA_SLICE_LEN.
    apply (for_range_rule (fun (_ : Z) st => hist_ok_below n (fst (fst st)))
                          (fun st => hist_ok_below n (fst (fst st)))).
    - lia.
    - exact H.
    - intros i st _ Hst.
      apply (for_range_rule (fun (_ : Z) st => hist_ok_below n (fst (fst st)))
                            (fun st => hist_ok_below n (fst (fst st)))).
      + lia.
      + exact Hst.
      + intros c st' _ Hst'. apply qoa_encode_slice_hist_ok. exact Hst'.
      + intros c st' _ Hst'. exact Hst'.
    - intros i st _ Hst. exact Hst. }
  destruct (qoa_encode_slices sd sbase (channels q) frame_len base (q, bytes2, p2))
    as [[q3 bytes3] p3].
  exact HS.
Qed.

Lemma qoa_encode_frames_hist_ok sd n :
  forall fuel q bytes si p,
    hist_ok_below n q ->
    hist_ok_below n (snd (fst (qoa_encode_frames fuel sd q bytes si p))).
Proof.
  induction fuel as [|fuel IH]; intros q bytes si p H; cbn [qoa_encode_frames].
  - exact H.
  - destruct (u32 si <? samples q); [|exact H]. cbv zeta.
    pose proof (qoa_encode_frame_hist_ok sd (u32 (u32 si * channels q)) q
                  (u32 (qoa_clamp QOA_FRAME_LEN 0 (s32 (u32 (samples q - si)))))
                  bytes p n H) as HF.
    destruct (qoa_encode_frame sd _ q _ bytes p) as [[fs q1] b1].
    cbn [fst snd] in HF. apply IH. exact HF.
Qed.

(** The history of every channel holds 16-bit values all through the
    encoder.  A frame keeps the histories so, whatever the samples and the
    state of the weights; and as [qoa_encode] clears the histories before
    the first frame, the descriptor it leaves has them so for every
    channel, whatever the descriptor held before: the history that a frame
    header carries in 16 bits each is the history itself. *)
Theorem qoa_encode_history_is_16bit :
  (forall sd sbase q frame_len bytes base n,
     hist_ok_below n q ->
     hist_ok_below n (snd (fst (qoa_encode_frame sd sbase q frame_len bytes base))))
  /\ (forall sd q bytes out_len q',
        qoa_encode sd q = Some (bytes, out_len, q') ->
        hist_ok_below (channels q) q').
Proof.
  split; [intros; apply qoa_encode_frame_hist_ok; assumption|].
  intros sd q bytes out_len q' E. unfold qoa_encode in E.
  destruct (_ || _); [discriminate E|]. cbv zeta in E.
  destruct (encode_init_lms_inv q) as (I1 & I2 & I3 & I4 & I5).
  assert (H0 : hist_ok_below (channels q) (qoa_encode_init_lms q)).
  { intros c Hc. destruct (Z_lt_le_dec c (Z.of_nat (length (lms q)))) as [L|G].
    - rewrite I5 by lia. unfold hist_ok, lms0, is_short. cbn [history a0 a1 a2 a3]. lia.
    - rewrite lms_get_outside by lia. apply hist_ok_zero. }
  destruct (qoa_encode_header (qoa_encode_init_lms q) _) as [bytes0 p0].
  rewrite I3 in E.
  pose proof (qoa_encode_frames_hist_ok sd (channels q) (Z.to_nat (samples q))
                (qoa_encode_init_lms q) bytes0 0 p0 H0) as HF.
  destruct (qoa_encode_frames _ sd (qoa_encode_init_lms q) bytes0 0 p0) as [[pf qf] bf].
  cbn [fst snd] in HF. injection E as _ _ <-. exact HF.
Qed.

Lemma qoa_encode_history_is_16bit_witness :
  hist_ok_below 1
    (snd (fst (qoa_encode_frame ramp20 0 (desc0 1 8000 20) 20 (repeat 0 32) 0))).
Proof.
  apply (proj1 qoa_encode_history_is_16bit ramp20 0 (desc0 1 8000 20) 20 (repeat 0 32) 0 1).
  intros c Hc. assert (c = 0) by lia. subst c.
  unfold hist_ok, is_short. cbn. lia.
Defined.

(** ** The samples that the decoder reports *)

Lemma qoa_decode_frames_count bytes size :
  forall fuel q sd p si q' sd' p' si',
    0 <= channels q -> Z.of_nat (length sd) < 2 ^ 31 ->
    0 <= si -> si * channels q <= Z.of_nat (length sd) ->
    qoa_decode_frames fuel bytes size q sd p si = Ok (q', sd', p', si') ->
    channels q' = channels q /\ length sd' = length sd
    /\ 0 <= si' /\ si' * channels q <= Z.of_nat (length sd).
Proof.
  induction fuel as [|fuel IH]; intros q sd p si q' sd' p' si' Hc Hl Hsi Hin E;
    [discriminate E|].
  cbn [qoa_decode_frames] in E.
  change (2 ^ 31) with 2147483648 in Hl.
  assert (Hsp : u32 (si * channels q) = si * channels q).
  { apply u32_small. change (2 ^ 32) with 4294967296. nia. }
  rewrite Hsp in E.
  pose proof (qoa_decode_frame_samples_short_len bytes p (u32 (size - p)) q sd
                (si * channels q)) as L.
  assert (I : let '(ret, fl, q1, sd1) :=
                qoa_decode_frame bytes p (u32 (size - p)) q sd (si * channels q) in
              0 <= fl /\ channels q1 = channels q).
  { destruct (frame_rejected_dec bytes p (u32 (size - p)) q) as [R|A].
    - rewrite (qoa_decode_frame_rejects _ _ _ _ _ _ R). split; [lia|reflexivity].
    - pose proof (qoa_decode_frame_accepted_inv bytes p (u32 (size - p)) q sd
                    (si * channels q) A) as I.
      cbv zeta in I.
      pose proof (fh_samples_range (be64_get bytes p)) as Rs.
      destruct (qoa_decode_frame bytes p (u32 (size - p)) q sd (si * channels q))
        as [[[ret fl] q1] sd1].
      destruct I as (_ & Hfl & (Hch & _) & _). split; [lia|exact Hch]. }
  destruct (qoa_decode_frame bytes p (u32 (size - p)) q sd (si * channels q))
    as [[[ret fl] q1] sd1].
  cbn [snd] in L. destruct I as [Hfl Hch].
  destruct (frame_in_bounds bytes p (u32 (size - p)) q sd (si * channels q) ret fl) eqn:B;
    [|discriminate E].
  unfold frame_in_bounds in B. cbv zeta in B.
  apply andb_prop in B. destruct B as [_ B]. apply orb_prop in B.
  assert (Hst : (si + fl) * channels q <= Z.of_nat (length sd)).
  { destruct B as [B|B]; apply Z.leb_le in B; nia. }
  assert (Hu : 0 <= u32 (si + fl) /\ u32 (si + fl) * channels q <= Z.of_nat (length sd)).
  { destruct (Z.eq_dec (channels q) 0) as [C0|C0].
    - rewrite C0, Z.mul_0_r. pose proof (u32_range (si + fl)). lia.
    - rewrite u32_small by (change (2 ^ 32) with 4294967296; nia). lia. }
  destruct (negb (ret =? 0) && (u32 (si + fl) <? samples q1)).
  - destruct (IH q1 sd1 (u32 (p + ret)) (u32 (si + fl)) q' sd' p' si'
                ltac:(lia) ltac:(rewrite L; exact Hl) ltac:(lia)
                ltac:(rewrite L, Hch; lia) E) as (E1 & E2 & E3 & E4).
    rewrite Hch, L in *. auto.
  - injection E as <- <- _ <-. auto.
Qed.

(** When [qoa_decode] returns a buffer, the number of its cells is the total
    number of samples that the decoder computes in an [int] from the sample
    count of the file header and the channel count of the first frame
    header, that is their product modulo 2^32 read as a signed number; this
    number is not negative, and it is the product itself when the product
    is at most 2^31 - 1.  The descriptor returned has the channels of the
    first frame header, and the samples it reports all lie in the buffer:
    their number times the channels is at most the number of cells.  The
    decoder does not return on every file: on the file of 48 bytes that
    announces one sample and holds a frame of twenty, the frame decoder
    accepts the frame and stores its samples past the one cell of the
    buffer. *)
Theorem qoa_decode_sample_count :
  (forall bytes size qoa sample_data q',
     qoa_decode bytes size qoa = Ok (Some sample_data, q') ->
     let announced := Z.land (be64_get bytes 0) 0xffffffff in
     let ch := fh_channels (be64_get bytes 8) in
     0 <= s32 (u32 (announced * ch))
     /\ Z.of_nat (length sample_data) = s32 (u32 (announced * ch))
     /\ (announced * ch <= INT_MAX -> Z.of_nat (length sample_data) = announced * ch)
     /\ channels q' = ch
     /\ 0 <= samples q'
     /\ samples q' * channels q' <= Z.of_nat (length sample_data))
  /\ fst (qoa_decode_header file48 48 (desc0 0 0 0)) = 8
  /\ total_samples (snd (qoa_decode_header file48 48 (desc0 0 0 0))) = 1
  /\ snd (fst (fst (qoa_decode_frame file48 8 40
                      (snd (qoa_decode_header file48 48 (desc0 0 0 0))) [0] 0))) = 20
  /\ qoa_decode file48 48 (desc0 0 0 0) = OutOfBounds.
Proof.
  split.
  - intros bytes size qoa sd q' E. cbv zeta.
    destruct (header_malformed_dec bytes size) as [M|H].
    { rewrite (qoa_decode_null _ _ _ M) in E. discriminate E. }
    rewrite (qoa_decode_unfold _ _ _ H) in E. cbv zeta in E.
    rewrite (qoa_decode_header_ok _ _ _ H) in E. cbn [snd] in E.
    set (n := Z.land (be64_get bytes 0) 4294967295) in *.
    set (ch := fh_channels (be64_get bytes 8)) in *.
    set (q1 := Desc ch _ n _) in E.
    assert (Ht : total_samples q1 = s32 (u32 (n * ch))) by reflexivity.
    pose proof (total_samples_range q1) as Rt.
    pose proof (fh_channels_range (be64_get bytes 8)) as Rc. fold ch in Rc.
    assert (Hn : 0 <= n < 2 ^ 32) by (unfold n; apply (land_mask _ 32); lia).
    destruct (Z.ltb_spec (total_samples q1) 0) as [N|P].
    { destruct (qoa_decode_frames _ _ _ _ _ _ _) as [[[[qf sdf] pf] sif]| |];
        discriminate E. }
    destruct (qoa_decode_frames (S (length bytes)) bytes size q1
                (repeat 0 (Z.to_nat (total_samples q1))) 8 0)
      as [[[[qf sdf] pf] sif]| |] eqn:EF; try discriminate E.
    injection E as <- <-.
    apply qoa_decode_frames_count in EF.
    + destruct EF as (E1 & E2 & E3 & E4).
      rewrite repeat_length in E2, E4. cbn [channels q1] in E1, E4.
      rewrite Z2Nat.id in E4 by lia.
      assert (Hlen : Z.of_nat (length sdf) = s32 (u32 (n * ch))).
      { rewrite E2, Z2Nat.id by lia. exact Ht. }
      split; [lia|]. split; [exact Hlen|].
      split.
      { intros Hp. rewrite Hlen. unfold INT_MAX in Hp.
        change (2 ^ 31) with 2147483648 in Hp. change (2 ^ 32) with 4294967296 in Hn.
        rewrite u32_small by (change (2 ^ 32) with 4294967296; nia).
        apply s32_small. change (2 ^ 31) with 2147483648. nia. }
      cbn [set_samples channels samples]. rewrite E1.
      split; [reflexivity|]. split; [exact E3|lia].
    + cbn [channels q1]. lia.
    + rewrite repeat_length, Z2Nat.id by lia. lia.
    + lia.
    + rewrite repeat_length. cbn [channels q1]. lia.
  - split; [reflexivity|]. split; [reflexivity|].
    split; vm_compute; reflexivity.
Qed.

Lemma qoa_decode_sample_count_witness :
  exists sample_data q',
    qoa_decode file48_of_40 48 (desc0 0 0 0) = Ok (Some sample_data, q')
    /\ Z.of_nat (length sample_data) = 40
    /\ samples q' * channels q' <= Z.of_nat (length sample_data).
Proof.
  destruct (qoa_decode file48_of_40 48 (desc0 0 0 0)) as [[[sd|] q']| |] eqn:E.
  - exists sd, q'. split; [reflexivity|].
    destruct (proj1 qoa_decode_sample_count file48_of_40 48 (desc0 0 0 0) sd q' E)
      as (_ & _ & H3 & _ & _ & H6).
    split; [|exact H6].
    apply H3. vm_compute. discriminate.
  - vm_compute in E. discriminate E.
  - vm_compute in E. discriminate E.
  - vm_compute in E. discriminate E.
Defined.

(** ** The samples between R and the codec *)

Lemma list_get_ext (a b : list Z) :
  length a = length b ->
  (forall i, 0 <= i < Z.of_nat (length a) -> Buf.get a i = Buf.get b i) ->
  a = b.
Proof.
  intros Hl H. apply (nth_ext a b 0 0 Hl). intros n Hn.
  specialize (H (Z.of_nat n) ltac:(lia)). unfold Buf.get in H.
  destruct (Z.ltb_spec (Z.of_nat n) 0); [lia|].
  rewrite Nat2Z.id in H. exact H.
Qed.

(** The cell of the stream for the point in time [i] and the channel [j],
    and the cell of the matrix for them. *)
Lemma stream_index_unique ch i j i' j' :
  0 <= j < ch -> 0 <= j' < ch -> i * ch + j = i' * ch + j' -> i = i' /\ j = j'.
Proof.
  intros Hj Hj' E.
  assert (i = i').
  { destruct (Z_lt_le_dec i i') as [L|G].
    - assert (ch <= (i' - i) * ch) by nia. lia.
    - destruct (Z_lt_le_dec i' i) as [L'|G']; [|lia].
      assert (ch <= (i - i') * ch) by nia. lia. }
  subst i'. lia.
Qed.

Lemma matrix_index_unique n i j i' j' :
  0 <= i < n -> 0 <= i' < n -> i + j * n = i' + j' * n -> i = i' /\ j = j'.
Proof.
  intros Hi Hi' E.
  destruct (stream_index_unique n j i j' i' Hi Hi' ltac:(lia)) as (-> & ->).
  split; reflexivity.
Qed.

Section Copy.

Variables (qoa : qoa_desc).
Hypothesis ch_pos : 0 < channels qoa.
Hypothesis n_pos : 0 <= samples qoa.
Hypothesis fits : samples qoa * channels qoa < 2 ^ 31.

Lemma matrix_index_small i j :
  0 <= i < samples qoa -> 0 <= j < channels qoa ->
  u32 (i + u32 (j * samples qoa)) = i + j * samples qoa
  /\ 0 <= i + j * samples qoa < samples qoa * channels qoa.
Proof.
  intros Hi Hj. change (2 ^ 31) with 2147483648 in fits.
  assert (B : 0 <= i + j * samples qoa < samples qoa * channels qoa) by nia.
  split; [|exact B].
  rewrite (u32_small (j * samples qoa)) by (change (2 ^ 32) with 4294967296; nia).
  apply u32_small. change (2 ^ 32) with 4294967296. lia.
Qed.

(** The stream that [qoaWrite_] makes of a matrix. *)
Lemma qoaWrite_stream_inv m sv0 :
  let sv := qoaWrite_stream qoa m sv0 in
  length sv = length sv0 /\
  (forall i j, 0 <= i < samples qoa -> 0 <= j < channels qoa ->
     i * channels qoa + j < Z.of_nat (length sv0) ->
     Buf.get sv (i * channels qoa + j) = s16 (Buf.get m (i + j * samples qoa))) /\
  (forall k, samples qoa * channels qoa <= k -> Buf.get sv k = Buf.get sv0 k).
Proof.
  cbv zeta. unfold qoaWrite_stream.
  change (2 ^ 31) with 2147483648 in fits.
  set (P := fun (c : Z) (st : Z * list Z) =>
              fst st = c /\ length (snd st) = length sv0 /\
              (forall i j, 0 <= j < channels qoa -> 0 <= i ->
                 i * channels qoa + j < c ->
                 i * channels qoa + j < Z.of_nat (length sv0) ->
                 Buf.get (snd st) (i * channels qoa + j)
                 = s16 (Buf.get m (i + j * samples qoa))) /\
              (forall k, c <= k -> Buf.get (snd st) k = Buf.get sv0 k)).
  match goal with |- context [for_range 0 (samples qoa) 1 ?body ?s0] =>
    assert (HR : P (samples qoa * channels qoa) (for_range 0 (samples qoa) 1 body s0))
  end.
  { apply (for_range_rule (fun i st => 0 <= i <= samples qoa /\ P (i * channels qoa) st)).
    - lia.
    - split; [lia|]. unfold P. cbn [fst snd]. split; [reflexivity|].
      split; [reflexivity|]. split; [intros; nia|reflexivity].
    - intros i st Hi (Hi0 & HP). split; [lia|].
      apply (for_range_rule
               (fun j st' => 0 <= j <= channels qoa /\ P (i * channels qoa + j) st')
               (fun st' => P ((i + 1) * channels qoa) st')).
      + lia.
      + split; [lia|]. rewrite Z.add_0_r. exact HP.
      + intros j [c sv] Hj (Hj0 & (Hc & Hl & Hdone & Hrest)). cbn [fst snd] in *.
        subst c. split; [lia|]. unfold P. cbn [fst snd].
        destruct (matrix_index_small i j ltac:(lia) ltac:(lia)) as (Eu & _).
        rewrite Eu.
        split; [rewrite s32_small by (change (2 ^ 31) with 2147483648; nia); lia|].
        split; [rewrite set_length; exact Hl|].
        split.
        * intros i' j' Hj' Hi' Hlt Hin.
          destruct (Z.eq_dec (i' * channels qoa + j') (i * channels qoa + j)) as [E|NE].
          -- destruct (stream_index_unique (channels qoa) i' j' i j Hj' ltac:(lia) E)
               as (-> & ->).
             rewrite get_set_same by lia. reflexivity.
          -- rewrite get_set_other by congruence. apply Hdone; [assumption|assumption|lia|].
             assumption.
        * intros k Hk. rewrite get_set_other by lia. apply Hrest. lia.
      + intros j st' Hj (Hj0 & HP'). assert (j = channels qoa) by lia. subst j.
        replace ((i + 1) * channels qoa) with (i * channels qoa + channels qoa) by ring.
        exact HP'.
    - intros i st Hi (Hi0 & HP). assert (i = samples qoa) by lia. subst i. exact HP. }
  destruct HR as (_ & Hl & Hdone & Hrest).
  split; [exact Hl|]. split; [|exact Hrest].
  intros i j Hi Hj Hin. apply Hdone; [assumption|lia|nia|assumption].
Qed.

(** The matrix that [qoaRead_] makes of a stream. *)
Lemma qoaRead_matrix_inv sd out0 :
  let out := qoaRead_matrix qoa sd out0 in
  length out = length out0 /\
  (forall i j, 0 <= i < samples qoa -> 0 <= j < channels qoa ->
     i + j * samples qoa < Z.of_nat (length out0) ->
     Buf.get out (i + j * samples qoa) = Buf.get sd (i * channels qoa + j)) /\
  (forall k, samples qoa * channels qoa <= k -> Buf.get out k = Buf.get out0 k).
Proof.
  cbv zeta. unfold qoaRead_matrix.
  change (2 ^ 31) with 2147483648 in fits.
  set (P := fun (c : Z) (st : Z * list Z) =>
              fst st = c /\ length (snd st) = length out0 /\
              (forall i j, 0 <= j < channels qoa -> 0 <= i < samples qoa ->
                 i * channels qoa + j < c ->
                 i + j * samples qoa < Z.of_nat (length out0) ->
                 Buf.get (snd st) (i + j * samples qoa)
                 = Buf.get sd (i * channels qoa + j)) /\
              (forall k, samples qoa * channels qoa <= k ->
                 Buf.get (snd st) k = Buf.get out0 k)).
  match goal with |- context [for_range 0 (samples qoa) 1 ?body ?s0] =>
    assert (HR : P (samples qoa * channels qoa) (for_range 0 (samples qoa) 1 body s0))
  end.
  { apply (for_range_rule (fun i st => 0 <= i <= samples qoa /\ P (i * channels qoa) st)).
    - lia.
    - split; [lia|]. unfold P. cbn [fst snd]. split; [reflexivity|].
      split; [reflexivity|]. split; [intros; nia|reflexivity].
    - intros i st Hi (Hi0 & HP). split; [lia|].
      apply (for_range_rule
               (fun j st' => 0 <= j <= channels qoa /\ P (i * channels qoa + j) st')
               (fun st' => P ((i + 1) * channels qoa) st')).
      + lia.
      + split; [lia|]. rewrite Z.add_0_r. exact HP.
      + intros j [c out] Hj (Hj0 & (Hc & Hl & Hdone & Hrest)). cbn [fst snd] in *.
        subst c. split; [lia|]. unfold P. cbn [fst snd].
        destruct (matrix_index_small i j ltac:(lia) ltac:(lia)) as (Eu & Bu).
        rewrite Eu.
        split; [rewrite s32_small by (change (2 ^ 31) with 2147483648; nia); lia|].
        split; [rewrite set_length; exact Hl|].
        split.
        * intros i' j' Hj' Hi' Hlt Hin.
          destruct (Z.eq_dec (i' * channels qoa + j') (i * channels qoa + j)) as [E|NE].
          -- destruct (stream_index_unique (channels qoa) i' j' i j Hj' ltac:(lia) E)
               as (-> & ->).
             rewrite get_set_same by lia. reflexivity.
          -- rewrite get_set_other.
             ++ apply Hdone; [assumption|assumption|lia|assumption].
             ++ intros E. apply NE.
                destruct (matrix_index_unique (samples qoa) i j i' j' ltac:(lia) Hi' E)
                  as (-> & ->).
                reflexivity.
        * intros k Hk. rewrite get_set_other by lia. apply Hrest. lia.
      + intros j st' Hj (Hj0 & HP'). assert (j = channels qoa) by lia. subst j.
        replace ((i + 1) * channels qoa) with (i * channels qoa + channels qoa) by ring.
        exact HP'.
    - intros i st Hi (Hi0 & HP). assert (i = samples qoa) by lia. subst i. exact HP. }
  destruct HR as (_ & Hl & Hdone & Hrest).
  split; [exact Hl|]. split; [|exact Hrest].
  intros i j Hi Hj Hin. apply Hdone; [assumption|assumption|nia|assumption].
Qed.

End Copy.

Lemma get_map_s16 m i :
  0 <= i < Z.of_nat (length m) -> Buf.get (map s16 m) i = s16 (Buf.get m i).
Proof.
  intros Hi. unfold Buf.get. destruct (Z.ltb_spec i 0); [lia|].
  change 0 with (s16 0) at 1. apply map_nth.
Qed.

Lemma map_s16_short m : Forall is_short m -> map s16 m = m.
Proof.
  induction 1 as [|x m Hx Hm IH]; [reflexivity|]. cbn [map].
  rewrite IH. f_equal. apply s16_small. unfold is_short in Hx.
  change (2 ^ 15) with 32768. lia.
Qed.

(** The stream that [qoaWrite_] hands to [qoa_encode] holds, for the point
    in time [i] and the channel [j], the cell of row [i] and column [j] of
    the matrix at index [i * channels + j], converted to [short]: the order
    in which the frame encoder takes the samples of a channel, from
    [sample_index * channels + c] in steps of [channels]. *)
Theorem qoaWrite_stream_layout :
  forall qoa sample_data sample_values,
    0 < channels qoa -> 0 <= samples qoa ->
    samples qoa * channels qoa < 2 ^ 31 ->
    samples qoa * channels qoa <= Z.of_nat (length sample_values) ->
    let stream := qoaWrite_stream qoa sample_data sample_values in
    length stream = length sample_values /\
    (forall i j, 0 <= i < samples qoa -> 0 <= j < channels qoa ->
       Buf.get stream (i * channels qoa + j)
       = s16 (Buf.get sample_data (i + j * samples qoa))
       /\ is_short (Buf.get stream (i * channels qoa + j))) /\
    (forall k, samples qoa * channels qoa <= k ->
       Buf.get stream k = Buf.get sample_values k).
Proof.
  intros qoa m sv0 Hc Hn Hfit Hlen.
  destruct (qoaWrite_stream_inv qoa Hc Hn Hfit m sv0) as (H1 & H2 & H3).
  cbv zeta in *. split; [exact H1|]. split; [|exact H3].
  intros i j Hi Hj. rewrite H2 by (assumption || nia).
  split; [reflexivity|apply s16_range].
Qed.

Lemma qoaWrite_stream_layout_witness :
  Buf.get (qoaWrite_stream (desc0 2 8000 3) [1; 2; 3; 40000; 5; 6] (repeat 0 6))
    (0 * 2 + 1)
  = s16 (Buf.get [1; 2; 3; 40000; 5; 6] (0 + 1 * 3)).
Proof.
  destruct (qoaWrite_stream_layout (desc0 2 8000 3) [1; 2; 3; 40000; 5; 6] (repeat 0 6))
    as (_ & H2 & _).
  - cbn. lia.
  - cbn. lia.
  - cbn. lia.
  - cbn. lia.
  - exact (proj1 (H2 0 1 ltac:(cbn; lia) ltac:(cbn; lia))).
Defined.

(** The matrix that [qoaRead_] fills from a stream made by [qoaWrite_] is
    the matrix that [qoaWrite_] was given, every value converted to
    [short]: the matrix itself when its values are 16-bit values. *)
Theorem qoaRead_matrix_of_stream :
  forall qoa sample_data sample_values samples_,
    0 < channels qoa -> 0 <= samples qoa ->
    samples qoa * channels qoa < 2 ^ 31 ->
    Z.of_nat (length sample_data) = samples qoa * channels qoa ->
    Z.of_nat (length samples_) = samples qoa * channels qoa ->
    samples qoa * channels qoa <= Z.of_nat (length sample_values) ->
    qoaRead_matrix qoa (qoaWrite_stream qoa sample_data sample_values) samples_
    = map s16 sample_data
    /\ (Forall is_short sample_data ->
        qoaRead_matrix qoa (qoaWrite_stream qoa sample_data sample_values) samples_
        = sample_data).
Proof.
  intros qoa m sv0 out0 Hc Hn Hfit Hm Hout Hsv.
  assert (E : qoaRead_matrix qoa (qoaWrite_stream qoa m sv0) out0 = map s16 m).
  { destruct (qoaWrite_stream_inv qoa Hc Hn Hfit m sv0) as (W1 & W2 & _).
    destruct (qoaRead_matrix_inv qoa Hc Hn Hfit (qoaWrite_stream qoa m sv0) out0)
      as (R1 & R2 & _).
    cbv zeta in *.
    apply list_get_ext.
    - rewrite R1, length_map. lia.
    - intros k Hk. rewrite R1 in Hk.
      rewrite get_map_s16 by lia.
      assert (Hs : 0 < samples qoa) by nia.
      pose proof (Z.div_mod k (samples qoa) ltac:(lia)) as D.
      pose proof (Z.mod_pos_bound k (samples qoa) Hs) as B.
      assert (Hj : 0 <= k / samples qoa < channels qoa).
      { split; [apply Z.div_pos; lia|]. apply Z.div_lt_upper_bound; lia. }
      set (i := k mod samples qoa) in *. set (j := k / samples qoa) in *.
      assert (Ek : k = i + j * samples qoa) by lia.
      rewrite Ek.
      rewrite R2 by (assumption || lia).
      apply W2; [assumption|assumption|nia]. }
  split; [exact E|]. intros Hshort. rewrite E. apply map_s16_short. exact Hshort.
Qed.

Lemma qoaRead_matrix_of_stream_witness :
  qoaRead_matrix (desc0 2 8000 3)
    (qoaWrite_stream (desc0 2 8000 3) [1; 2; 3; 4; 5; 6] (repeat 0 6)) (repeat 0 6)
  = [1; 2; 3; 4; 5; 6].
Proof.
  apply (qoaRead_matrix_of_stream (desc0 2 8000 3) [1; 2; 3; 4; 5; 6]
           (repeat 0 6) (repeat 0 6)).
  - cbn. lia.
  - cbn. lia.
  - cbn. lia.
  - reflexivity.
  - reflexivity.
  - cbn. lia.
  - unfold is_short. repeat constructor; lia.
Defined.

(** ** The tables *)

(** The tables are what [qoa.h] says they are computed as: the scalefactor
    of index [s] is [(s + 1) ^ 2.75] rounded to the nearest integer, its
    reciprocal is [2 ^ 16] divided by it and rounded up, and the values a
    residual is dequantized to are the scalefactor times 0.75, 2.5, 4.5 and
    7, rounded half up, at the even indices, and their negatives at the odd
    ones. *)
Theorem tables_as_documented :
  forall s, 0 <= s < 16 ->
    let sf := Buf.get qoa_scalefactor_tab s in
    (2 * sf - 1) ^ 4 <= 16 * (s + 1) ^ 11 < (2 * sf + 1) ^ 4
    /\ Buf.get qoa_reciprocal_tab s = (2 ^ 16 + sf - 1) / sf
    /\ dequant s 0 = (3 * sf + 2) / 4
    /\ dequant s 2 = (10 * sf + 2) / 4
    /\ dequant s 4 = (18 * sf + 2) / 4
    /\ dequant s 6 = 7 * sf
    /\ (forall k, 0 <= k < 4 -> dequant s (2 * k + 1) = - dequant s (2 * k)).
Proof.
  intros s Hs.
  assert (S : s = 0 \/ s = 1 \/ s = 2 \/ s = 3 \/ s = 4 \/ s = 5 \/ s = 6 \/ s = 7 \/
              s = 8 \/ s = 9 \/ s = 10 \/ s = 11 \/ s = 12 \/ s = 13 \/ s = 14 \/ s = 15)
    by lia.
  assert (K : forall k, 0 <= k < 4 -> k = 0 \/ k = 1 \/ k = 2 \/ k = 3) by (intros; lia).
  destruct S as [S|[S|[S|[S|[S|[S|[S|[S|[S|[S|[S|[S|[S|[S|[S|S]]]]]]]]]]]]]]]; subst s;
    cbv zeta;
    (split; [vm_compute; split; [discriminate|reflexivity]|]);
    (split; [vm_compute; reflexivity|]);
    (split; [vm_compute; reflexivity|]);
    (split; [vm_compute; reflexivity|]);
    (split; [vm_compute; reflexivity|]);
    (split; [vm_compute; reflexivity|]);
    intros k Hk; destruct (K k Hk) as [->|[->|[->| ->]]]; vm_compute; reflexivity.
Qed.

Lemma tables_as_documented_witness :
  Buf.get qoa_reciprocal_tab 3 = (2 ^ 16 + Buf.get qoa_scalefactor_tab 3 - 1)
                                 / Buf.get qoa_scalefactor_tab 3.
Proof.
  destruct (tables_as_documented 3 ltac:(lia)) as (_ & H & _). exact H.
Defined.

(** ** The bytes of a frame do not depend on what the buffer held *)

Lemma for_range_rule2 {S1 S2} (P : Z -> S1 -> S2 -> Prop) (Q : S1 -> S2 -> Prop)
    (body1 : Z -> S1 -> S1) (body2 : Z -> S2 -> S2) lo hi step s1 s2 :
  0 < step ->
  P lo s1 s2 ->
  (forall i a b, i < hi -> P i a b -> P (i + step) (body1 i a) (body2 i b)) ->
  (forall i a b, hi <= i -> P i a b -> Q a b) ->
  Q (for_range lo hi step body1 s1) (for_range lo hi step body2 s2).
Proof.
  intros Hstep H0 Hbody Hexit. unfold for_range.
  remember (Z.to_nat (hi - lo)) as fuel eqn:E.
  assert (Hf : hi - lo <= Z.of_nat fuel) by lia. clear E.
  revert lo s1 s2 H0 Hf.
  induction fuel as [|fuel IH]; intros lo s1 s2 H0 Hf; cbn [for_fuel].
  - apply (Hexit lo); [lia|assumption].
  - destruct (Z.ltb_spec lo hi).
    + apply IH; [apply Hbody; assumption|lia].
    + apply (Hexit lo); assumption.
Qed.

Lemma be64_put_agree v x y b lo :
  length x = length y -> 0 <= b -> b + 8 <= Z.of_nat (length x) ->
  (forall j, lo <= j < b -> Buf.get x j = Buf.get y j) ->
  forall j, lo <= j < b + 8 ->
    Buf.get (be64_put v x b) j = Buf.get (be64_put v y b) j.
Proof.
  intros Hl Hb Hb8 H j Hj.
  destruct (Z_lt_le_dec j b) as [L|G].
  - rewrite !be64_put_get_other by lia. apply H. lia.
  - replace j with (b + (j - b)) by lia.
    rewrite !be64_put_get_byte by lia. reflexivity.
Qed.

Lemma qoa_encode_frame_lms_agree q base ch b b' :
  0 <= ch -> 8 + 16 * ch < 2 ^ 32 -> 0 <= base ->
  length b = length b' -> base + 8 + 16 * ch <= Z.of_nat (length b) ->
  (forall j, base <= j < base + 8 -> Buf.get b j = Buf.get b' j) ->
  frames_agree base (length b)
    (q, fst (qoa_encode_frame_lms q base ch (b, 8)),
        snd (qoa_encode_frame_lms q base ch (b, 8)))
    (q, fst (qoa_encode_frame_lms q base ch (b', 8)),
        snd (qoa_encode_frame_lms q base ch (b', 8)))
  /\ snd (qoa_encode_frame_lms q base ch (b, 8)) = 8 + 16 * ch.
Proof.
  intros Hch Hlim Hb Hl Hlen H0. unfold qoa_encode_frame_lms.
  apply (for_range_rule2
    (fun i (s s' : list Z * Z) =>
       0 <= i <= ch /\ snd s = 8 + 16 * i /\ frames_agree base (length b)
                                              (q, fst s, snd s) (q, fst s', snd s'))
    (fun s s' => frames_agree base (length b) (q, fst s, snd s) (q, fst s', snd s')
                 /\ snd s = 8 + 16 * ch)).
  - lia.
  - split; [lia|]. split; [reflexivity|]. unfold frames_agree. cbn [fst snd].
    split; [reflexivity|]. split; [reflexivity|]. split; [reflexivity|].
    split; [lia|exact H0].
  - intros i [x p] [y p'] Hi (Hi0 & Hp & A). unfold frames_agree in *.
    cbn [fst snd] in *. destruct A as (_ & -> & Lx & Ly & Hag).
    destruct (qoa_encode_lms (lms_get q i)) as [hw ww].
    unfold qoa_write_u64. cbn [fst snd].
    rewrite (u32_small (p + 8)) by lia. rewrite (u32_small (p + 8 + 8)) by lia.
    split; [lia|]. split; [lia|]. split; [reflexivity|]. split; [reflexivity|].
    rewrite !be64_put_length. split; [exact Lx|]. split; [exact Ly|].
    replace (base + (p + 8 + 8)) with (base + (p + 8) + 8) by lia.
    apply be64_put_agree; [rewrite !be64_put_length; lia|lia
                          |rewrite be64_put_length; lia|].
    replace (base + (p + 8)) with (base + p + 8) by lia.
    apply be64_put_agree; [lia|lia|lia|exact Hag].
  - intros i s s' Hi (Hi0 & Hp & A). assert (i = ch) by lia. subst i.
    split; [exact A|exact Hp].
Qed.

Lemma qoa_encode_slices_agree sd sbase ch frame_len base n s s' :
  0 < ch -> 0 <= frame_len -> 0 <= base -> 0 <= snd s ->
  snd s + 8 * ch * ((frame_len + 19) / 20) < 2 ^ 32 ->
  base + snd s + 8 * ch * ((frame_len + 19) / 20) <= Z.of_nat n ->
  frames_agree base n s s' ->
  frames_agree base n (qoa_encode_slices sd sbase ch frame_len base s)
                      (qoa_encode_slices sd sbase ch frame_len base s').
Proof.
  intros Hch Hfl Hb Hp0 Hlim Hlen A. unfold qoa_encode_slices, QOA_SLICE_LEN.
  set (p0 := snd s) in *.
  apply (for_range_rule2
    (fun i a a' => 0 <= i < frame_len + 20 /\ i mod 20 = 0 /\
                   snd a = p0 + 8 * ch * (i / 20) /\ frames_agree base n a a')
    (fun a a' => frames_agree base n a a')).
  - lia.
  - split; [lia|]. split; [reflexivity|]. split; [change (0 / 20) with 0; lia|exact A].
  - intros i a a' Hi (Hi0 & Him & Hp & Ha).
    assert (Hdiv : (i + 20) / 20 = i / 20 + 1).
    { replace (i + 20) with (i + 1 * 20) by lia. rewrite Z.div_add by lia. reflexivity. }
    assert (Hle : i / 20 + 1 <= (frame_len + 19) / 20).
    { rewrite <- Hdiv. apply Z.div_le_mono; lia. }
    assert (Hmod : (i + 20) mod 20 = 0).
    { replace (i + 20) with (i + 1 * 20) by lia. rewrite Z.mod_add by lia. exact Him. }
    assert (Hq0 : 0 <= i / 20) by (apply Z.div_pos; lia).
    assert (Hmul : ch * (i / 20 + 1) <= ch * ((frame_len + 19) / 20))
      by (apply Z.mul_le_mono_nonneg_l; lia).
    apply (for_range_rule2
      (fun c b b' => 0 <= c <= ch /\ snd b = snd a + 8 * c /\ frames_agree base n b b')
      (fun b b' => 0 <= i + 20 < frame_len + 20 /\ (i + 20) mod 20 = 0 /\
                   snd b = p0 + 8 * ch * ((i + 20) / 20) /\ frames_agree base n b b')).
    + lia.
    + split; [lia|]. split; [lia|exact Ha].
    + intros c [[q x] p] [[q' y] p'] Hc (Hc0 & Hpc & Hb'). unfold frames_agree in *.
      cbn [fst snd] in *. destruct Hb' as (-> & -> & Lx & Ly & Hag).
      rewrite !qoa_encode_slice_eq by nia. cbv zeta. cbn [fst snd].
      split; [lia|]. split; [lia|]. split; [reflexivity|]. split; [reflexivity|].
      rewrite !be64_put_length. split; [exact Lx|]. split; [exact Ly|].
      replace (base + (p + 8)) with (base + p + 8) by lia.
      apply be64_put_agree; [lia|nia|nia|exact Hag].
    + intros c b b' Hc (Hc0 & Hpc & Hb'). assert (c = ch) by lia. subst c.
      split; [lia|]. split; [exact Hmod|]. split; [rewrite Hdiv; lia|exact Hb'].
  - intros i a a' Hi (_ & _ & _ & Ha). exact Ha.
Qed.

(** What [qoa_encode_frame] returns and leaves in the descriptor, and every
    byte of the frame it writes, are the same whatever the buffer held
    before: no byte of a frame is left as it was found, so that the content
    of the buffer that [qoa_encode] allocates does not show in the file. *)
Theorem qoa_encode_frame_ignores_buffer :
  forall sd sbase q frame_len bytes bytes' base,
    1 <= channels q <= 8 -> 0 <= frame_len <= 5120 ->
    length bytes' = length bytes -> 0 <= base ->
    base + (8 + 16 * channels q + 8 * channels q * ((frame_len + 19) / 20))
    <= Z.of_nat (length bytes) ->
    let r := qoa_encode_frame sd sbase q frame_len bytes base in
    let r' := qoa_encode_frame sd sbase q frame_len bytes' base in
    fst (fst r') = fst (fst r) /\ snd (fst r') = snd (fst r) /\
    forall j, base <= j < base + fst (fst r) -> Buf.get (snd r') j = Buf.get (snd r) j.
Proof.
  intros sd sbase q frame_len b b' base Hch Hfl Hl Hb Hlen. cbv zeta.
  unfold qoa_encode_frame. cbv zeta.
  assert (Hk : 0 <= (frame_len + 19) / 20 <= 256).
  { split; [apply Z.div_pos; lia|].
    assert ((frame_len + 19) / 20 < 257) by (apply Z.div_lt_upper_bound; lia). lia. }
  unfold QOA_SLICE_LEN, QOA_FRAME_SIZE, QOA_LMS_LEN.
  replace (frame_len + 20 - 1) with (frame_len + 19) by lia.
  rewrite (u32_small (frame_len + 19)) by lia.
  set (k := (frame_len + 19) / 20) in *.
  rewrite (u32_small (8 + 4 * 4 * channels q + 8 * k * channels q)) by nia.
  set (w := frame_header_word q frame_len _).
  unfold qoa_write_u64. change (u32 (0 + 8)) with 8. rewrite Z.add_0_r.
  destruct (qoa_encode_frame_lms_agree q base (channels q) (be64_put w b base)
              (be64_put w b' base))
    as (A & Ep).
  { lia. }
  { lia. }
  { exact Hb. }
  { rewrite !be64_put_length. lia. }
  { rewrite be64_put_length. nia. }
  { intros j Hj. apply (be64_put_agree w b b' base base); [lia|lia|nia| |lia].
    intros; lia. }
  rewrite be64_put_length in A.
  destruct (qoa_encode_frame_lms q base (channels q) (be64_put w b base, 8))
    as [b2 p2].
  destruct (qoa_encode_frame_lms q base (channels q) (be64_put w b' base, 8))
    as [b2' p2'].
  cbn [fst snd] in A, Ep.
  pose proof (qoa_encode_slices_agree sd sbase (channels q) frame_len base (length b)
                (q, b2, p2) (q, b2', p2')
                ltac:(lia) ltac:(lia) Hb ltac:(cbn [snd]; lia)
                ltac:(cbn [snd]; fold k; nia) ltac:(cbn [snd]; fold k; nia) A) as S.
  destruct (qoa_encode_slices sd sbase (channels q) frame_len base (q, b2, p2))
    as [[q3 b3] p3].
  destruct (qoa_encode_slices sd sbase (channels q) frame_len base (q, b2', p2'))
    as [[q3' b3'] p3'].
  unfold frames_agree in S. cbn [fst snd] in *.
  destruct S as (S1 & S2 & _ & _ & S3).
  split; [exact S2|]. split; [exact S1|]. intros j Hj. symmetry. apply S3. exact Hj.
Qed.

Lemma qoa_encode_frame_ignores_buffer_witness :
  let r := qoa_encode_frame ramp20 0 (desc0 1 8000 20) 20 (repeat 0 32) 0 in
  let r' := qoa_encode_frame ramp20 0 (desc0 1 8000 20) 20 (repeat 255 32) 0 in
  fst (fst r') = fst (fst r) /\ snd (fst r') = snd (fst r) /\
  forall j, 0 <= j < 0 + fst (fst r) -> Buf.get (snd r') j = Buf.get (snd r) j.
Proof.
  apply (qoa_encode_frame_ignores_buffer ramp20 0 (desc0 1 8000 20) 20
           (repeat 0 32) (repeat 255 32) 0).
  - cbn. lia.
  - lia.
  - reflexivity.
  - lia.
  - cbn. lia.
Defined.

(** ** The samples of a frame do not depend on what the output held *)

Lemma set_agree (out out' : list Z) i v idx :
  length out = length out' ->
  (idx <> i -> Buf.get out idx = Buf.get out' idx) ->
  Buf.get (Buf.set out i v) idx = Buf.get (Buf.set out' i v) idx.
Proof.
  intros Hl H. destruct (Z.eq_dec idx i) as [->|Hne].
  - destruct (Z_lt_le_dec i 0) as [N|N].
    + unfold Buf.get. destruct (Z.ltb_spec i 0); [reflexivity|lia].
    + destruct (Z_lt_le_dec i (Z.of_nat (length out))) as [L|G].
      * rewrite !get_set_same by lia. reflexivity.
      * rewrite !get_outside by (rewrite set_length; lia). reflexivity.
  - rewrite !get_set_other by congruence. apply H. exact Hne.
Qed.

Section DecodeAgree.

Variables (bytes : list Z) (base ch n sp : Z).
Hypothesis ch_pos : 0 < ch.
Hypothesis n_pos : 0 <= n.

(** The slice of channel [c] that starts at sample [i]: two runs agree
    afterwards on the cells they agreed on, and on the cells of the
    slice. *)
Lemma qoa_decode_slice_agree i c (done : Z -> Z -> Prop) q out out' p :
  0 <= c < ch -> 0 <= i ->
  length out = length out' ->
  (forall t c', 0 <= c' < ch -> done t c' ->
     Buf.get out (sp + (t * ch + c')) = Buf.get out' (sp + (t * ch + c'))) ->
  let r := qoa_decode_slice bytes base ch n sp i c (q, out, p) in
  let r' := qoa_decode_slice bytes base ch n sp i c (q, out', p) in
  fst (fst r') = fst (fst r) /\ snd r' = snd r /\
  length (snd (fst r)) = length (snd (fst r')) /\
  forall t c', 0 <= c' < ch ->
    done t c' \/ (c' = c /\ i <= t < qoa_clamp (i + QOA_SLICE_LEN) 0 n) ->
    Buf.get (snd (fst r)) (sp + (t * ch + c'))
    = Buf.get (snd (fst r')) (sp + (t * ch + c')).
Proof.
  intros Hc Hi Hl Hag. cbv zeta. unfold qoa_decode_slice, qoa_read_u64.
  cbv beta iota zeta.
  set (slice0 := be64_get bytes (base + p)).
  set (sf := Z.land (Z.shiftr slice0 60) 15).
  set (m := qoa_clamp (i + QOA_SLICE_LEN) 0 n).
  set (body := fun (si : Z) (st : qoa_desc * list Z * Z) =>
                 let '(qoa, sample_data, slice) := st in
                 let '(reconstructed, l, slice1) :=
                   qoa_decode_sample (lms_get qoa c) sf slice in
                 (lms_set qoa c l, Buf.set sample_data (sp + si) reconstructed, slice1)).
  pose (Q := fun (s s' : qoa_desc * list Z * Z) =>
       fst (fst s') = fst (fst s) /\
       length (snd (fst s)) = length (snd (fst s')) /\
       forall t c', 0 <= c' < ch -> done t c' \/ (c' = c /\ i <= t < m) ->
         Buf.get (snd (fst s)) (sp + (t * ch + c'))
         = Buf.get (snd (fst s')) (sp + (t * ch + c'))).
  assert (HR :
    Q (for_range (i * ch + c) (m * ch + c) ch body (q, out, slice0))
      (for_range (i * ch + c) (m * ch + c) ch body (q, out', slice0))).
  { apply (for_range_rule2
      (fun si (s s' : qoa_desc * list Z * Z) =>
         (exists k, i <= k /\ si = k * ch + c /\
            forall t c', 0 <= c' < ch -> done t c' \/ (c' = c /\ i <= t < k) ->
              Buf.get (snd (fst s)) (sp + (t * ch + c'))
              = Buf.get (snd (fst s')) (sp + (t * ch + c'))) /\
         fst (fst s') = fst (fst s) /\ snd s' = snd s /\
         length (snd (fst s)) = length (snd (fst s'))) Q).
    - exact ch_pos.
    - split; [|cbn [fst snd]; auto].
      exists i. split; [lia|]. split; [reflexivity|]. cbn [fst snd].
      intros t c' Hc' [D|(_ & D)]; [apply Hag; assumption|lia].
    - intros si [[q1 o1] s1] [[q1' o1'] s1'] Hsi ((k & Hk & -> & Hd) & Eq & Es & El).
      cbn [fst snd] in *. subst q1' s1'. unfold body.
      destruct (qoa_decode_sample (lms_get q1 c) sf s1) as [[r l] s2].
      cbn [fst snd]. split; [|rewrite !set_length; auto].
      exists (k + 1). split; [lia|]. split; [ring|].
      intros t c' Hc' D. apply set_agree; [exact El|].
      intros Hne. apply Hd; [exact Hc'|].
      destruct D as [D|(-> & D)]; [left; exact D|].
      right. split; [reflexivity|].
      assert (t <> k) by (intros ->; apply Hne; reflexivity). lia.
    - intros si s s' Hsi ((k & Hk & -> & Hd) & Eq & Es & El). unfold Q.
      split; [exact Eq|]. split; [exact El|].
      intros t c' Hc' D. apply Hd; [exact Hc'|].
      destruct D as [D|(-> & D)]; [left; exact D|]. right. split; [reflexivity|]. nia. }
  fold body.
  destruct (for_range (i * ch + c) (m * ch + c) ch body (q, out, slice0))
    as [[q2 o2] s2].
  destruct (for_range (i * ch + c) (m * ch + c) ch body (q, out', slice0))
    as [[q2' o2'] s2'].
  unfold Q in HR. cbn [fst snd] in *. destruct HR as (E1 & E2 & E3).
  split; [exact E1|]. split; [reflexivity|]. split; [exact E2|exact E3].
Qed.

Lemma qoa_decode_slices_agree q out out' p :
  length out = length out' ->
  let r := qoa_decode_slices bytes base ch n sp (q, out, p) in
  let r' := qoa_decode_slices bytes base ch n sp (q, out', p) in
  fst (fst r') = fst (fst r) /\ snd r' = snd r /\
  length (snd (fst r)) = length (snd (fst r')) /\
  forall t c', 0 <= c' < ch -> 0 <= t < n ->
    Buf.get (snd (fst r)) (sp + (t * ch + c'))
    = Buf.get (snd (fst r')) (sp + (t * ch + c')).
Proof.
  intros Hl. cbv zeta. unfold qoa_decode_slices, QOA_SLICE_LEN.
  apply (for_range_rule2
    (fun i (s s' : qoa_desc * list Z * Z) =>
       0 <= i /\ fst (fst s') = fst (fst s) /\ snd s' = snd s /\
       length (snd (fst s)) = length (snd (fst s')) /\
       forall t c', 0 <= c' < ch -> 0 <= t < i /\ t < n ->
         Buf.get (snd (fst s)) (sp + (t * ch + c'))
         = Buf.get (snd (fst s')) (sp + (t * ch + c')))
    (fun (s s' : qoa_desc * list Z * Z) =>
       fst (fst s') = fst (fst s) /\ snd s' = snd s /\
       length (snd (fst s)) = length (snd (fst s')) /\
       forall t c', 0 <= c' < ch -> 0 <= t < n ->
         Buf.get (snd (fst s)) (sp + (t * ch + c'))
         = Buf.get (snd (fst s')) (sp + (t * ch + c')))).
  - lia.
  - cbn [fst snd]. split; [lia|]. split; [reflexivity|]. split; [reflexivity|].
    split; [exact Hl|]. intros; lia.
  - intros i s s' Hi (Hi0 & Eq & Ep & El & Hd).
    apply (for_range_rule2
      (fun c (a a' : qoa_desc * list Z * Z) =>
         0 <= c <= ch /\ fst (fst a') = fst (fst a) /\ snd a' = snd a /\
         length (snd (fst a)) = length (snd (fst a')) /\
         forall t c', 0 <= c' < ch ->
           (0 <= t < i /\ t < n)
           \/ (c' < c /\ i <= t < qoa_clamp (i + QOA_SLICE_LEN) 0 n) ->
           Buf.get (snd (fst a)) (sp + (t * ch + c'))
           = Buf.get (snd (fst a')) (sp + (t * ch + c')))
      (fun (a a' : qoa_desc * list Z * Z) =>
         0 <= i + 20 /\ fst (fst a') = fst (fst a) /\ snd a' = snd a /\
         length (snd (fst a)) = length (snd (fst a')) /\
         forall t c', 0 <= c' < ch -> 0 <= t < i + 20 /\ t < n ->
           Buf.get (snd (fst a)) (sp + (t * ch + c'))
           = Buf.get (snd (fst a')) (sp + (t * ch + c')))).
    + lia.
    + split; [lia|]. split; [exact Eq|]. split; [exact Ep|]. split; [exact El|].
      intros t c' Hc' [D|D]; [apply Hd; assumption|lia].
    + intros c [[q1 o1] p1] [[q1' o1'] p1'] Hc (Hc0 & Eq1 & Ep1 & El1 & Hd1).
      cbn [fst snd] in *. subst q1' p1'.
      destruct (qoa_decode_slice_agree i c
                  (fun t c' => (0 <= t < i /\ t < n)
                               \/ (c' < c /\ i <= t < qoa_clamp (i + QOA_SLICE_LEN) 0 n))
                  q1 o1 o1' p1 ltac:(lia) Hi0 El1 Hd1) as (F1 & F2 & F3 & F4).
      split; [lia|]. split; [exact F1|]. split; [exact F2|]. split; [exact F3|].
      intros t c' Hc' D. apply F4; [exact Hc'|].
      destruct D as [D|(D1 & D2)]; [left; left; exact D|].
      destruct (Z.eq_dec c' c) as [->|Hne]; [right; split; [reflexivity|exact D2]|].
      left. right. split; [lia|exact D2].
    + intros c a a' Hc (Hc0 & Eq1 & Ep1 & El1 & Hd1).
      split; [lia|]. split; [exact Eq1|]. split; [exact Ep1|]. split; [exact El1|].
      intros t c' Hc' (D1 & D2). apply Hd1; [exact Hc'|].
      destruct (Z_lt_le_dec t i) as [L|G]; [left; lia|].
      right. split; [lia|]. unfold QOA_SLICE_LEN.
      rewrite qoa_clamp_min by lia. lia.
  - intros i s s' Hi (Hi0 & Eq & Ep & El & Hd).
    split; [exact Eq|]. split; [exact Ep|]. split; [exact El|].
    intros t c' Hc' Ht. apply Hd; [exact Hc'|lia].
Qed.

End DecodeAgree.

(** What [qoa_decode_frame] returns and leaves in the descriptor, and every
    sample of the frame in the output, are the same whatever the output
    held before: all [frame_len * channels] cells of the frame are
    written, so that the content of the buffer that [qoa_decode] allocates
    does not show in the samples of the frames it decodes. *)
Theorem qoa_decode_frame_ignores_output :
  forall bytes base size qoa sample_data sample_data' sp,
    length sample_data' = length sample_data ->
    let r := qoa_decode_frame bytes base size qoa sample_data sp in
    let r' := qoa_decode_frame bytes base size qoa sample_data' sp in
    fst r' = fst r /\
    forall k, sp <= k < sp + snd (fst (fst r)) * channels qoa ->
      Buf.get (snd r') k = Buf.get (snd r) k.
Proof.
  intros bytes base size qoa sd sd' sp Hl. cbv zeta.
  destruct (frame_rejected_dec bytes base size qoa) as [R|A].
  - rewrite !(qoa_decode_frame_rejects _ _ _ _ _ _ R). cbn [fst snd].
    split; [reflexivity|]. intros k Hk. lia.
  - rewrite !(qoa_decode_frame_accepts _ _ _ _ _ _ A). cbv zeta.
    unfold frame_rejected in A. cbv zeta in A.
    set (fh := be64_get bytes base) in *.
    pose proof (fh_channels_range fh) as Rc.
    pose proof (fh_samples_range fh) as Rs.
    assert (Hc : fh_channels fh = channels qoa) by lia.
    destruct (qoa_decode_frame_lms bytes base (fh_channels fh) (qoa, 8)) as [q1 p1].
    destruct (Z.eq_dec (fh_channels fh) 0) as [E0|Hne].
    + assert (HR : forall o, qoa_decode_slices bytes base (fh_channels fh) (fh_samples fh) sp
                     (q1, o, p1) = (q1, o, p1)).
      { intros o. unfold qoa_decode_slices.
        apply (for_range_rule (fun (_ : Z) s => s = (q1, o, p1))
                              (fun s => s = (q1, o, p1))).
        - reflexivity.
        - reflexivity.
        - intros i s Hi ->. apply for_range_done. lia.
        - auto. }
      rewrite !HR. cbn [fst snd]. split; [reflexivity|]. intros k Hk. nia.
    + destruct (qoa_decode_slices_agree bytes base (fh_channels fh) (fh_samples fh) sp
                  ltac:(lia) ltac:(lia) q1 sd sd' p1 ltac:(lia)) as (F1 & F2 & F3 & F4).
      destruct (qoa_decode_slices bytes base (fh_channels fh) (fh_samples fh) sp
                  (q1, sd, p1)) as [[q2 o2] p2].
      destruct (qoa_decode_slices bytes base (fh_channels fh) (fh_samples fh) sp
                  (q1, sd', p1)) as [[q2' o2'] p2'].
      cbn [fst snd] in *. subst q2' p2'. split; [reflexivity|].
      intros k Hk. rewrite <- Hc in Hk.
      pose proof (Z.div_mod (k - sp) (fh_channels fh) ltac:(lia)) as D.
      pose proof (Z.mod_pos_bound (k - sp) (fh_channels fh) ltac:(lia)) as B.
      assert (Ht : 0 <= (k - sp) / fh_channels fh < fh_samples fh).
      { split; [apply Z.div_pos; lia|]. apply Z.div_lt_upper_bound; nia. }
      replace k with (sp + ((k - sp) / fh_channels fh * fh_channels fh
                            + (k - sp) mod fh_channels fh)) by lia.
      symmetry. apply F4; assumption.
Qed.

Lemma qoa_decode_frame_ignores_output_witness :
  let r := qoa_decode_frame frame40 0 40 (desc0 1 8000 20) (repeat 0 20) 0 in
  let r' := qoa_decode_frame frame40 0 40 (desc0 1 8000 20) (repeat 7 20) 0 in
  fst r' = fst r /\
  forall k, 0 <= k < 0 + snd (fst (fst r)) * channels (desc0 1 8000 20) ->
    Buf.get (snd r') k = Buf.get (snd r) k.
Proof.
  apply (qoa_decode_frame_ignores_output frame40 0 40 (desc0 1 8000 20)
           (repeat 0 20) (repeat 7 20) 0).
  reflexivity.
Defined.
